(** * Moltbook Agent Privacy Layer: a shallow embedding

    The development follows the TypeScript sources of the privacy layer:
    - [crypto.ts]   : [sha256], [arrayBufferToBase64], [generateId]
    - [did.ts]      : DID construction and validation, profile edits,
                      reputation, NFT credentials
    - [channels.ts] : channel creation, invitations, access control,
                      participant edits, message validation, TTL, statistics
    - [storage.ts]  : the R2-backed store, message listing
    - the API routes: the two message endpoints

    Conventions.  A JavaScript [number] that holds a count or a millisecond
    timestamp is a [Z].  A JavaScript string is the [string] of its UTF-8
    bytes.  An optional field [f?: T] is an [option T]; the truthiness test
    [if (x.f)] is written out ([None], [0] and the empty string are falsy).
    A function that throws returns [Err msg]. *)

From Stdlib Require Import ZArith List String Ascii Bool Lia Sorted Permutation.
From stdpp Require Import base option gmap strings list fin_maps pretty.
Import ListNotations.

Local Open Scope string_scope.
Local Open Scope list_scope.
Local Open Scope Z_scope.

(** ** Results of functions that may throw *)

Inductive result (A : Type) : Type :=
| Ok (a : A)
| Err (msg : string).
Arguments Ok {A} a.
Arguments Err {A} msg.

Definition is_ok {A} (r : result A) : bool :=
  match r with Ok _ => true | Err _ => false end.

(** ** crypto.ts *)

Module Crypto.

Local Open Scope Z_scope.

(** *** SHA-256 (the digest behind [crypto.subtle.digest('SHA-256', _)]),
    on 32-bit words held in [Z] with the wrap-around written out. *)

Definition wrap32 (x : Z) : Z := x mod 4294967296.
Definition add32 (x y : Z) : Z := wrap32 (x + y).
Definition rotr (n x : Z) : Z :=
  Z.lor (Z.shiftr x n) (wrap32 (Z.shiftl x (32 - n))).
Definition not32 (x : Z) : Z := 4294967295 - x.

Definition choose (x y z : Z) : Z :=
  Z.lxor (Z.land x y) (Z.land (not32 x) z).
Definition majority (x y z : Z) : Z :=
  Z.lxor (Z.lxor (Z.land x y) (Z.land x z)) (Z.land y z).
Definition big_sigma0 (x : Z) : Z :=
  Z.lxor (Z.lxor (rotr 2 x) (rotr 13 x)) (rotr 22 x).
Definition big_sigma1 (x : Z) : Z :=
  Z.lxor (Z.lxor (rotr 6 x) (rotr 11 x)) (rotr 25 x).
Definition small_sigma0 (x : Z) : Z :=
  Z.lxor (Z.lxor (rotr 7 x) (rotr 18 x)) (Z.shiftr x 3).
Definition small_sigma1 (x : Z) : Z :=
  Z.lxor (Z.lxor (rotr 17 x) (rotr 19 x)) (Z.shiftr x 10).

(** Round constants: the first 32 bits of the fractional parts of the cube
    roots of the first 64 primes. *)
Definition round_constants : list Z :=
  [ 1116352408; 1899447441; 3049323471; 3921009573; 961987163; 1508970993;
    2453635748; 2870763221; 3624381080; 310598401; 607225278; 1426881987;
    1925078388; 2162078206; 2614888103; 3248222580; 3835390401; 4022224774;
    264347078; 604807628; 770255983; 1249150122; 1555081692; 1996064986;
    2554220882; 2821834349; 2952996808; 3210313671; 3336571891; 3584528711;
    113926993; 338241895; 666307205; 773529912; 1294757372; 1396182291;
    1695183700; 1986661051; 2177026350; 2456956037; 2730485921; 2820302411;
    3259730800; 3345764771; 3516065817; 3600352804; 4094571909; 275423344;
    430227734; 506948616; 659060556; 883997877; 958139571; 1322822218;
    1537002063; 1747873779; 1955562222; 2024104815; 2227730452; 2361852424;
    2428436474; 2756734187; 3204031479; 3329325298 ].

Definition initial_hash : list Z :=
  [ 1779033703; 3144134277; 1013904242; 2773480762;
    1359893119; 2600822924; 528734635; 1541459225 ].

(** Big-endian bytes of a word, and back. *)
Definition be_bytes (width : nat) (x : Z) : list Z :=
  map (fun i => (Z.shiftr x (8 * Z.of_nat i)) mod 256) (rev (seq 0 width)).

Definition be_word (bs : list Z) : Z :=
  fold_left (fun acc b => acc * 256 + b) bs 0.

(** Padding: a [0x80] byte, zeros up to 56 modulo 64, the bit length on
    eight bytes. *)
Definition pad (msg : list Z) : list Z :=
  let len := Z.of_nat (List.length msg) in
  let zeros := Z.to_nat ((55 - len) mod 64) in
  msg ++ [128] ++ repeat 0 zeros ++ be_bytes 8 (8 * len).

Fixpoint chunks (fuel : nat) (size : nat) (l : list Z) : list (list Z) :=
  match fuel with
  | O => []
  | S fuel' =>
      match l with
      | [] => []
      | _ => firstn size l :: chunks fuel' size (skipn size l)
      end
  end.

(** The message schedule, built backwards: the head is the latest word. *)
Fixpoint schedule_rev (n : nat) (w : list Z) : list Z :=
  match n with
  | O => w
  | S n' =>
      let next :=
        add32 (add32 (small_sigma1 (nth 1 w 0)) (nth 6 w 0))
              (add32 (small_sigma0 (nth 14 w 0)) (nth 15 w 0)) in
      schedule_rev n' (next :: w)
  end.

Definition schedule (block : list Z) : list Z :=
  rev (schedule_rev 48 (rev (map be_word (chunks 16 4 block)))).

Record regs := { ra : Z; rb : Z; rc : Z; rd : Z; re : Z; rf : Z; rg : Z; rh : Z }.

Definition round (s : regs) (kw : Z * Z) : regs :=
  let t1 := add32 (add32 (add32 (rh s) (big_sigma1 (re s)))
                         (add32 (choose (re s) (rf s) (rg s)) (fst kw)))
                  (snd kw) in
  let t2 := add32 (big_sigma0 (ra s)) (majority (ra s) (rb s) (rc s)) in
  {| ra := add32 t1 t2; rb := ra s; rc := rb s; rd := rc s;
     re := add32 (rd s) t1; rf := re s; rg := rf s; rh := rg s |}.

Definition regs_of (h : list Z) : regs :=
  {| ra := nth 0 h 0; rb := nth 1 h 0; rc := nth 2 h 0; rd := nth 3 h 0;
     re := nth 4 h 0; rf := nth 5 h 0; rg := nth 6 h 0; rh := nth 7 h 0 |}.

Definition regs_list (s : regs) : list Z :=
  [ra s; rb s; rc s; rd s; re s; rf s; rg s; rh s].

Definition compress (h : list Z) (block : list Z) : list Z :=
  let s := fold_left round (combine round_constants (schedule block)) (regs_of h) in
  map (fun p => add32 (fst p) (snd p)) (combine h (regs_list s)).

Definition digest (msg : list Z) : list Z :=
  let padded := pad msg in
  let blocks := chunks (List.length padded) 64 padded in
  flat_map (be_bytes 4) (fold_left compress blocks initial_hash).

(** *** Bytes and text *)

Definition byte_of_ascii (c : ascii) : Z := Z.of_N (N_of_ascii c).
Definition ascii_of_byte (b : Z) : ascii := ascii_of_N (Z.to_N b).

(** [new TextEncoder().encode(s)] *)
Definition text_encode (s : string) : list Z :=
  map byte_of_ascii (list_ascii_of_string s).

(** *** [arrayBufferToBase64]: [btoa] over the bytes, standard alphabet,
    padded with [=]. *)

Definition base64_alphabet : string :=
  "ABCDEFGHIJKLMNOPQRSTUVWXYZabcdefghijklmnopqrstuvwxyz0123456789+/".

Definition base64_char (i : Z) : ascii :=
  match String.get (Z.to_nat i) base64_alphabet with
  | Some c => c
  | None => "="%char
  end.

Fixpoint base64_groups (fuel : nat) (bs : list Z) : list ascii :=
  match fuel with
  | O => []
  | S fuel' =>
      match bs with
      | [] => []
      | [b0] =>
          [ base64_char (Z.shiftr b0 2);
            base64_char (Z.land (Z.shiftl b0 4) 63);
            "="%char; "="%char ]
      | [b0; b1] =>
          [ base64_char (Z.shiftr b0 2);
            base64_char (Z.lor (Z.land (Z.shiftl b0 4) 63) (Z.shiftr b1 4));
            base64_char (Z.land (Z.shiftl b1 2) 63);
            "="%char ]
      | b0 :: b1 :: b2 :: rest =>
          [ base64_char (Z.shiftr b0 2);
            base64_char (Z.lor (Z.land (Z.shiftl b0 4) 63) (Z.shiftr b1 4));
            base64_char (Z.lor (Z.land (Z.shiftl b1 2) 63) (Z.shiftr b2 6));
            base64_char (Z.land b2 63) ]
          ++ base64_groups fuel' rest
      end
  end.

Definition arrayBufferToBase64 (buffer : list Z) : string :=
  string_of_list_ascii (base64_groups (List.length buffer) buffer).

(** [sha256(data)]: the digest of the UTF-8 bytes, rendered in base64. *)
Definition sha256 (data : string) : string :=
  arrayBufferToBase64 (digest (text_encode data)).

(** Lowercase hexadecimal rendering of a byte string (what a hex digest
    would be; [sha256] above does not use it). *)
Definition hex_digit (i : Z) : ascii :=
  match String.get (Z.to_nat i) "0123456789abcdef" with
  | Some c => c
  | None => "0"%char
  end.

Definition hex_of_bytes (bs : list Z) : string :=
  string_of_list_ascii
    (flat_map (fun b => [hex_digit (Z.shiftr b 4); hex_digit (Z.land b 15)]) bs).

End Crypto.

(** ** types.ts *)

Record NFTCredential := {
  cred_contract : string;
  cred_assetId : string;
  cred_schema : string;
  cred_verified : bool;
  cred_verifiedAt : option Z;
}.

Record AgentProfile := {
  prof_name : option string;
  prof_capabilities : list string;
  prof_reputation : Z;
  prof_nftCredentials : option (list NFTCredential);
  prof_metadata : option (list (string * string));
}.

Record MoltbookAgent := {
  did : string;
  publicKey : string;
  createdAt : Z;
  profile : AgentProfile;
}.

(** [Partial<AgentProfile>]: every key may be absent. *)
Record ProfileUpdates := {
  upd_name : option string;
  upd_capabilities : option (list string);
  upd_reputation : option Z;
  upd_nftCredentials : option (list NFTCredential);
  upd_metadata : option (list (string * string));
}.

(** [Omit<AgentProfile, 'reputation'>] *)
Record RegistrationProfile := {
  reg_name : option string;
  reg_capabilities : list string;
  reg_nftCredentials : option (list NFTCredential);
  reg_metadata : option (list (string * string));
}.

Record AgentRegistrationRequest := {
  req_publicKey : string;
  req_profile : RegistrationProfile;
  req_signature : string;
}.

(** Truthiness of an optional string and of an optional number. *)
Definition truthy_str (o : option string) : bool :=
  match o with
  | Some s => negb (String.eqb s "")
  | None => false
  end.

Definition truthy_num (o : option Z) : bool :=
  match o with
  | Some n => negb (Z.eqb n 0)
  | None => false
  end.

(** ** did.ts *)

Definition DID_METHOD : string := "moltbook".
Definition DID_PREFIX : string := "did:" ++ DID_METHOD ++ ":".

(** [s.slice(0, n)] *)
Definition slice0 (n : nat) (s : string) : string := String.substring 0 n s.

Definition generateDID (publicKey : string) : string :=
  let hash := Crypto.sha256 publicKey in
  let identifier := slice0 32 hash in
  DID_PREFIX ++ identifier.

(** [s.split(sep)] for a one-character separator. *)
Fixpoint split (sep : ascii) (s : string) : list string :=
  match s with
  | EmptyString => [EmptyString]
  | String c rest =>
      if Ascii.eqb c sep then EmptyString :: split sep rest
      else match split sep rest with
           | part :: parts => String c part :: parts
           | [] => [String c EmptyString]
           end
  end.

Record ParsedDID := { method : string; identifier : string }.

Definition parseDID (d : string) : option ParsedDID :=
  if negb (String.prefix "did:" d) then None
  else match split ":"%char d with
       | [_; m; i] => Some {| method := m; identifier := i |}
       | _ => None
       end.

(** The character class [[a-f0-9]]. *)
Definition is_lower_hex (c : ascii) : bool :=
  let n := nat_of_ascii c in
  ((48 <=? n)%nat && (n <=? 57)%nat) || ((97 <=? n)%nat && (n <=? 102)%nat).

(** [/^[a-f0-9]{32}$/.test(s)] *)
Definition is_hex32 (s : string) : bool :=
  Nat.eqb (String.length s) 32 && forallb is_lower_hex (list_ascii_of_string s).

Definition isValidDID (d : string) : bool :=
  match parseDID d with
  | None => false
  | Some parsed =>
      if negb (String.eqb (method parsed) DID_METHOD) then false
      else if negb (is_hex32 (identifier parsed)) then false
      else true
  end.

(** The DID the specification describes: the prefix followed by the first
    32 characters of the lowercase hexadecimal SHA-256 digest. *)
Definition generateDID_spec (publicKey : string) : string :=
  DID_PREFIX
  ++ slice0 32 (Crypto.hex_of_bytes (Crypto.digest (Crypto.text_encode publicKey))).

(** [createAgent]; [verify] stands for the HMAC check of the signature over
    [JSON.stringify({publicKey, profile})], [now] for [Date.now()]. *)
Definition createAgent (verify : AgentRegistrationRequest -> bool) (now : Z)
    (request : AgentRegistrationRequest) : result MoltbookAgent :=
  if String.eqb (req_publicKey request) "" then Err "Public key is required"
  else if String.eqb (req_signature request) "" then Err "Signature is required"
  else if negb (verify request) then Err "Invalid signature"
  else
    Ok {| did := generateDID (req_publicKey request);
          publicKey := req_publicKey request;
          createdAt := now;
          profile :=
            {| prof_name := reg_name (req_profile request);
               prof_capabilities := reg_capabilities (req_profile request);
               prof_reputation := 50;
               prof_nftCredentials := reg_nftCredentials (req_profile request);
               prof_metadata := reg_metadata (req_profile request) |} |}.

(** Object spread [{...base, ...updates}] on one optional key. *)
Definition spread {A} (base : A) (update : option A) : A :=
  match update with Some v => v | None => base end.

Definition spread_opt {A} (base : option A) (update : option A) : option A :=
  match update with Some v => Some v | None => base end.

Definition updateAgentProfile (agent : MoltbookAgent) (updates : ProfileUpdates)
    : MoltbookAgent :=
  {| did := did agent;
     publicKey := publicKey agent;
     createdAt := createdAt agent;
     profile :=
       {| prof_name := spread_opt (prof_name (profile agent)) (upd_name updates);
          prof_capabilities :=
            spread (prof_capabilities (profile agent)) (upd_capabilities updates);
          (* Never allow direct reputation updates through this function *)
          prof_reputation := prof_reputation (profile agent);
          prof_nftCredentials :=
            spread_opt (prof_nftCredentials (profile agent))
                       (upd_nftCredentials updates);
          prof_metadata :=
            spread_opt (prof_metadata (profile agent)) (upd_metadata updates) |} |}.

Definition with_profile (agent : MoltbookAgent) (p : AgentProfile) : MoltbookAgent :=
  {| did := did agent; publicKey := publicKey agent;
     createdAt := createdAt agent; profile := p |}.

Definition with_reputation (p : AgentProfile) (r : Z) : AgentProfile :=
  {| prof_name := prof_name p; prof_capabilities := prof_capabilities p;
     prof_reputation := r; prof_nftCredentials := prof_nftCredentials p;
     prof_metadata := prof_metadata p |}.

Definition with_nftCredentials (p : AgentProfile) (cs : list NFTCredential)
    : AgentProfile :=
  {| prof_name := prof_name p; prof_capabilities := prof_capabilities p;
     prof_reputation := prof_reputation p; prof_nftCredentials := Some cs;
     prof_metadata := prof_metadata p |}.

Definition adjustReputation (agent : MoltbookAgent) (delta : Z) : MoltbookAgent :=
  let newReputation :=
    Z.max 0 (Z.min 100 (prof_reputation (profile agent) + delta)) in
  with_profile agent (with_reputation (profile agent) newReputation).

(** [agent.profile.nftCredentials || []] *)
Definition credentials_of (agent : MoltbookAgent) : list NFTCredential :=
  match prof_nftCredentials (profile agent) with
  | Some cs => cs
  | None => []
  end.

Definition addNFTCredential (agent : MoltbookAgent)
    (contract assetId schema : string) : MoltbookAgent :=
  let nftCredentials := credentials_of agent in
  let exists_ :=
    existsb (fun c => String.eqb (cred_contract c) contract
                      && String.eqb (cred_assetId c) assetId) nftCredentials in
  if exists_ then agent
  else
    with_profile agent
      (with_nftCredentials (profile agent)
         (nftCredentials ++
          [ {| cred_contract := contract; cred_assetId := assetId;
               cred_schema := schema; cred_verified := false;
               cred_verifiedAt := None |} ])).

Definition verifyNFTCredential (now : Z) (agent : MoltbookAgent)
    (contract assetId : string) : MoltbookAgent :=
  let nftCredentials := credentials_of agent in
  with_profile agent
    (with_nftCredentials (profile agent)
       (map (fun c =>
               if String.eqb (cred_contract c) contract
                  && String.eqb (cred_assetId c) assetId
               then {| cred_contract := cred_contract c;
                       cred_assetId := cred_assetId c;
                       cred_schema := cred_schema c;
                       cred_verified := true;
                       cred_verifiedAt := Some now |}
               else c)
            nftCredentials)).

(** The predicate of [hasVerifiedNFT]'s [some]. *)
Definition credential_matches (contract : string) (schema : option string)
    (c : NFTCredential) : bool :=
  if negb (cred_verified c) then false
  else if negb (String.eqb (cred_contract c) contract) then false
  else if truthy_str schema
          && negb (String.eqb (cred_schema c) (default "" schema)) then false
  else true.

Definition hasVerifiedNFT (agent : MoltbookAgent) (contract : string)
    (schema : option string) : bool :=
  existsb (credential_matches contract schema) (credentials_of agent).

(** ** types.ts, continued: channels, invitations, messages *)

Inductive AccessType :=
| open
| invite_only
| nft_gated
| unknown_type (tag : string).

Record NFTGate := {
  gate_contract : string;
  gate_schema : option string;
  gate_minAmount : option Z;
}.

Record AccessControl := {
  ac_type : AccessType;
  ac_nftGate : option NFTGate;
  ac_allowedDIDs : option (list string);
}.

Record ChannelMetadata := {
  meta_name : option string;
  meta_description : option string;
  meta_maxParticipants : option Z;
  meta_ttl : option Z;
}.

(** [type] and [algorithm] are fixed tags; only the rotation interval varies. *)
Record EncryptionConfig := {
  enc_keyRotationInterval : option Z;
}.

Record PrivateChannel := {
  ch_id : string;
  ch_participants : list string;
  ch_createdAt : Z;
  ch_createdBy : string;
  ch_encryption : EncryptionConfig;
  ch_accessControl : option AccessControl;
  ch_metadata : option ChannelMetadata;
}.

Inductive InvitationStatus := pending | accepted | rejected | expired.

Record ChannelInvitation := {
  inv_id : string;
  inv_channelId : string;
  inv_inviter : string;
  inv_invitee : string;
  inv_createdAt : Z;
  inv_expiresAt : Z;
  inv_encryptedChannelKey : string;
  inv_status : InvitationStatus;
}.

Record EncryptedMessage := {
  msg_id : string;
  msg_channelId : string;
  msg_sender : string;
  msg_timestamp : Z;
  msg_nonce : string;
  msg_ciphertext : string;
  msg_ephemeralPubKey : option string;
}.

(** The body of a send request as it arrives: any field may be missing. *)
Record SendMessageRequest := {
  sreq_channelId : option string;
  sreq_nonce : option string;
  sreq_ciphertext : option string;
  sreq_ephemeralPubKey : option string;
}.

Record CreateChannelRequest := {
  creq_participants : option (list string);
  creq_encryption : option EncryptionConfig;
  creq_accessControl : option AccessControl;
  creq_metadata : option ChannelMetadata;
}.

Record CreateChannelResponse := {
  resp_channel : PrivateChannel;
  resp_invitations : list ChannelInvitation;
}.

Definition status_eqb (a b : InvitationStatus) : bool :=
  match a, b with
  | pending, pending | accepted, accepted
  | rejected, rejected | expired, expired => true
  | _, _ => false
  end.

Definition status_name (s : InvitationStatus) : string :=
  match s with
  | pending => "pending"
  | accepted => "accepted"
  | rejected => "rejected"
  | expired => "expired"
  end.

(** [list.includes(x)] on strings. *)
Definition includes (l : list string) (x : string) : bool :=
  existsb (String.eqb x) l.

(** ** channels.ts: the functions without effects.  [now] is the value
    [Date.now()] returns at the call. *)

Definition with_status (i : ChannelInvitation) (s : InvitationStatus)
    : ChannelInvitation :=
  {| inv_id := inv_id i; inv_channelId := inv_channelId i;
     inv_inviter := inv_inviter i; inv_invitee := inv_invitee i;
     inv_createdAt := inv_createdAt i; inv_expiresAt := inv_expiresAt i;
     inv_encryptedChannelKey := inv_encryptedChannelKey i;
     inv_status := s |}.

Definition acceptInvitation (now : Z) (invitation : ChannelInvitation)
    : result ChannelInvitation :=
  if negb (status_eqb (inv_status invitation) pending) then
    Err ("Cannot accept invitation with status: "
         ++ status_name (inv_status invitation))
  else if (inv_expiresAt invitation <? now)%Z then
    Ok (with_status invitation expired)
  else
    Ok (with_status invitation accepted).

Definition rejectInvitation (invitation : ChannelInvitation)
    : result ChannelInvitation :=
  if negb (status_eqb (inv_status invitation) pending) then
    Err ("Cannot reject invitation with status: "
         ++ status_name (inv_status invitation))
  else
    Ok (with_status invitation rejected).

Record AccessDecision := {
  allowed : bool;
  reason : option string;
}.

Definition allow : AccessDecision := {| allowed := true; reason := None |}.
Definition deny (why : string) : AccessDecision :=
  {| allowed := false; reason := Some why |}.

(** A number inside a template literal. *)
Definition string_of_Z (z : Z) : string := pretty z.

(** The filter predicate of the minimum-amount count. *)
Definition counts_for_gate (gate : NFTGate) (c : NFTCredential) : bool :=
  cred_verified c
  && String.eqb (cred_contract c) (gate_contract gate)
  && (negb (truthy_str (gate_schema gate))
      || String.eqb (cred_schema c) (default "" (gate_schema gate))).

Definition canAccessChannel (channel : PrivateChannel) (agent : MoltbookAgent)
    : AccessDecision :=
  if includes (ch_participants channel) (did agent) then allow
  else
    match ch_accessControl channel with
    | None => deny "Not a participant"
    | Some accessControl =>
        match ac_type accessControl with
        | open => allow
        | invite_only =>
            if match ac_allowedDIDs accessControl with
               | Some dids => includes dids (did agent)
               | None => false
               end
            then allow
            else deny "Invite required"
        | nft_gated =>
            match ac_nftGate accessControl with
            | None => deny "NFT gate not configured"
            | Some nftGate =>
                let hasNFT :=
                  hasVerifiedNFT agent (gate_contract nftGate)
                                 (gate_schema nftGate) in
                if negb hasNFT then deny "Required NFT not found"
                else if truthy_num (gate_minAmount nftGate) then
                  let nftCount :=
                    Z.of_nat (List.length
                      (List.filter (counts_for_gate nftGate)
                                   (credentials_of agent))) in
                  if (nftCount <? default 0%Z (gate_minAmount nftGate))%Z then
                    deny ("Requires at least "
                          ++ string_of_Z (default 0%Z (gate_minAmount nftGate))
                          ++ " NFTs")
                  else allow
                else allow
            end
        | unknown_type _ => deny "Unknown access control type"
        end
    end.

Definition with_participants (c : PrivateChannel) (ps : list string)
    : PrivateChannel :=
  {| ch_id := ch_id c; ch_participants := ps; ch_createdAt := ch_createdAt c;
     ch_createdBy := ch_createdBy c; ch_encryption := ch_encryption c;
     ch_accessControl := ch_accessControl c; ch_metadata := ch_metadata c |}.

(** [channel.metadata?.maxParticipants] *)
Definition maxParticipants (channel : PrivateChannel) : option Z :=
  match ch_metadata channel with
  | Some m => meta_maxParticipants m
  | None => None
  end.

(** [channel.metadata?.ttl] *)
Definition ttl (channel : PrivateChannel) : option Z :=
  match ch_metadata channel with
  | Some m => meta_ttl m
  | None => None
  end.

Definition max_participants_error : string :=
  "Channel has reached maximum participants".

Definition addParticipant (channel : PrivateChannel) (participantDID : string)
    : result PrivateChannel :=
  if includes (ch_participants channel) participantDID then Ok channel
  else if truthy_num (maxParticipants channel)
          && (default 0%Z (maxParticipants channel)
              <=? Z.of_nat (List.length (ch_participants channel)))%Z
  then Err max_participants_error
  else Ok (with_participants channel
             (ch_participants channel ++ [participantDID])).

Definition removeParticipant (channel : PrivateChannel)
    (participantDID removerDID : string) : result PrivateChannel :=
  if negb (String.eqb (ch_createdBy channel) removerDID)
     && negb (String.eqb participantDID removerDID)
  then Err "Not authorized to remove participant"
  else if String.eqb participantDID (ch_createdBy channel)
  then Err "Cannot remove channel creator"
  else Ok (with_participants channel
             (List.filter (fun p => negb (String.eqb p participantDID))
                          (ch_participants channel))).

Record Validation := {
  valid : bool;
  error : option string;
}.

Definition validateMessage (message : SendMessageRequest)
    (channel : PrivateChannel) (senderDID : string) : Validation :=
  if negb (includes (ch_participants channel) senderDID) then
    {| valid := false; error := Some "Not a channel participant" |}
  else if negb (truthy_str (sreq_channelId message))
          || negb (truthy_str (sreq_nonce message))
          || negb (truthy_str (sreq_ciphertext message)) then
    {| valid := false; error := Some "Missing required fields" |}
  else if negb (String.eqb (default "" (sreq_channelId message)) (ch_id channel)) then
    {| valid := false; error := Some "Channel ID mismatch" |}
  else
    {| valid := true; error := None |}.

Definition isMessageExpired (now : Z) (message : EncryptedMessage)
    (channel : PrivateChannel) : bool :=
  if negb (truthy_num (ttl channel)) then false
  else
    let expiresAt := (msg_timestamp message + default 0 (ttl channel) * 1000)%Z in
    (expiresAt <? now)%Z.

Record ChannelStats := {
  participantCount : Z;
  messageCount : Z;
  lastActivity : option Z;
  isNFTGated : bool;
}.

(** [Math.max(...xs)] on a non-empty list; [null] on the empty one as
    [getChannelStats] guards it. *)
Definition max_timestamp (xs : list Z) : option Z :=
  match xs with
  | [] => None
  | x :: rest => Some (fold_left Z.max rest x)
  end.

Definition getChannelStats (now : Z) (channel : PrivateChannel)
    (messages : list EncryptedMessage) : ChannelStats :=
  let validMessages :=
    List.filter (fun m => negb (isMessageExpired now m channel)) messages in
  {| participantCount := Z.of_nat (List.length (ch_participants channel));
     messageCount := Z.of_nat (List.length validMessages);
     lastActivity := max_timestamp (map msg_timestamp validMessages);
     isNFTGated :=
       match ch_accessControl channel with
       | Some ac => match ac_type ac with nft_gated => true | _ => false end
       | None => false
       end |}.

(** ** The environment: clock, randomness, Web Crypto, the R2 bucket

    What the bucket stores is JSON text; the model keeps the value that
    [JSON.parse] gives back.  A key holds the shape its writer stored: a
    value of another shape under a key is read as absent. *)

Inductive Object :=
| ObjAgent (a : MoltbookAgent)
| ObjChannel (c : PrivateChannel)
| ObjMessage (m : EncryptedMessage)
| ObjInvitation (i : ChannelInvitation)
| ObjIds (ids : list string).

(** The parts of the platform the code calls and does not define.
    [time_at n] is what [Date.now()] returns after [n] suspension points
    (successive calls with no [await] in between read the same value);
    [random_bytes n len] is the [n]-th draw of [len] random bytes;
    [subtle_derive priv pub] is the X25519 import-and-derive on the decoded
    keys, which rejects malformed keys; [subtle_encrypt] is AES-GCM. *)
Record Env := {
  time_at : nat -> Z;
  random_bytes : nat -> nat -> list Z;
  subtle_derive : string -> string -> result (list Z);
  subtle_encrypt : list Z -> list Z -> list Z -> list Z;
}.

Record World := {
  bucket : gmap string Object;
  tick : nat;
  draw : nat;
}.

(** Computations that read and write the world and may throw.  The world
    is kept when a computation throws: writes made before the exception
    stay. *)
Definition M (A : Type) : Type := World -> result A * World.

Definition ret {A} (a : A) : M A := fun w => (Ok a, w).
Definition throw {A} (msg : string) : M A := fun w => (Err msg, w).
Definition bind {A B} (m : M A) (k : A -> M B) : M B :=
  fun w =>
    match m w with
    | (Ok a, w') => k a w'
    | (Err e, w') => (Err e, w')
    end.

Notation "'let!' x ':=' m 'in' k" := (bind m (fun x => k))
  (at level 10, x name, m at level 100, k at level 200).
Notation "'run!' m 'in' k" := (bind m (fun _ => k))
  (at level 10, m at level 100, k at level 200).

(** One [await] on the platform. *)
Definition suspend : M unit :=
  fun w => (Ok tt, {| bucket := bucket w; tick := S (tick w); draw := draw w |}).

Definition lift {A} (r : result A) : M A :=
  match r with Ok a => ret a | Err e => throw e end.

Section Platform.

Variable env : Env.

Definition Date_now : M Z := fun w => (Ok (time_at env (tick w)), w).

Definition getRandomValues (len : nat) : M (list Z) :=
  fun w => (Ok (random_bytes env (draw w) len),
            {| bucket := bucket w; tick := tick w; draw := S (draw w) |}).

(** *** crypto.ts, the functions with effects *)

(** [generateId(prefix)]: 16 random bytes in lowercase hex. *)
Definition generateId (prefix : string) : M string :=
  let! bytes := getRandomValues 16 in
  let id := Crypto.hex_of_bytes (map (fun b => b mod 256)%Z bytes) in
  ret (if String.eqb prefix "" then id else prefix +:+ "-" +:+ id).

Definition generateNonce : M (list Z) := getRandomValues 12.

Definition generateChannelKey : M (list Z) :=
  let! key := getRandomValues 32 in
  run! suspend in
  ret key.

End Platform.

(** [atob] accepts its argument (the forgiving base64 decode): whitespace
    is dropped, up to two [=] are dropped from a length that is a multiple
    of four, the rest has a length not 1 modulo 4 and only alphabet
    characters. *)
Definition is_ascii_space (c : ascii) : bool :=
  let n := nat_of_ascii c in
  Nat.eqb n 9 || Nat.eqb n 10 || Nat.eqb n 12 || Nat.eqb n 13 || Nat.eqb n 32.

Definition is_base64_char (c : ascii) : bool :=
  existsb (Ascii.eqb c) (list_ascii_of_string Crypto.base64_alphabet).

Definition strip_padding (cs : list ascii) : list ascii :=
  if Nat.eqb (List.length cs mod 4) 0 then
    match rev cs with
    | "="%char :: "="%char :: r => rev r
    | "="%char :: r => rev r
    | _ => cs
    end
  else cs.

Definition atob_ok (s : string) : bool :=
  let cs := List.filter (fun c => negb (is_ascii_space c)) (list_ascii_of_string s) in
  let cs := strip_padding cs in
  negb (Nat.eqb (List.length cs mod 4) 1) && forallb is_base64_char cs.

Definition dquote : string := String (ascii_of_nat 34) EmptyString.

(** [JSON.stringify({ encryptedKey, nonce })] on two base64 strings. *)
Definition stringify_wrapped (encryptedKey nonce : string) : string :=
  "{" ++ dquote ++ "encryptedKey" ++ dquote ++ ":" ++ dquote ++ encryptedKey
  ++ dquote ++ "," ++ dquote ++ "nonce" ++ dquote ++ ":" ++ dquote ++ nonce
  ++ dquote ++ "}".

Section PlatformCrypto.

Variable env : Env.

(** [deriveSharedSecret]: both keys go through [base64ToArrayBuffer]
    first, the private one before the public one. *)
Definition deriveSharedSecret (myPrivateKey theirPublicKey : string)
    : M (list Z) :=
  if negb (atob_ok myPrivateKey) then throw "InvalidCharacterError"
  else if negb (atob_ok theirPublicKey) then throw "InvalidCharacterError"
  else
    run! suspend in
    lift (subtle_derive env myPrivateKey theirPublicKey).

Definition encryptChannelKeyForRecipient (channelKey : list Z)
    (recipientPublicKey senderPrivateKey : string) : M (string * string) :=
  let! sharedSecret := deriveSharedSecret senderPrivateKey recipientPublicKey in
  let! nonce := generateNonce env in
  run! suspend in
  let encryptedBuffer := subtle_encrypt env sharedSecret nonce channelKey in
  ret (Crypto.arrayBufferToBase64 encryptedBuffer,
       Crypto.arrayBufferToBase64 nonce).

End PlatformCrypto.

(** ** storage.ts *)

(** [encodeURIComponent] on the UTF-8 bytes: unreserved characters stay,
    every other byte becomes [%XX] in uppercase hex. *)
Definition is_unreserved (c : ascii) : bool :=
  let n := nat_of_ascii c in
  ((48 <=? n)%nat && (n <=? 57)%nat) || ((65 <=? n)%nat && (n <=? 90)%nat)
  || ((97 <=? n)%nat && (n <=? 122)%nat)
  || existsb (Ascii.eqb c) (list_ascii_of_string "-_.!~*'()").

Definition upper_hex_digit (i : nat) : ascii :=
  match String.get i "0123456789ABCDEF" with
  | Some c => c
  | None => "0"%char
  end.

Fixpoint encodeURIComponent (s : string) : string :=
  match s with
  | EmptyString => EmptyString
  | String c rest =>
      if is_unreserved c then String c (encodeURIComponent rest)
      else
        let n := nat_of_ascii c in
        String "%"%char
          (String (upper_hex_digit (n / 16))
             (String (upper_hex_digit (n mod 16)) (encodeURIComponent rest)))
  end.

Module KEYS.
Definition agent (d : string) : string :=
  "privacy/agents/" +:+ encodeURIComponent d +:+ ".json".
Definition channel (id : string) : string :=
  "privacy/channels/" +:+ id +:+ "/metadata.json".
Definition channelMessages (channelId messageId : string) : string :=
  "privacy/channels/" +:+ channelId +:+ "/messages/" +:+ messageId +:+ ".json".
Definition channelMessagesList (channelId : string) : string :=
  "privacy/channels/" +:+ channelId +:+ "/messages/".
Definition invitation (id : string) : string :=
  "privacy/invitations/" +:+ id +:+ ".json".
Definition agentChannels (d : string) : string :=
  "privacy/agents/" +:+ encodeURIComponent d +:+ "/channels.json".
Definition agentInvitations (d : string) : string :=
  "privacy/agents/" +:+ encodeURIComponent d +:+ "/invitations.json".
End KEYS.

(** The bucket operations the storage class uses. *)
Definition bucket_get (key : string) : M (option Object) :=
  run! suspend in
  fun w => (Ok (bucket w !! key), w).

Definition bucket_put (key : string) (o : Object) : M unit :=
  run! suspend in
  fun w => (Ok tt, {| bucket := <[key := o]> (bucket w);
                      tick := tick w; draw := draw w |}).

(** [bucket.list({ prefix })]: the keys that start with [prefix].  The
    order of the keys and the page size of the store are not modelled. *)
Definition bucket_list (prefix : string) : M (list string) :=
  run! suspend in
  fun w => (Ok (List.filter (String.prefix prefix)
                            (map fst (map_to_list (bucket w)))), w).

(** Pagination options of [getChannelMessages]. *)
Record ListOptions := {
  opt_limit : option Z;
  opt_before : option Z;
  opt_after : option Z;
}.

(** [options?.f] *)
Definition option_field (f : ListOptions -> option Z)
    (options : option ListOptions) : option Z :=
  match options with
  | Some o => f o
  | None => None
  end.

(** [messages.sort((a, b) => b.timestamp - a.timestamp)]: a stable sort,
    newest first. *)
Fixpoint insert_desc (m : EncryptedMessage) (l : list EncryptedMessage)
    : list EncryptedMessage :=
  match l with
  | [] => [m]
  | y :: rest =>
      if (msg_timestamp m <? msg_timestamp y)%Z then y :: insert_desc m rest
      else m :: l
  end.

Definition sort_desc (l : list EncryptedMessage) : list EncryptedMessage :=
  fold_right insert_desc [] l.

(** [l.slice(0, n)]; a negative [n] counts from the end. *)
Definition slice_to {A} (n : Z) (l : list A) : list A :=
  if (n <? 0)%Z then firstn (Z.to_nat (Z.of_nat (List.length l) + n)) l
  else firstn (Z.to_nat n) l.

(** The filters of the listing loop: [true] when the message is skipped. *)
Definition skipped (options : option ListOptions) (message : EncryptedMessage)
    : bool :=
  (truthy_num (option_field opt_before options)
   && (default 0 (option_field opt_before options) <=? msg_timestamp message)%Z)
  || (truthy_num (option_field opt_after options)
      && (msg_timestamp message <=? default 0 (option_field opt_after options))%Z).

Module Storage.

Definition getAgent (d : string) : M (option MoltbookAgent) :=
  let! object := bucket_get (KEYS.agent d) in
  match object with
  | Some (ObjAgent a) => run! suspend in ret (Some a)
  | _ => ret None
  end.

Definition saveAgent (agent : MoltbookAgent) : M unit :=
  bucket_put (KEYS.agent (did agent)) (ObjAgent agent).

Definition getChannel (id : string) : M (option PrivateChannel) :=
  let! object := bucket_get (KEYS.channel id) in
  match object with
  | Some (ObjChannel c) => run! suspend in ret (Some c)
  | _ => ret None
  end.

Definition saveMessage (message : EncryptedMessage) : M unit :=
  bucket_put (KEYS.channelMessages (msg_channelId message) (msg_id message))
             (ObjMessage message).

(** The loop over the listed objects. *)
Fixpoint collect (options : option ListOptions) (keys : list string)
    : M (list EncryptedMessage) :=
  match keys with
  | [] => ret []
  | key :: rest =>
      let! object := bucket_get key in
      match object with
      | Some (ObjMessage message) =>
          run! suspend in
          if skipped options message then collect options rest
          else
            let! messages := collect options rest in
            ret (message :: messages)
      | _ => collect options rest
      end
  end.

Definition getChannelMessages (channelId : string)
    (options : option ListOptions) : M (list EncryptedMessage) :=
  let prefix := KEYS.channelMessagesList channelId in
  let! listed := bucket_list prefix in
  let! messages := collect options listed in
  let messages := sort_desc messages in
  if truthy_num (option_field opt_limit options) then
    ret (slice_to (default 0%Z (option_field opt_limit options)) messages)
  else ret messages.

End Storage.

(** ** channels.ts: the functions with effects *)

Definition SEVEN_DAYS : Z := 7 * 24 * 60 * 60 * 1000.

Section Channels.

Variable env : Env.
Variable getAgent : string -> M (option MoltbookAgent).

(** "Verify all participants exist" *)
Fixpoint verify_participants (dids : list string) : M unit :=
  match dids with
  | [] => ret tt
  | d :: rest =>
      let! agent := getAgent d in
      match agent with
      | None => throw ("Agent not found: " +:+ d)
      | Some _ => verify_participants rest
      end
  end.

(** "Create invitations for all participants (except creator)" *)
Fixpoint create_invitations (channelId creatorDID creatorPrivateKey : string)
    (channelKey : list Z) (dids : list string) : M (list ChannelInvitation) :=
  match dids with
  | [] => ret []
  | d :: rest =>
      if String.eqb d creatorDID then
        create_invitations channelId creatorDID creatorPrivateKey channelKey rest
      else
        let! agent := getAgent d in
        match agent with
        | None =>
            create_invitations channelId creatorDID creatorPrivateKey
                               channelKey rest
        | Some agent =>
            let! wrapped :=
              encryptChannelKeyForRecipient env channelKey (publicKey agent)
                                            creatorPrivateKey in
            let! id := generateId env "inv" in
            let! now := Date_now env in
            let invitation :=
              {| inv_id := id;
                 inv_channelId := channelId;
                 inv_inviter := creatorDID;
                 inv_invitee := d;
                 inv_createdAt := now;
                 inv_expiresAt := (now + SEVEN_DAYS)%Z;
                 inv_encryptedChannelKey :=
                   stringify_wrapped (fst wrapped) (snd wrapped);
                 inv_status := pending |} in
            let! invitations :=
              create_invitations channelId creatorDID creatorPrivateKey
                                 channelKey rest in
            ret (invitation :: invitations)
        end
  end.

(** "Ensure creator is in participants" *)
Definition all_participants (participants : list string) (creatorDID : string)
    : list string :=
  if includes participants creatorDID then participants
  else creatorDID :: participants.

Definition createChannel (request : CreateChannelRequest)
    (creatorDID creatorPrivateKey : string) : M CreateChannelResponse :=
  match creq_participants request with
  | None | Some [] => throw "At least one participant is required"
  | Some participants =>
      let allParticipants := all_participants participants creatorDID in
      run! verify_participants allParticipants in
      let! channelKey := generateChannelKey env in
      run! suspend in
      let! id := generateId env "ch" in
      let! now := Date_now env in
      let channel :=
        {| ch_id := id;
           ch_participants := allParticipants;
           ch_createdAt := now;
           ch_createdBy := creatorDID;
           ch_encryption :=
             {| enc_keyRotationInterval :=
                  match creq_encryption request with
                  | Some e => enc_keyRotationInterval e
                  | None => None
                  end |};
           ch_accessControl :=
             Some (default {| ac_type := invite_only; ac_nftGate := None;
                              ac_allowedDIDs := None |}
                           (creq_accessControl request));
           ch_metadata := creq_metadata request |} in
      let! invitations :=
        create_invitations (ch_id channel) creatorDID creatorPrivateKey
                           channelKey allParticipants in
      ret {| resp_channel := channel; resp_invitations := invitations |}
  end.

(** [createEncryptedMessage]; the route calls it on validated requests
    only, whose fields are present. *)
Definition createEncryptedMessage (request : SendMessageRequest)
    (senderDID : string) : M EncryptedMessage :=
  let! id := generateId env "msg" in
  let! now := Date_now env in
  ret {| msg_id := id;
         msg_channelId := default "" (sreq_channelId request);
         msg_sender := senderDID;
         msg_timestamp := now;
         msg_nonce := default "" (sreq_nonce request);
         msg_ciphertext := default "" (sreq_ciphertext request);
         msg_ephemeralPubKey := sreq_ephemeralPubKey request |}.

End Channels.

(** ** The API routes for messages *)

Record Response (A : Type) := {
  status : Z;
  success : bool;
  data : option A;
  error_message : option string;
}.
Arguments status {A} _.
Arguments success {A} _.
Arguments data {A} _.
Arguments error_message {A} _.

Definition failure {A} (code : Z) (msg : string) : Response A :=
  {| status := code; success := false; data := None; error_message := Some msg |}.

(** [getAgentDID]: the [X-Agent-DID] header, when it is a valid DID. *)
Definition getAgentDID (header : option string) : option string :=
  match header with
  | Some d => if String.eqb d "" || negb (isValidDID d) then None else Some d
  | None => None
  end.

Definition requireAgent (header : option string) : M (option MoltbookAgent) :=
  match getAgentDID header with
  | None => ret None
  | Some d => Storage.getAgent d
  end.

(** A query parameter after [parseInt]. *)
Inductive parsed := NaN | Int (z : Z).

(** A number as [getChannelMessages] tests it: [NaN] is falsy like a
    missing value. *)
Definition number_option (p : parsed) : option Z :=
  match p with NaN => None | Int z => Some z end.

Section Routes.

Variable env : Env.

(** [POST /channels/:id/messages].  [body] is what [c.req.json()] gives:
    the parsed request or the exception it throws. *)
Definition postMessage (header : option string) (channelId : string)
    (body : result SendMessageRequest) : M (Response EncryptedMessage) :=
  let! agent := requireAgent header in
  match agent with
  | None => ret (failure 401 "Authentication required")
  | Some agent =>
      let! channel := Storage.getChannel channelId in
      match channel with
      | None => ret (failure 404 "Channel not found")
      | Some channel =>
          run! suspend in
          match body with
          | Err message => ret (failure 400 message)
          | Ok body =>
              let validation := validateMessage body channel (did agent) in
              if negb (valid validation) then
                ret {| status := 400; success := false; data := None;
                       error_message := error validation |}
              else
                let! message := createEncryptedMessage env body (did agent) in
                run! Storage.saveMessage message in
                ret {| status := 201; success := true; data := Some message;
                       error_message := None |}
          end
      end
  end.

(** [GET /channels/:id/messages].  The query parameters are given after
    [parseInt]; [None] is a missing (or empty) parameter. *)
Definition getMessages (header : option string) (channelId : string)
    (q_limit q_before q_after : option parsed)
    : M (Response (list EncryptedMessage)) :=
  let! agent := requireAgent header in
  match agent with
  | None => ret (failure 401 "Authentication required")
  | Some agent =>
      let! channel := Storage.getChannel channelId in
      match channel with
      | None => ret (failure 404 "Channel not found")
      | Some channel =>
          let access := canAccessChannel channel agent in
          if negb (allowed access) then
            ret (failure 403 (default "Access denied" (reason access)))
          else
            let limit := default (Int 50) q_limit in
            let capped :=
              match limit with
              | NaN => NaN
              | Int n => Int (Z.min n 100)
              end in
            let! messages :=
              Storage.getChannelMessages channelId
                (Some {| opt_limit := number_option capped;
                         opt_before := q_before ≫= number_option;
                         opt_after := q_after ≫= number_option |}) in
            ret {| status := 200; success := true; data := Some messages;
                   error_message := None |}
      end
  end.

End Routes.

(** ** crypto.ts: decoding base64 *)

(** The position of a character in the base64 alphabet. *)
Fixpoint index_in (c : ascii) (alphabet : list ascii) (i : Z) : Z :=
  match alphabet with
  | [] => 0
  | a :: rest => if Ascii.eqb c a then i else index_in c rest (i + 1)
  end.

Definition base64_index (c : ascii) : Z :=
  index_in c (list_ascii_of_string Crypto.base64_alphabet) 0.

(** The bytes of the groups of characters: four characters give three
    bytes, a last group of three gives two, a last group of two gives one
    (the left-over bits are dropped). *)
Fixpoint base64_decode (cs : list ascii) : list Z :=
  match cs with
  | c0 :: c1 :: c2 :: c3 :: rest =>
      let n := ((base64_index c0 * 64 + base64_index c1) * 64
                + base64_index c2) * 64 + base64_index c3 in
      [n / 65536; (n / 256) mod 256; n mod 256] ++ base64_decode rest
  | [c0; c1; c2] =>
      let n := (base64_index c0 * 64 + base64_index c1) * 64 + base64_index c2 in
      [n / 1024; (n / 4) mod 256]
  | [c0; c1] =>
      let n := base64_index c0 * 64 + base64_index c1 in
      [n / 16]
  | _ => []
  end.

(** [base64ToArrayBuffer]: [atob], which throws on text it does not accept,
    then the character codes of the binary string. *)
Definition base64ToArrayBuffer (base64 : string) : result (list Z) :=
  if negb (atob_ok base64) then Err "InvalidCharacterError"
  else
    Ok (base64_decode
          (strip_padding
             (List.filter (fun c => negb (is_ascii_space c))
                          (list_ascii_of_string base64)))).

(** ** did.ts, channels.ts: the remaining functions without effects *)

Record AgentRegistrationResponse := {
  reg_resp_did : string;
  reg_resp_agent : MoltbookAgent;
}.

Definition createRegistrationResponse (agent : MoltbookAgent)
    : AgentRegistrationResponse :=
  {| reg_resp_did := did agent; reg_resp_agent := agent |}.

Definition updateAccessControl (channel : PrivateChannel)
    (accessControl : AccessControl) (updaterDID : string)
    : result PrivateChannel :=
  if negb (String.eqb (ch_createdBy channel) updaterDID) then
    Err "Only channel creator can update access control"
  else
    Ok {| ch_id := ch_id channel;
          ch_participants := ch_participants channel;
          ch_createdAt := ch_createdAt channel;
          ch_createdBy := ch_createdBy channel;
          ch_encryption := ch_encryption channel;
          ch_accessControl := Some accessControl;
          ch_metadata := ch_metadata channel |}.

(** ** storage.ts: the remaining methods of [PrivacyStorage] *)

Definition bucket_delete (key : string) : M unit :=
  run! suspend in
  fun w => (Ok tt, {| bucket := delete key (bucket w);
                      tick := tick w; draw := draw w |}).

Definition bucket_head (key : string) : M bool :=
  run! suspend in
  fun w => (Ok (match bucket w !! key with Some _ => true | None => false end),
            w).

(** [s.includes(sub)] on strings. *)
Fixpoint contains (sub s : string) : bool :=
  String.prefix sub s
  || match s with
     | EmptyString => false
     | String _ rest => contains sub rest
     end.

Record SearchQuery := {
  q_capabilities : option (list string);
  q_minReputation : option Z;
  q_hasNFT : option (string * option string);
}.

(** The filters of [searchAgents]: [true] when the agent is kept. *)
Definition search_keeps (query : SearchQuery) (agent : MoltbookAgent) : bool :=
  match q_capabilities query with
  | Some caps =>
      forallb (fun cap => includes (prof_capabilities (profile agent)) cap) caps
  | None => true
  end
  && match q_minReputation query with
     | Some minimum => negb (prof_reputation (profile agent) <? minimum)
     | None => true
     end
  && match q_hasNFT query with
     | Some (contract, schema) =>
         existsb (fun c =>
                    cred_verified c
                    && String.eqb (cred_contract c) contract
                    && (negb (truthy_str schema)
                        || String.eqb (cred_schema c) (default "" schema)))
                 (credentials_of agent)
     | None => true
     end.

Module PrivacyStorage.

Definition deleteAgent (d : string) : M unit :=
  bucket_delete (KEYS.agent d).

Definition agentExists (d : string) : M bool :=
  bucket_head (KEYS.agent d).

(** Reading an index blob: the list of ids, when the key holds one. *)
Definition read_ids (key : string) : M (option (list string)) :=
  let! object := bucket_get key in
  match object with
  | Some (ObjIds ids) => run! suspend in ret (Some ids)
  | _ => ret None
  end.

Definition addChannelToAgent (d channelId : string) : M unit :=
  let key := KEYS.agentChannels d in
  let! object := read_ids key in
  let channelIds := default [] object in
  if negb (includes channelIds channelId) then
    bucket_put key (ObjIds (channelIds ++ [channelId]))
  else ret tt.

Definition removeChannelFromAgent (d channelId : string) : M unit :=
  let key := KEYS.agentChannels d in
  let! object := read_ids key in
  match object with
  | None => ret tt
  | Some channelIds =>
      bucket_put key
        (ObjIds (List.filter (fun id => negb (String.eqb id channelId))
                             channelIds))
  end.

Definition getAgentChannels (d : string) : M (list string) :=
  let! object := read_ids (KEYS.agentChannels d) in
  ret (default [] object).

Fixpoint for_each {A} (f : A -> M unit) (l : list A) : M unit :=
  match l with
  | [] => ret tt
  | x :: rest => run! f x in for_each f rest
  end.

Definition saveChannel (channel : PrivateChannel) : M unit :=
  run! bucket_put (KEYS.channel (ch_id channel)) (ObjChannel channel) in
  for_each (fun d => addChannelToAgent d (ch_id channel))
           (ch_participants channel).

Definition deleteChannel (id : string) : M unit :=
  let! channel := Storage.getChannel id in
  match channel with
  | None => ret tt
  | Some channel =>
      run! for_each (fun d => removeChannelFromAgent d id)
                    (ch_participants channel) in
      run! bucket_delete (KEYS.channel id) in
      let! listed := bucket_list (KEYS.channelMessagesList id) in
      for_each bucket_delete listed
  end.

Fixpoint channels_with_details (ids : list string) : M (list PrivateChannel) :=
  match ids with
  | [] => ret []
  | id :: rest =>
      let! channel := Storage.getChannel id in
      let! channels := channels_with_details rest in
      ret (match channel with
           | Some c => c :: channels
           | None => channels
           end)
  end.

Definition getAgentChannelsWithDetails (d : string) : M (list PrivateChannel) :=
  let! channelIds := getAgentChannels d in
  channels_with_details channelIds.

Definition getMessage (channelId messageId : string)
    : M (option EncryptedMessage) :=
  let! object := bucket_get (KEYS.channelMessages channelId messageId) in
  match object with
  | Some (ObjMessage m) => run! suspend in ret (Some m)
  | _ => ret None
  end.

Definition deleteMessage (channelId messageId : string) : M unit :=
  bucket_delete (KEYS.channelMessages channelId messageId).

(** The loop of [deleteExpiredMessages]: the count of deleted messages. *)
Fixpoint delete_expired (channelId : string) (now ttlSeconds : Z)
    (messages : list EncryptedMessage) : M Z :=
  match messages with
  | [] => ret 0
  | message :: rest =>
      if (ttlSeconds * 1000 <? now - msg_timestamp message) then
        run! deleteMessage channelId (msg_id message) in
        let! deleted := delete_expired channelId now ttlSeconds rest in
        ret (deleted + 1)
      else delete_expired channelId now ttlSeconds rest
  end.

Definition deleteExpiredMessages (env : Env) (channelId : string)
    (ttlSeconds : Z) : M Z :=
  let! messages := Storage.getChannelMessages channelId None in
  let! now := Date_now env in
  delete_expired channelId now ttlSeconds messages.

Definition getInvitation (id : string) : M (option ChannelInvitation) :=
  let! object := bucket_get (KEYS.invitation id) in
  match object with
  | Some (ObjInvitation i) => run! suspend in ret (Some i)
  | _ => ret None
  end.

Definition updateInvitation (invitation : ChannelInvitation) : M unit :=
  bucket_put (KEYS.invitation (inv_id invitation)) (ObjInvitation invitation).

Definition addInvitationToAgent (d invitationId : string) : M unit :=
  let key := KEYS.agentInvitations d in
  let! object := read_ids key in
  let invitationIds := default [] object in
  if negb (includes invitationIds invitationId) then
    bucket_put key (ObjIds (invitationIds ++ [invitationId]))
  else ret tt.

Definition removeInvitationFromAgent (d invitationId : string) : M unit :=
  let key := KEYS.agentInvitations d in
  let! object := read_ids key in
  match object with
  | None => ret tt
  | Some invitationIds =>
      bucket_put key
        (ObjIds (List.filter (fun id => negb (String.eqb id invitationId))
                             invitationIds))
  end.

Definition saveInvitation (invitation : ChannelInvitation) : M unit :=
  run! bucket_put (KEYS.invitation (inv_id invitation))
                  (ObjInvitation invitation) in
  addInvitationToAgent (inv_invitee invitation) (inv_id invitation).

Definition deleteInvitation (id : string) : M unit :=
  let! invitation := getInvitation id in
  run! match invitation with
       | Some i => removeInvitationFromAgent (inv_invitee i) id
       | None => ret tt
       end in
  bucket_delete (KEYS.invitation id).



(** The loop of [searchAgents] over the listed keys. *)
Fixpoint search_loop (query : SearchQuery) (keys : list string)
    : M (list MoltbookAgent) :=
  match keys with
  | [] => ret []
  | key :: rest =>
      if contains "/channels.json" key then search_loop query rest
      else if contains "/invitations.json" key then search_loop query rest
      else
        let! object := bucket_get key in
        match object with
        | Some (ObjAgent agent) =>
            run! suspend in
            if search_keeps query agent then
              let! agents := search_loop query rest in
              ret (agent :: agents)
            else search_loop query rest
        | _ => search_loop query rest
        end
  end.

Definition searchAgents (query : SearchQuery) : M (list MoltbookAgent) :=
  let! listed := bucket_list "privacy/agents/" in
  search_loop query listed.

End PrivacyStorage.

(** ** The API routes for agents, channels and invitations *)

Definition success_with {A} (code : Z) (a : A) : Response A :=
  {| status := code; success := true; data := Some a; error_message := None |}.

Definition success_empty {A} : Response A :=
  {| status := 200; success := true; data := None; error_message := None |}.

Section MoreRoutes.

Variable env : Env.

(** [POST /agents/register].  [verify] is the signature check of
    [createAgent]. *)
Definition registerAgent (verify : AgentRegistrationRequest -> bool)
    (body : result AgentRegistrationRequest)
    : M (Response AgentRegistrationResponse) :=
  run! suspend in
  match body with
  | Err message => ret (failure 400 message)
  | Ok body =>
      if String.eqb (req_publicKey body) "" then
        ret (failure 400 "Public key is required")
      else
        run! suspend in
        let! now := Date_now env in
        match createAgent verify now body with
        | Err message => ret (failure 400 message)
        | Ok agent =>
            let! existing := Storage.getAgent (did agent) in
            match existing with
            | Some _ =>
                ret (failure 409 "Agent with this public key already registered")
            | None =>
                run! Storage.saveAgent agent in
                ret (success_with 201 (createRegistrationResponse agent))
            end
        end
  end.

(** [PATCH /agents/:did] *)
Definition patchAgent (header : option string) (d : string)
    (body : result ProfileUpdates) : M (Response MoltbookAgent) :=
  match getAgentDID header with
  | None => ret (failure 401 "Unauthorized")
  | Some authDID =>
      if negb (String.eqb authDID d) then ret (failure 401 "Unauthorized")
      else
        run! suspend in
        match body with
        | Err message => ret (failure 400 message)
        | Ok updates =>
            let! agent := Storage.getAgent d in
            match agent with
            | None => ret (failure 404 "Agent not found")
            | Some agent =>
                let updatedAgent := updateAgentProfile agent updates in
                run! Storage.saveAgent updatedAgent in
                ret (success_with 200 updatedAgent)
            end
        end
  end.

(** [POST /agents/:did/nft].  The body is the three fields the handler
    reads from the JSON. *)
Definition addNFTRoute (header : option string) (d : string)
    (body : result (option string * option string * option string))
    : M (Response MoltbookAgent) :=
  match getAgentDID header with
  | None => ret (failure 401 "Unauthorized")
  | Some authDID =>
      if negb (String.eqb authDID d) then ret (failure 401 "Unauthorized")
      else
        run! suspend in
        match body with
        | Err message => ret (failure 400 message)
        | Ok (contract, assetId, schema) =>
            if negb (truthy_str contract) || negb (truthy_str assetId)
               || negb (truthy_str schema) then
              ret (failure 400 "contract, assetId, and schema are required")
            else
              let! agent := Storage.getAgent d in
              match agent with
              | None => ret (failure 404 "Agent not found")
              | Some agent =>
                  let updatedAgent :=
                    addNFTCredential agent (default "" contract)
                      (default "" assetId) (default "" schema) in
                  run! Storage.saveAgent updatedAgent in
                  ret (success_with 200 updatedAgent)
              end
        end
  end.

(** [POST /channels/:id/join].  [addParticipant] is called outside any
    [try]: its exception leaves the handler. *)
Definition joinChannel (header : option string) (channelId : string)
    : M (Response PrivateChannel) :=
  let! agent := requireAgent header in
  match agent with
  | None => ret (failure 401 "Authentication required")
  | Some agent =>
      let! channel := Storage.getChannel channelId in
      match channel with
      | None => ret (failure 404 "Channel not found")
      | Some channel =>
          if includes (ch_participants channel) (did agent) then
            ret (success_with 200 channel)
          else
            let access := canAccessChannel channel agent in
            if negb (allowed access) then
              ret (failure 403 (default "Access denied" (reason access)))
            else
              let! updatedChannel := lift (addParticipant channel (did agent)) in
              run! PrivacyStorage.saveChannel updatedChannel in
              ret (success_with 200 updatedChannel)
      end
  end.

(** [POST /channels/:id/leave] *)
Definition leaveChannel (header : option string) (channelId : string)
    : M (Response unit) :=
  let! agent := requireAgent header in
  match agent with
  | None => ret (failure 401 "Authentication required")
  | Some agent =>
      let! channel := Storage.getChannel channelId in
      match channel with
      | None => ret (failure 404 "Channel not found")
      | Some channel =>
          match removeParticipant channel (did agent) (did agent) with
          | Err message => ret (failure 400 message)
          | Ok updatedChannel =>
              run! PrivacyStorage.saveChannel updatedChannel in
              ret success_empty
          end
      end
  end.

(** [POST /invitations/:id/accept] *)
Definition acceptInvitationRoute (header : option string) (invitationId : string)
    : M (Response (ChannelInvitation * string)) :=
  let! agent := requireAgent header in
  match agent with
  | None => ret (failure 401 "Authentication required")
  | Some agent =>
      let! invitation := PrivacyStorage.getInvitation invitationId in
      match invitation with
      | None => ret (failure 404 "Invitation not found")
      | Some invitation =>
          if negb (String.eqb (inv_invitee invitation) (did agent)) then
            ret (failure 403 "This invitation is not for you")
          else
            let! now := Date_now env in
            match acceptInvitation now invitation with
            | Err message => ret (failure 400 message)
            | Ok acceptedInvitation =>
                run! PrivacyStorage.updateInvitation acceptedInvitation in
                let! channel := Storage.getChannel (inv_channelId invitation) in
                let! added :=
                  match channel with
                  | None => ret (Ok tt)
                  | Some channel =>
                      match addParticipant channel (did agent) with
                      | Err message => ret (Err message)
                      | Ok updatedChannel =>
                          run! PrivacyStorage.saveChannel updatedChannel in
                          ret (Ok tt)
                      end
                  end in
                match added with
                | Err message => ret (failure 400 message)
                | Ok _ =>
                    ret (success_with 200
                           (acceptedInvitation,
                            inv_encryptedChannelKey acceptedInvitation))
                end
            end
      end
  end.

(** [POST /invitations/:id/reject] *)
Definition rejectInvitationRoute (header : option string) (invitationId : string)
    : M (Response unit) :=
  let! agent := requireAgent header in
  match agent with
  | None => ret (failure 401 "Authentication required")
  | Some agent =>
      let! invitation := PrivacyStorage.getInvitation invitationId in
      match invitation with
      | None => ret (failure 404 "Invitation not found")
      | Some invitation =>
          if negb (String.eqb (inv_invitee invitation) (did agent)) then
            ret (failure 403 "This invitation is not for you")
          else
            match rejectInvitation invitation with
            | Err message => ret (failure 400 message)
            | Ok rejectedInvitation =>
                run! PrivacyStorage.updateInvitation rejectedInvitation in
                ret success_empty
            end
      end
  end.

End MoreRoutes.
(** ** Concrete inputs used below *)

Definition env0 : Env :=
  {| time_at := fun n => (1700000000000 + Z.of_nat n)%Z;
     random_bytes := fun n len => repeat (Z.of_nat n) len;
     subtle_derive := fun _ _ => Ok [1%Z];
     subtle_encrypt := fun _ _ key => key |}.

Definition plain_profile : AgentProfile :=
  {| prof_name := None; prof_capabilities := ["test"]; prof_reputation := 50;
     prof_nftCredentials := None; prof_metadata := None |}.

Definition mk_agent (d pk : string) : MoltbookAgent :=
  {| did := d; publicKey := pk; createdAt := 0; profile := plain_profile |}.

Definition creator_did : string := "did:moltbook:c0000000000000000000000000000000".
Definition alice_did : string := "did:moltbook:a1111111111111111111111111111111".
Definition outsider_did : string := "did:moltbook:0ee00000000000000000000000000000".

Definition creator_agent : MoltbookAgent := mk_agent creator_did "Y3JlYXRvcg==".
Definition alice_agent : MoltbookAgent := mk_agent alice_did "YWxpY2U=".
Definition outsider_agent : MoltbookAgent := mk_agent outsider_did "b3V0c2lkZXI=".

Definition agents_bucket : gmap string Object :=
  <[KEYS.agent creator_did := ObjAgent creator_agent]>
    (<[KEYS.agent alice_did := ObjAgent alice_agent]>
       (<[KEYS.agent outsider_did := ObjAgent outsider_agent]> ∅)).

Definition world_of (b : gmap string Object) : World :=
  {| bucket := b; tick := 0; draw := 0 |}.

(** A status other than [pending]. *)
Definition terminal (s : InvitationStatus) : Prop := s <> pending.

(** Two invitations that agree on every field except, possibly, the
    status. *)
Definition same_invitation_data (i i' : ChannelInvitation) : Prop :=
  inv_id i' = inv_id i
  /\ inv_channelId i' = inv_channelId i
  /\ inv_inviter i' = inv_inviter i
  /\ inv_invitee i' = inv_invitee i
  /\ inv_createdAt i' = inv_createdAt i
  /\ inv_expiresAt i' = inv_expiresAt i
  /\ inv_encryptedChannelKey i' = inv_encryptedChannelKey i.

(** A pending invitation whose expiry has passed. *)
Definition expired_invitation : ChannelInvitation :=
  {| inv_id := "inv-123"; inv_channelId := "ch-test";
     inv_inviter := "did:moltbook:inviter"; inv_invitee := "did:moltbook:invitee";
     inv_createdAt := 1699308800000; inv_expiresAt := 1699999999000;
     inv_encryptedChannelKey := "encrypted-key"; inv_status := pending |}.


(** The operations of did.ts on an existing agent, to speak of sequences
    of them. *)
Inductive AgentOp :=
| OpUpdateProfile (updates : ProfileUpdates)
| OpAdjustReputation (delta : Z)
| OpAddNFTCredential (contract assetId schema : string)
| OpVerifyNFTCredential (now : Z) (contract assetId : string).

Definition apply_op (agent : MoltbookAgent) (op : AgentOp) : MoltbookAgent :=
  match op with
  | OpUpdateProfile updates => updateAgentProfile agent updates
  | OpAdjustReputation delta => adjustReputation agent delta
  | OpAddNFTCredential contract assetId schema =>
      addNFTCredential agent contract assetId schema
  | OpVerifyNFTCredential now contract assetId =>
      verifyNFTCredential now agent contract assetId
  end.

Definition is_adjust (op : AgentOp) : bool :=
  match op with OpAdjustReputation _ => true | _ => false end.

Definition reputation_of (agent : MoltbookAgent) : Z :=
  prof_reputation (profile agent).

(** A profile update that carries a credential already marked verified. *)
Definition forged_credential : NFTCredential :=
  {| cred_contract := "atomicassets"; cred_assetId := "12345";
     cred_schema := "moltbook.agent"; cred_verified := true;
     cred_verifiedAt := Some 1700000000000 |}.

Definition forged_update : ProfileUpdates :=
  {| upd_name := None; upd_capabilities := None; upd_reputation := Some 100;
     upd_nftCredentials := Some [forged_credential]; upd_metadata := None |}.

(** A credential satisfies a gate: verified, on the gate's contract, and of
    the gate's schema when the gate names one (a non-empty string). *)
Definition matches_gate (g : NFTGate) (c : NFTCredential) : Prop :=
  cred_verified c = true
  /\ cred_contract c = gate_contract g
  /\ (forall s, gate_schema g = Some s -> s <> "" -> cred_schema c = s).

(** The gated channel of the access-control test. *)
Definition agent_gate : NFTGate :=
  {| gate_contract := "atomicassets"; gate_schema := Some "moltbook.agent";
     gate_minAmount := None |}.

Definition gated_channel : PrivateChannel :=
  {| ch_id := "ch-test123"; ch_participants := [creator_did];
     ch_createdAt := 1700000000000; ch_createdBy := creator_did;
     ch_encryption := {| enc_keyRotationInterval := None |};
     ch_accessControl :=
       Some {| ac_type := nft_gated; ac_nftGate := Some agent_gate;
               ac_allowedDIDs := None |};
     ch_metadata := None |}.

Definition agent_with_nft : MoltbookAgent :=
  {| did := alice_did; publicKey := "YWxpY2U="; createdAt := 0;
     profile := with_nftCredentials plain_profile [forged_credential] |}.

(** A channel of two participants that allows at most two. *)
Definition full_channel : PrivateChannel :=
  {| ch_id := "ch-test123"; ch_participants := [creator_did; alice_did];
     ch_createdAt := 1700000000000; ch_createdBy := creator_did;
     ch_encryption := {| enc_keyRotationInterval := None |};
     ch_accessControl :=
       Some {| ac_type := invite_only; ac_nftGate := None;
               ac_allowedDIDs := None |};
     ch_metadata :=
       Some {| meta_name := None; meta_description := None;
               meta_maxParticipants := Some 2; meta_ttl := None |} |}.

(** A field of a request is present and non-empty. *)
Definition present (o : option string) : Prop :=
  exists s, o = Some s /\ s <> "".

Definition invalid (why : string) : Validation :=
  {| valid := false; error := Some why |}.

(** What the bucket holds for an agent and for a channel. *)
Definition lookup_agent (b : gmap string Object) (d : string)
    : option MoltbookAgent :=
  match b !! KEYS.agent d with
  | Some (ObjAgent a) => Some a
  | _ => None
  end.

Definition lookup_channel (b : gmap string Object) (id : string)
    : option PrivateChannel :=
  match b !! KEYS.channel id with
  | Some (ObjChannel c) => Some c
  | _ => None
  end.

(** The agent a request is made for: the header names a valid DID and the
    bucket has an agent under it. *)
Definition authenticated (b : gmap string Object) (header : option string)
    : option MoltbookAgent :=
  match getAgentDID header with
  | Some d => lookup_agent b d
  | None => None
  end.

(** The test key of the DID tests. *)
Definition test_public_key : string := "test-public-key-base64".

(** The message stored under a key, and the keys a listing returns. *)
Definition message_at (b : gmap string Object) (key : string)
    : option EncryptedMessage :=
  match b !! key with
  | Some (ObjMessage m) => Some m
  | _ => None
  end.

Definition listed_keys (b : gmap string Object) (prefix : string)
    : list string :=
  List.filter (String.prefix prefix) (map fst (map_to_list b)).

(** The messages the listing loop keeps, as a function of the bucket. *)
Fixpoint kept_messages (options : option ListOptions)
    (b : gmap string Object) (keys : list string) : list EncryptedMessage :=
  match keys with
  | [] => []
  | key :: rest =>
      match message_at b key with
      | Some m =>
          if skipped options m then kept_messages options b rest
          else m :: kept_messages options b rest
      | None => kept_messages options b rest
      end
  end.

(** Newest first. *)
Definition newer_first (x y : EncryptedMessage) : Prop :=
  msg_timestamp y <= msg_timestamp x.

(** A channel with a TTL of 60 seconds, an old and a new message. *)
Definition now0 : Z := 1700000000000.

Definition ttl_channel : PrivateChannel :=
  {| ch_id := "ch-test123"; ch_participants := [creator_did; alice_did];
     ch_createdAt := 1699990000000; ch_createdBy := creator_did;
     ch_encryption := {| enc_keyRotationInterval := None |};
     ch_accessControl :=
       Some {| ac_type := invite_only; ac_nftGate := None;
               ac_allowedDIDs := None |};
     ch_metadata :=
       Some {| meta_name := None; meta_description := None;
               meta_maxParticipants := None; meta_ttl := Some 60 |} |}.

Definition old_message : EncryptedMessage :=
  {| msg_id := "msg-1"; msg_channelId := "ch-test123"; msg_sender := alice_did;
     msg_timestamp := now0 - 120000; msg_nonce := "nonce";
     msg_ciphertext := "cipher"; msg_ephemeralPubKey := None |}.

Definition new_message : EncryptedMessage :=
  {| msg_id := "msg-2"; msg_channelId := "ch-test123"; msg_sender := alice_did;
     msg_timestamp := now0; msg_nonce := "nonce";
     msg_ciphertext := "cipher"; msg_ephemeralPubKey := None |}.

Definition chat_bucket : gmap string Object :=
  <[KEYS.channel "ch-test123" := ObjChannel ttl_channel]>
    (<[KEYS.channelMessages "ch-test123" "msg-1" := ObjMessage old_message]>
       (<[KEYS.channelMessages "ch-test123" "msg-2" := ObjMessage new_message]>
          agents_bucket)).

Definition good_request : SendMessageRequest :=
  {| sreq_channelId := Some "ch-test123"; sreq_nonce := Some "test-nonce";
     sreq_ciphertext := Some "encrypted-content"; sreq_ephemeralPubKey := None |}.


(** What [getChannelMessages] returns, as a function of the bucket. *)
Definition listing (b : gmap string Object) (channelId : string)
    (options : option ListOptions) : list EncryptedMessage :=
  let sorted :=
    sort_desc (kept_messages options b
                 (listed_keys b (KEYS.channelMessagesList channelId))) in
  if truthy_num (option_field opt_limit options)
  then slice_to (default 0 (option_field opt_limit options)) sorted
  else sorted.


(** The channel key can be wrapped for an agent: both keys decode and the
    platform derives a shared secret from them. *)
Definition can_wrap (env : Env) (creatorPrivateKey : string)
    (a : MoltbookAgent) : Prop :=
  atob_ok creatorPrivateKey = true
  /\ atob_ok (publicKey a) = true
  /\ is_ok (subtle_derive env creatorPrivateKey (publicKey a)) = true.

(** What every invitation of a new channel looks like. *)
Definition fresh_invitation (channelId creatorDID : string)
    (i : ChannelInvitation) : Prop :=
  inv_status i = pending
  /\ inv_expiresAt i = inv_createdAt i + 7 * 86400000
  /\ inv_channelId i = channelId
  /\ inv_inviter i = creatorDID.

Definition not_creator (creatorDID : string) (d : string) : bool :=
  negb (String.eqb d creatorDID).

(** The participant list has no duplicates and respects the maximum. *)
Definition participants_ok (c : PrivateChannel) : Prop :=
  List.NoDup (ch_participants c)
  /\ (forall limit, maxParticipants c = Some limit ->
        Z.of_nat (List.length (ch_participants c)) <= limit).

(** A request that names the same invitee twice, for a channel of at most
    one participant. *)
Definition dup_request : CreateChannelRequest :=
  {| creq_participants := Some [alice_did; alice_did];
     creq_encryption := None;
     creq_accessControl := None;
     creq_metadata :=
       Some {| meta_name := None; meta_description := None;
               meta_maxParticipants := Some 1; meta_ttl := None |} |}.

Definition alice_request : CreateChannelRequest :=
  {| creq_participants := Some [alice_did]; creq_encryption := None;
     creq_accessControl := None; creq_metadata := None |}.

Definition creator_private_key : string := "cHJpdmF0ZQ==".
(** ** Notions used by the further properties *)

(** A string without the character [:]. *)
Definition no_colon (s : string) : Prop :=
  ~ In ":"%char (list_ascii_of_string s).

(** [parts.join(sep)] for a one-character separator. *)
Fixpoint join (sep : ascii) (parts : list string) : string :=
  match parts with
  | [] => EmptyString
  | [p] => p
  | p :: rest => p +:+ String sep (join sep rest)
  end.

(** The key of a credential: issuer contract and asset. *)
Definition cred_key (c : NFTCredential) : string * string :=
  (cred_contract c, cred_assetId c).

(** A verified credential carries a verification time. *)
Definition stamped (c : NFTCredential) : Prop :=
  cred_verified c = true -> cred_verifiedAt c <> None.

(** The credential operations of did.ts, to speak of sequences of them. *)
Inductive CredentialOp :=
| CredAdd (contract assetId schema : string)
| CredVerify (now : Z) (contract assetId : string).

Definition apply_cred_op (agent : MoltbookAgent) (op : CredentialOp)
    : MoltbookAgent :=
  match op with
  | CredAdd contract assetId schema =>
      addNFTCredential agent contract assetId schema
  | CredVerify now contract assetId =>
      verifyNFTCredential now agent contract assetId
  end.

(** The test of [addNFTCredential] and [verifyNFTCredential] on one
    credential. *)
Definition has_key (contract assetId : string) (c : NFTCredential) : bool :=
  String.eqb (cred_contract c) contract && String.eqb (cred_assetId c) assetId.


(** The participant and policy edits of channels.ts, to speak of sequences
    of them.  A caller saves the channel only when the edit succeeds, so a
    failed edit leaves the channel as it was. *)
Inductive ChannelOp :=
| OpAdd (participantDID : string)
| OpRemove (participantDID removerDID : string)
| OpSetAccess (accessControl : AccessControl) (updaterDID : string).

Definition apply_channel_op (c : PrivateChannel) (op : ChannelOp)
    : result PrivateChannel :=
  match op with
  | OpAdd d => addParticipant c d
  | OpRemove d remover => removeParticipant c d remover
  | OpSetAccess ac updater => updateAccessControl c ac updater
  end.

Definition step_channel (c : PrivateChannel) (op : ChannelOp) : PrivateChannel :=
  match apply_channel_op c op with
  | Ok c' => c'
  | Err _ => c
  end.

(** The actions on an invitation. *)
Inductive InvitationOp :=
| InvAccept (now : Z)
| InvReject.

Definition apply_invitation_op (i : ChannelInvitation) (op : InvitationOp)
    : result ChannelInvitation :=
  match op with
  | InvAccept now => acceptInvitation now i
  | InvReject => rejectInvitation i
  end.

Definition step_invitation (i : ChannelInvitation) (op : InvitationOp)
    : ChannelInvitation :=
  match apply_invitation_op i op with
  | Ok i' => i'
  | Err _ => i
  end.

(** Undoing [encodeURIComponent]: [%XX] gives back the byte. *)
Definition hex_value (c : ascii) : nat :=
  Z.to_nat (index_in c (list_ascii_of_string "0123456789ABCDEF") 0).

Fixpoint percent_decode (s : string) : string :=
  match s with
  | EmptyString => EmptyString
  | String c rest =>
      if Ascii.eqb c "%" then
        match rest with
        | String h (String l rest') =>
            String (ascii_of_nat (hex_value h * 16 + hex_value l))
                   (percent_decode rest')
        | _ => String c (percent_decode rest)
        end
      else String c (percent_decode rest)
  end.

(** What the bucket holds as an index of ids, as a message, as an
    invitation. *)
Definition ids_at (b : gmap string Object) (key : string) : list string :=
  match b !! key with
  | Some (ObjIds ids) => ids
  | _ => []
  end.

Definition lookup_invitation (b : gmap string Object) (id : string)
    : option ChannelInvitation :=
  match b !! KEYS.invitation id with
  | Some (ObjInvitation i) => Some i
  | _ => None
  end.


(** A bucket with the index of an invitee and a pending invitation whose
    expiry has passed. *)
Definition invitee_did : string := "did:moltbook:invitee".

Definition invitations_bucket : gmap string Object :=
  <[KEYS.agentInvitations invitee_did := ObjIds ["inv-123"]]>
    (<[KEYS.invitation "inv-123" := ObjInvitation expired_invitation]> ∅).

(** A search for reviewers of reputation 50 at least. *)
Definition reviewer_query : SearchQuery :=
  {| q_capabilities := Some ["test"]; q_minReputation := Some 50;
     q_hasNFT := None |}.

(** A registration request with the test key and a signature. *)
Definition registration_request : AgentRegistrationRequest :=
  {| req_publicKey := test_public_key;
     req_profile := {| reg_name := Some "Test Agent";
                       reg_capabilities := ["test"];
                       reg_nftCredentials := None;
                       reg_metadata := None |};
     req_signature := "test-signature" |}.

(** The chat bucket with the channel indexes of its two participants. *)
Definition indexed_bucket : gmap string Object :=
  <[KEYS.agentChannels alice_did := ObjIds ["ch-test123"]]>
    (<[KEYS.agentChannels creator_did := ObjIds ["ch-test123"]]> chat_bucket).

(** The channels stored under the ids of an index, in its order; ids
    without stored metadata are skipped. *)
Definition stored_channels (b : gmap string Object) (ids : list string)
    : list PrivateChannel :=
  flat_map (fun id => match lookup_channel b id with
                      | Some c => [c]
                      | None => []
                      end) ids.
(** ** Checks of the embedding against known values *)

Example sha256_abc :
  Crypto.hex_of_bytes (Crypto.digest (Crypto.text_encode "abc"))
  = "ba7816bf8f01cfea414140de5dae2223b00361a396177a9cb410ff61f20015ad".
Proof. vm_compute. reflexivity. Qed.

Example sha256_two_blocks :
  Crypto.hex_of_bytes (Crypto.digest (Crypto.text_encode
    "abcdbcdecdefdefgefghfghighijhijkijkljklmklmnlmnomnopnopq"))
  = "248d6a61d20638b8e5c026930c3e6039a33ce45964ff2167f6ecedd419db06c1".
Proof. vm_compute. reflexivity. Qed.

Example sha256_empty_base64 :
  Crypto.sha256 "" = "47DEQpj8HBSa+/TImW+5JCeuQeRkm5NMpJWZG3hSuFU=".
Proof. vm_compute. reflexivity. Qed.

Example parseDID_moltbook :
  parseDID "did:moltbook:abc123def456abc123def456abc12345"
  = Some {| method := "moltbook"; identifier := "abc123def456abc123def456abc12345" |}.
Proof. reflexivity. Qed.

Example parseDID_rejects :
  parseDID "invalid" = None /\ parseDID "did:moltbook" = None
  /\ parseDID "did:moltbook:a:b" = None.
Proof. repeat split; reflexivity. Qed.

Example isValidDID_examples :
  isValidDID "did:moltbook:abc123def456abc123def456abc12345" = true
  /\ isValidDID "did:moltbook:00000000000000000000000000000000" = true
  /\ isValidDID "did:other:abc123" = false
  /\ isValidDID "did:moltbook:short" = false
  /\ isValidDID "did:moltbook:UPPERCASE123456789012345678901234" = false.
Proof. repeat split; vm_compute; reflexivity. Qed.

Example atob_ok_examples :
  atob_ok "dGVzdA==" = true /\ atob_ok "" = true
  /\ atob_ok "not base64!" = false /\ atob_ok "undefined" = false.
Proof. repeat split; vm_compute; reflexivity. Qed.

(** * Properties *)

(** ** Basic facts about the helpers *)

Lemma includes_In (l : list string) (x : string) :
  includes l x = true <-> In x l.
Proof.
  unfold includes. rewrite existsb_exists. split.
  - intros (y & Hy & Heq). apply String.eqb_eq in Heq. now subst.
  - intros H. exists x. split; [assumption | apply String.eqb_refl].
Qed.

Lemma includes_not_In (l : list string) (x : string) :
  includes l x = false <-> ~ In x l.
Proof.
  rewrite <- includes_In. destruct (includes l x); split; congruence.
Qed.

Lemma truthy_num_spec (o : option Z) :
  truthy_num o = true <-> exists n, o = Some n /\ n <> 0%Z.
Proof.
  destruct o as [n|]; simpl.
  - rewrite negb_true_iff, Z.eqb_neq. split.
    + intros H. exists n. split; [reflexivity | assumption].
    + intros (m & Hm & Hne). congruence.
  - split; [discriminate | intros (m & Hm & _); discriminate].
Qed.

Lemma truthy_str_spec (o : option string) :
  truthy_str o = true <-> exists s, o = Some s /\ s <> "".
Proof.
  destruct o as [s|]; simpl.
  - rewrite negb_true_iff, String.eqb_neq. split.
    + intros H. exists s. split; [reflexivity | assumption].
    + intros (m & Hm & Hne). congruence.
  - split; [discriminate | intros (m & Hm & _); discriminate].
Qed.

(** ** Invitations (channels.ts, [acceptInvitation], [rejectInvitation]) *)

Lemma status_eqb_pending (s : InvitationStatus) :
  status_eqb s pending = true <-> s = pending.
Proof. destruct s; simpl; split; congruence. Qed.

(** C6.  Accepting and rejecting fail exactly on a non-pending invitation.
    On a pending one, accepting returns the invitation with status
    [expired] when the clock has passed its expiry and with status
    [accepted] otherwise, and rejecting returns it with status [rejected];
    every other field of the result is the field of the input.  A result
    is never pending, and there is none for a terminal invitation. *)
Theorem C6_invitation_transitions (now : Z) (i : ChannelInvitation) :
  (is_ok (acceptInvitation now i) = false <-> inv_status i <> pending)
  /\ (is_ok (rejectInvitation i) = false <-> inv_status i <> pending)
  /\ (inv_status i = pending -> (now > inv_expiresAt i)%Z ->
      exists i', acceptInvitation now i = Ok i'
                 /\ inv_status i' = expired
                 /\ same_invitation_data i i')
  /\ (inv_status i = pending -> (now <= inv_expiresAt i)%Z ->
      exists i', acceptInvitation now i = Ok i'
                 /\ inv_status i' = accepted
                 /\ same_invitation_data i i')
  /\ (inv_status i = pending ->
      exists i', rejectInvitation i = Ok i'
                 /\ inv_status i' = rejected
                 /\ same_invitation_data i i')
  /\ (forall i', acceptInvitation now i = Ok i' \/ rejectInvitation i = Ok i' ->
      inv_status i = pending
      /\ terminal (inv_status i')
      /\ (inv_status i' = accepted \/ inv_status i' = rejected
          \/ inv_status i' = expired)
      /\ same_invitation_data i i').
Proof.
  unfold acceptInvitation, rejectInvitation, terminal, same_invitation_data.
  destruct i as [id cid inviter invitee created expires key st].
  cbn [inv_status inv_expiresAt].
  destruct st; cbn [status_eqb negb];
    destruct (Z.ltb_spec expires now) as [Hlt | Hge]; cbn [is_ok].
  all: repeat match goal with |- _ /\ _ => split end.
  all: match goal with
       | |- _ <-> _ =>
           split; intros H;
           first [reflexivity | discriminate H | congruence]
       | |- forall i', _ \/ _ -> _ =>
           intros i' [H | H]; try discriminate H; injection H as <-; cbn;
           repeat split; try discriminate; auto
       | |- _ = pending -> _ =>
           intros Hp;
           first [ discriminate Hp
                 | intros Hnow; exfalso; lia
                 | intros Hnow; eexists; split; [reflexivity |]; cbn;
                   repeat split
                 | eexists; split; [reflexivity |]; cbn; repeat split ]
       end.
Qed.

Lemma C6_invitation_transitions_witness :
  exists i',
    acceptInvitation 1700000000000 expired_invitation = Ok i'
    /\ inv_status i' = expired
    /\ inv_id i' = "inv-123".
Proof.
  destruct (C6_invitation_transitions 1700000000000 expired_invitation)
    as (_ & _ & Hexp & _).
  destruct Hexp as (i' & E & Hs & Hid & _); [reflexivity | simpl; lia |].
  exists i'. split; [exact E |]. split; [exact Hs | exact Hid].
Defined.

(** ** Adding a participant who is already there (channels.ts,
    [addParticipant]) *)

(** C10.  Adding a DID that the channel already lists returns the channel
    unchanged, whatever the participant count and the maximum are; an
    error of [addParticipant] is always the maximum-participants error and
    is raised only for a DID that is not listed, on a channel whose
    non-zero maximum is reached. *)
Theorem C10_addParticipant_present (c : PrivateChannel) (d : string) :
  (In d (ch_participants c) -> addParticipant c d = Ok c)
  /\ (forall msg, addParticipant c d = Err msg ->
        msg = max_participants_error
        /\ ~ In d (ch_participants c)
        /\ exists limit, maxParticipants c = Some limit /\ limit <> 0
             /\ limit <= Z.of_nat (List.length (ch_participants c))).
Proof.
  unfold addParticipant. split.
  - intros Hin. apply includes_In in Hin. now rewrite Hin.
  - intros msg. destruct (includes (ch_participants c) d) eqn:Hinc;
      [discriminate |].
    destruct (truthy_num (maxParticipants c)) eqn:Hmax; simpl;
      [| discriminate].
    destruct (Z.leb_spec (default 0 (maxParticipants c))
                (Z.of_nat (List.length (ch_participants c)))) as [Hle | Hgt];
      [| discriminate].
    intros Heq. inversion Heq; subst. split; [reflexivity |].
    split; [now apply includes_not_In |].
    apply truthy_num_spec in Hmax. destruct Hmax as (limit & Hlim & Hne).
    exists limit. rewrite Hlim in Hle. simpl in Hle. auto.
Qed.

Lemma C10_addParticipant_present_witness :
  addParticipant full_channel alice_did = Ok full_channel.
Proof.
  destruct (C10_addParticipant_present full_channel alice_did) as [Hsame _].
  apply Hsame. simpl. right. left. reflexivity.
Defined.

(** ** Profile updates and reputation (did.ts) *)

Lemma adjustReputation_range (a : MoltbookAgent) (delta : Z) :
  0 <= reputation_of (adjustReputation a delta) <= 100.
Proof. unfold reputation_of, adjustReputation. simpl. lia. Qed.

Lemma addNFTCredential_reputation (a : MoltbookAgent) (contract assetId schema : string) :
  reputation_of (addNFTCredential a contract assetId schema) = reputation_of a.
Proof.
  unfold addNFTCredential. destruct (existsb _ _); reflexivity.
Qed.

Lemma apply_op_reputation (a : MoltbookAgent) (op : AgentOp) :
  is_adjust op = false -> reputation_of (apply_op a op) = reputation_of a.
Proof.
  destruct op; simpl; intros H; try discriminate; try reflexivity.
  apply addNFTCredential_reputation.
Qed.

Lemma updates_preserve_reputation (us : list ProfileUpdates) (a : MoltbookAgent) :
  reputation_of (fold_left updateAgentProfile us a) = reputation_of a.
Proof.
  revert a. induction us as [| u us IH]; intros a; simpl.
  - reflexivity.
  - now rewrite IH.
Qed.

Lemma ops_keep_range (ops : list AgentOp) (a : MoltbookAgent) :
  0 <= reputation_of a <= 100 ->
  0 <= reputation_of (fold_left apply_op ops a) <= 100.
Proof.
  revert a. induction ops as [| op ops IH]; intros a Ha; simpl.
  - assumption.
  - apply IH. destruct (is_adjust op) eqn:Hop.
    + destruct op; try discriminate. apply adjustReputation_range.
    + now rewrite apply_op_reputation.
Qed.

(** What does hold of a profile update: it leaves the DID, the public
    key, the creation time and the reputation as they were, and sets a
    profile field exactly when the update carries it.  Any sequence of
    updates keeps the reputation; every operation other than
    [adjustReputation] keeps it; [adjustReputation] lands in [0,100], and
    so does every sequence of operations started in that range. *)
Lemma updateAgentProfile_frame (a : MoltbookAgent) (u : ProfileUpdates) :
  let a' := updateAgentProfile a u in
  did a' = did a /\ publicKey a' = publicKey a /\ createdAt a' = createdAt a
  /\ reputation_of a' = reputation_of a
  /\ (upd_name u = None -> prof_name (profile a') = prof_name (profile a))
  /\ (forall v, upd_name u = Some v -> prof_name (profile a') = Some v)
  /\ (upd_capabilities u = None ->
      prof_capabilities (profile a') = prof_capabilities (profile a))
  /\ (forall v, upd_capabilities u = Some v ->
        prof_capabilities (profile a') = v)
  /\ (upd_metadata u = None ->
      prof_metadata (profile a') = prof_metadata (profile a))
  /\ (forall v, upd_metadata u = Some v -> prof_metadata (profile a') = Some v)
  /\ (upd_nftCredentials u = None ->
      prof_nftCredentials (profile a') = prof_nftCredentials (profile a))
  /\ (forall v, upd_nftCredentials u = Some v ->
        prof_nftCredentials (profile a') = Some v)
  /\ (forall us, reputation_of (fold_left updateAgentProfile us a) = reputation_of a)
  /\ (forall op, is_adjust op = false ->
        reputation_of (apply_op a op) = reputation_of a)
  /\ (forall delta, 0 <= reputation_of (adjustReputation a delta) <= 100)
  /\ (forall ops, 0 <= reputation_of a <= 100 ->
        0 <= reputation_of (fold_left apply_op ops a) <= 100).
Proof.
  cbn zeta. unfold updateAgentProfile. cbn [did publicKey createdAt profile
    prof_name prof_capabilities prof_metadata prof_nftCredentials].
  repeat match goal with |- _ /\ _ => split end;
    try reflexivity; try (now intros ->); try (now intros v ->).
  - intros us. apply updates_preserve_reputation.
  - intros op. apply apply_op_reputation.
  - intros delta. apply adjustReputation_range.
  - intros ops. apply ops_keep_range.
Qed.

(** C5.  The code departs from the claim.  A profile update that carries
    [nftCredentials] replaces the agent's credentials: here an agent
    without any credential comes out with one that is marked verified and
    passes [hasVerifiedNFT], which the same credential added through
    [addNFTCredential] does not; the reputation sent along (100) is
    ignored.  The same update goes through [PATCH /agents/:did] for the
    agent's own record, which is stored with the forged credential. *)
Lemma C5_update_changes_credentials :
  prof_nftCredentials (profile alice_agent) = None
  /\ prof_nftCredentials (profile (updateAgentProfile alice_agent forged_update))
     = Some [forged_credential]
  /\ cred_verified forged_credential = true
  /\ hasVerifiedNFT alice_agent "atomicassets" None = false
  /\ hasVerifiedNFT (updateAgentProfile alice_agent forged_update)
                    "atomicassets" None = true
  /\ hasVerifiedNFT (addNFTCredential alice_agent "atomicassets" "12345"
                                      "moltbook.agent")
                    "atomicassets" None = false
  /\ reputation_of (updateAgentProfile alice_agent forged_update)
     = reputation_of alice_agent
  /\ fst (patchAgent (Some alice_did) alice_did (Ok forged_update)
                     (world_of agents_bucket))
     = Ok (success_with 200 (updateAgentProfile alice_agent forged_update))
  /\ lookup_agent
       (bucket (snd (patchAgent (Some alice_did) alice_did (Ok forged_update)
                                (world_of agents_bucket))))
       alice_did
     = Some (updateAgentProfile alice_agent forged_update).
Proof.
  repeat match goal with |- _ /\ _ => split end; try reflexivity.
  all: vm_compute; reflexivity.
Qed.

(** ** Credential-gated access (channels.ts, [canAccessChannel]; did.ts,
    [hasVerifiedNFT]) *)

Lemma counts_for_gate_spec (g : NFTGate) (c : NFTCredential) :
  counts_for_gate g c = true <-> matches_gate g c.
Proof.
  unfold counts_for_gate, matches_gate.
  rewrite !andb_true_iff, orb_true_iff, negb_true_iff, !String.eqb_eq.
  split.
  - intros [[Hv Hc] Hs]. repeat split; try assumption.
    intros s Hsome Hne. destruct Hs as [Hs | Hs].
    + rewrite Hsome in Hs. simpl in Hs. apply negb_false_iff in Hs.
      apply String.eqb_eq in Hs. contradiction.
    + rewrite Hsome in Hs. exact Hs.
  - intros (Hv & Hc & Hs). repeat split; try assumption.
    destruct (gate_schema g) as [s |] eqn:Hg; simpl; [| now left].
    destruct (String.eqb_spec s "") as [Heq | Hne]; [now left | right].
    now apply Hs.
Qed.

Lemma credential_matches_spec (g : NFTGate) (c : NFTCredential) :
  credential_matches (gate_contract g) (gate_schema g) c = counts_for_gate g c.
Proof.
  unfold credential_matches, counts_for_gate.
  destruct (cred_verified c); simpl; [| reflexivity].
  destruct (String.eqb (cred_contract c) (gate_contract g)); simpl;
    [| reflexivity].
  destruct (truthy_str (gate_schema g)); simpl; [| reflexivity].
  now destruct (String.eqb (cred_schema c) (default "" (gate_schema g))).
Qed.

Lemma hasVerifiedNFT_spec (a : MoltbookAgent) (g : NFTGate) :
  hasVerifiedNFT a (gate_contract g) (gate_schema g) = true
  <-> exists c, In c (credentials_of a) /\ matches_gate g c.
Proof.
  unfold hasVerifiedNFT. rewrite existsb_exists.
  split; intros (c & Hin & Hc); exists c; split; try assumption.
  - apply counts_for_gate_spec. now rewrite <- credential_matches_spec.
  - rewrite credential_matches_spec. now apply counts_for_gate_spec.
Qed.

(** C4, as the code has it.  For an agent outside a channel whose policy
    is [nft_gated] with a configured gate, access is allowed exactly when
    the agent holds a credential satisfying the gate and, when a minimum
    amount is set, at least that many of them; when the agent holds no
    such credential the decision is the denial "Required NFT not found". *)
Theorem C4_nft_gated_access (c : PrivateChannel) (a : MoltbookAgent)
    (ac : AccessControl) (g : NFTGate)
    (Hout : ~ In (did a) (ch_participants c))
    (Hac : ch_accessControl c = Some ac)
    (Hty : ac_type ac = nft_gated)
    (Hgate : ac_nftGate ac = Some g) :
  let held := List.filter (counts_for_gate g) (credentials_of a) in
  (forall cr, In cr held <-> In cr (credentials_of a) /\ matches_gate g cr)
  /\ (allowed (canAccessChannel c a) = true
      <-> (exists cr, In cr (credentials_of a) /\ matches_gate g cr)
          /\ (forall m, gate_minAmount g = Some m ->
                m <= Z.of_nat (List.length held)))
  /\ ((forall cr, In cr (credentials_of a) -> ~ matches_gate g cr) ->
      canAccessChannel c a = deny "Required NFT not found").
Proof.
  intros held.
  assert (Hheld : forall cr,
             In cr held <-> In cr (credentials_of a) /\ matches_gate g cr).
  { intros cr. unfold held. rewrite filter_In, counts_for_gate_spec. tauto. }
  split; [exact Hheld |].
  apply includes_not_In in Hout.
  unfold canAccessChannel. rewrite Hout, Hac, Hty, Hgate.
  destruct (hasVerifiedNFT a (gate_contract g) (gate_schema g)) eqn:Hhas; simpl.
  - assert (Hex : exists cr, In cr (credentials_of a) /\ matches_gate g cr)
      by now apply hasVerifiedNFT_spec.
    assert (Hpos : 0 < Z.of_nat (List.length held)).
    { destruct Hex as (cr & Hin & Hm).
      assert (Hin' : In cr held) by (apply Hheld; tauto).
      destruct held; [destruct Hin' | simpl; lia]. }
    split.
    + destruct (gate_minAmount g) as [m |] eqn:Hmin; simpl.
      * destruct (Z.eqb_spec m 0) as [-> | Hne]; simpl.
        -- split; [| reflexivity]. intros _. split; [exact Hex |].
           intros m Hm. inversion Hm; subst. fold held. lia.
        -- fold held.
           destruct (Z.ltb_spec (Z.of_nat (List.length held)) m) as [Hlt | Hge];
             simpl.
           ++ split; [discriminate |]. intros [_ Hall].
              specialize (Hall m eq_refl). lia.
           ++ split; [| reflexivity]. intros _. split; [exact Hex |].
              intros m' Hm'. inversion Hm'; subst. exact Hge.
      * split; [| reflexivity]. intros _. split; [exact Hex |].
        intros m Hm. discriminate.
    + intros Hnone. destruct Hex as (cr & Hin & Hm).
      exfalso. exact (Hnone cr Hin Hm).
  - split; [| reflexivity].
    split; [discriminate |]. intros [Hex _].
    apply hasVerifiedNFT_spec in Hex. congruence.
Qed.

Lemma C4_nft_gated_access_witness :
  allowed (canAccessChannel gated_channel agent_with_nft) = true.
Proof.
  destruct (C4_nft_gated_access gated_channel agent_with_nft
              {| ac_type := nft_gated; ac_nftGate := Some agent_gate;
                 ac_allowedDIDs := None |} agent_gate) as (_ & Hiff & _).
  - simpl. intros [H | []]. discriminate H.
  - reflexivity.
  - reflexivity.
  - reflexivity.
  - apply Hiff. split.
    + exists forged_credential. split; [simpl; now left |].
      unfold matches_gate. simpl. repeat split.
      intros s Hs _. now inversion Hs.
    + intros m Hm. discriminate Hm.
Defined.

(** C4 as stated fails on the reason: an outsider without credentials is
    denied with "Required NFT not found", not with "Required credential
    not found". *)
Lemma C4_denial_reason_differs :
  allowed (canAccessChannel gated_channel alice_agent) = false
  /\ reason (canAccessChannel gated_channel alice_agent)
     = Some "Required NFT not found"
  /\ reason (canAccessChannel gated_channel alice_agent)
     <> Some "Required credential not found".
Proof.
  split; [reflexivity | split; [reflexivity |]].
  simpl. intros H. inversion H.
Qed.

(** ** DID derivation (did.ts, [generateDID]; crypto.ts, [sha256]) *)

(** What [generateDID] computes: the prefix and the first 32 characters of
    the base64 rendering of the digest. *)
Lemma generateDID_unfold (pk : string) :
  generateDID pk
  = "did:moltbook:"
    +:+ slice0 32 (Crypto.arrayBufferToBase64 (Crypto.digest (Crypto.text_encode pk))).
Proof. reflexivity. Qed.

(** C1, at the key of the repository's own DID test.  The identifier that
    [generateDID] returns is cut from the base64 text of the digest, not
    from its hexadecimal text: it contains capital letters and the DID is
    rejected by [isValidDID], whereas the DID of the specification, built
    from the hexadecimal digest, is accepted. *)
Theorem C1_generateDID_test_key :
  generateDID test_public_key = "did:moltbook:EYvXu4KPU6hcBL3plTuZJqWuuJaJzDor"
  /\ isValidDID (generateDID test_public_key) = false
  /\ generateDID_spec test_public_key = "did:moltbook:118bd7bb828f53a85c04bde9953b9926"
  /\ isValidDID (generateDID_spec test_public_key) = true.
Proof. repeat split; vm_compute; reflexivity. Qed.

(** ** Message validation and the send route (channels.ts,
    [validateMessage]; the route [POST /channels/:id/messages]) *)

Lemma getAgent_run (d : string) (w : World) :
  exists w', Storage.getAgent d w = (Ok (lookup_agent (bucket w) d), w')
             /\ bucket w' = bucket w /\ draw w' = draw w.
Proof.
  unfold Storage.getAgent, lookup_agent, bucket_get, bind, suspend, ret. simpl.
  destruct (bucket w !! KEYS.agent d) as [[a | c | m | i | ids] |];
    simpl; eexists; repeat split; reflexivity.
Qed.

Lemma getChannel_run (id : string) (w : World) :
  exists w', Storage.getChannel id w = (Ok (lookup_channel (bucket w) id), w')
             /\ bucket w' = bucket w /\ draw w' = draw w.
Proof.
  unfold Storage.getChannel, lookup_channel, bucket_get, bind, suspend, ret. simpl.
  destruct (bucket w !! KEYS.channel id) as [[a | c | m | i | ids] |];
    simpl; eexists; repeat split; reflexivity.
Qed.

Lemma requireAgent_run (header : option string) (w : World) :
  exists w', requireAgent header w = (Ok (authenticated (bucket w) header), w')
             /\ bucket w' = bucket w /\ draw w' = draw w.
Proof.
  unfold requireAgent, authenticated.
  destruct (getAgentDID header) as [d |].
  - apply getAgent_run.
  - exists w. repeat split; reflexivity.
Qed.

Lemma validateMessage_participant_first (m : SendMessageRequest)
    (c : PrivateChannel) (sender : string) :
  ~ In sender (ch_participants c) ->
  validateMessage m c sender = invalid "Not a channel participant".
Proof.
  intros H. apply includes_not_In in H. unfold validateMessage.
  now rewrite H.
Qed.

Lemma present_truthy (o : option string) : truthy_str o = true <-> present o.
Proof. apply truthy_str_spec. Qed.

(** What the send route does to the bucket: nothing, or one message put
    under its key together with a 201 response. *)
Lemma postMessage_bucket (env : Env) (header : option string) (cid : string)
    (body : result SendMessageRequest) (w : World) :
  exists r w', postMessage env header cid body w = (Ok r, w')
    /\ ((success r = false /\ bucket w' = bucket w)
        \/ (exists b agent channel msg,
              body = Ok b
              /\ authenticated (bucket w) header = Some agent
              /\ lookup_channel (bucket w) cid = Some channel
              /\ valid (validateMessage b channel (did agent)) = true
              /\ r = {| status := 201; success := true; data := Some msg;
                        error_message := None |}
              /\ bucket w'
                 = <[KEYS.channelMessages (msg_channelId msg) (msg_id msg)
                     := ObjMessage msg]> (bucket w))).
Proof.
  unfold postMessage, bind.
  destruct (requireAgent_run header w) as (w1 & E1 & B1 & _). rewrite E1.
  destruct (authenticated (bucket w) header) as [agent |] eqn:Hauth.
  2:{ do 2 eexists. split; [reflexivity |]. left. split; [reflexivity | exact B1]. }
  destruct (getChannel_run cid w1) as (w2 & E2 & B2 & _). rewrite E2.
  rewrite B1.
  destruct (lookup_channel (bucket w) cid) as [channel |] eqn:Hch.
  2:{ do 2 eexists. split; [reflexivity |]. left. split; [reflexivity |].
      now rewrite B2. }
  simpl. destruct body as [b | e].
  2:{ do 2 eexists. split; [reflexivity |]. left. split; [reflexivity |].
      simpl. now rewrite B2. }
  destruct (valid (validateMessage b channel (did agent))) eqn:Hv; simpl.
  - do 2 eexists. split; [reflexivity |]. right.
    exists b, agent, channel. eexists. repeat split; try assumption.
    simpl. now rewrite B2, B1.
  - do 2 eexists. split; [reflexivity |]. left. split; [reflexivity |].
    simpl. now rewrite B2.
Qed.

(** C8.  [validateMessage] answers "Not a channel participant" for a
    sender outside the channel whatever the request holds; for a
    participant, "Missing required fields" when the channel id, the nonce
    or the ciphertext is missing or empty; otherwise "Channel ID mismatch"
    when the request names another channel; otherwise the request is
    valid.  When validation fails the send route answers 400 with that
    error and leaves the bucket as it was. *)
Theorem C8_validateMessage_order (env : Env) (m : SendMessageRequest)
    (c : PrivateChannel) (sender : string) :
  (~ In sender (ch_participants c) ->
     validateMessage m c sender = invalid "Not a channel participant")
  /\ (In sender (ch_participants c) ->
      ~ (present (sreq_channelId m) /\ present (sreq_nonce m)
         /\ present (sreq_ciphertext m)) ->
      validateMessage m c sender = invalid "Missing required fields")
  /\ (In sender (ch_participants c) ->
      present (sreq_channelId m) -> present (sreq_nonce m) ->
      present (sreq_ciphertext m) ->
      sreq_channelId m <> Some (ch_id c) ->
      validateMessage m c sender = invalid "Channel ID mismatch")
  /\ (In sender (ch_participants c) ->
      present (sreq_channelId m) -> present (sreq_nonce m) ->
      present (sreq_ciphertext m) ->
      sreq_channelId m = Some (ch_id c) ->
      validateMessage m c sender = {| valid := true; error := None |})
  /\ (forall header cid w agent,
        authenticated (bucket w) header = Some agent ->
        lookup_channel (bucket w) cid = Some c ->
        did agent = sender ->
        valid (validateMessage m c sender) = false ->
        exists w',
          postMessage env header cid (Ok m) w
          = (Ok {| status := 400; success := false; data := None;
                   error_message := error (validateMessage m c sender) |}, w')
          /\ bucket w' = bucket w).
Proof.
  split; [apply validateMessage_participant_first |].
  split; [| split; [| split]].
  - intros Hin Hmiss. apply includes_In in Hin. unfold validateMessage.
    rewrite Hin. simpl.
    destruct (truthy_str (sreq_channelId m)) eqn:H1; simpl; [| reflexivity].
    destruct (truthy_str (sreq_nonce m)) eqn:H2; simpl; [| reflexivity].
    destruct (truthy_str (sreq_ciphertext m)) eqn:H3; simpl; [| reflexivity].
    exfalso. apply Hmiss. rewrite <- !present_truthy. auto.
  - intros Hin H1 H2 H3 Hne. apply includes_In in Hin.
    apply present_truthy in H1, H2, H3. unfold validateMessage.
    rewrite Hin, H1, H2, H3. simpl.
    destruct (String.eqb_spec (default "" (sreq_channelId m)) (ch_id c))
      as [Heq | Hneq]; simpl; [| reflexivity].
    exfalso. apply Hne. apply truthy_str_spec in H1.
    destruct H1 as (s & Hs & _). rewrite Hs in *. simpl in Heq. congruence.
  - intros Hin H1 H2 H3 Heq. apply includes_In in Hin.
    apply present_truthy in H1, H2, H3. unfold validateMessage.
    rewrite Hin, H1, H2, H3. simpl. rewrite Heq. simpl.
    now rewrite String.eqb_refl.
  - intros header cid w agent Hauth Hch Hdid Hinvalid.
    unfold postMessage, bind.
    destruct (requireAgent_run header w) as (w1 & E1 & B1 & _).
    rewrite E1, Hauth.
    destruct (getChannel_run cid w1) as (w2 & E2 & B2 & _).
    rewrite E2, B1, Hch. simpl. rewrite Hdid, Hinvalid. simpl.
    eexists. split; [reflexivity |]. simpl. now rewrite B2.
Qed.

Lemma C8_validateMessage_order_witness :
  exists w',
    postMessage env0 (Some outsider_did) "ch-test123" (Ok good_request)
                (world_of chat_bucket)
    = (Ok {| status := 400; success := false; data := None;
             error_message := Some "Not a channel participant" |}, w')
    /\ bucket w' = chat_bucket.
Proof.
  destruct (C8_validateMessage_order env0 good_request ttl_channel outsider_did)
    as (_ & _ & _ & _ & Hroute).
  exact (Hroute (Some outsider_did) "ch-test123" (world_of chat_bucket)
                outsider_agent eq_refl eq_refl eq_refl eq_refl).
Defined.

(** ** Message listing (storage.ts, [getChannelMessages]) *)

Lemma insert_desc_perm (m : EncryptedMessage) (l : list EncryptedMessage) :
  Permutation (insert_desc m l) (m :: l).
Proof.
  induction l as [| y l IH]; simpl.
  - apply Permutation_refl.
  - destruct (msg_timestamp m <? msg_timestamp y).
    + eapply perm_trans; [apply perm_skip, IH | apply perm_swap].
    + apply Permutation_refl.
Qed.

Lemma sort_desc_perm (l : list EncryptedMessage) : Permutation (sort_desc l) l.
Proof.
  induction l as [| m l IH]; simpl.
  - apply perm_nil.
  - eapply perm_trans; [apply insert_desc_perm | now apply perm_skip].
Qed.

Lemma insert_desc_sorted (m : EncryptedMessage) (l : list EncryptedMessage) :
  StronglySorted newer_first l -> StronglySorted newer_first (insert_desc m l).
Proof.
  induction l as [| y l IH]; simpl; intros Hs.
  - constructor; constructor.
  - inversion Hs as [| ? ? Hl Hy]; subst.
    destruct (Z.ltb_spec (msg_timestamp m) (msg_timestamp y)) as [Hlt | Hge].
    + constructor; [now apply IH |].
      rewrite List.Forall_forall. intros x Hx.
      apply (Permutation_in _ (insert_desc_perm m l)) in Hx.
      destruct Hx as [<- | Hx].
      * unfold newer_first. lia.
      * rewrite List.Forall_forall in Hy. now apply Hy.
    + constructor; [exact Hs |].
      constructor; [exact Hge |].
      rewrite List.Forall_forall in *. intros x Hx. specialize (Hy x Hx).
      unfold newer_first in *. lia.
Qed.

Lemma sort_desc_sorted (l : list EncryptedMessage) :
  StronglySorted newer_first (sort_desc l).
Proof.
  induction l as [| m l IH]; simpl.
  - constructor.
  - now apply insert_desc_sorted.
Qed.






Lemma collect_run (options : option ListOptions) (keys : list string)
    (w : World) :
  exists w', Storage.collect options keys w
             = (Ok (kept_messages options (bucket w) keys), w')
             /\ bucket w' = bucket w /\ draw w' = draw w.
Proof.
  revert w. induction keys as [| key keys IH]; intros w; simpl.
  - exists w. repeat split; reflexivity.
  - unfold bind, bucket_get, suspend, message_at. simpl.
    set (w1 := {| bucket := bucket w; tick := S (tick w); draw := draw w |}).
    destruct (bucket w !! key) as [[a | c | m | i | ids] |]; simpl;
      try (destruct (IH w1) as (w' & E & B & D); exists w'; now rewrite E).
    set (w2 := {| bucket := bucket w; tick := S (S (tick w)); draw := draw w |}).
    destruct (IH w2) as (w' & E & B & D).
    destruct (skipped options m).
    + exists w'. now rewrite E.
    + exists w'. unfold ret. now rewrite E.
Qed.

Lemma kept_messages_spec (options : option ListOptions)
    (b : gmap string Object) (keys : list string) (m : EncryptedMessage) :
  In m (kept_messages options b keys)
  <-> skipped options m = false
      /\ exists key, In key keys /\ b !! key = Some (ObjMessage m).
Proof.
  induction keys as [| key keys IH]; simpl.
  - split; [intros [] | intros (_ & k & [] & _)].
  - unfold message_at at 1.
    destruct (b !! key) as [[a | c | m' | i | ids] |] eqn:Hkey;
      try (rewrite IH; split;
           [ intros (Hs & k & Hk & Hb); split; [exact Hs |]; exists k; auto
           | intros (Hs & k & [-> | Hk] & Hb);
             [ congruence | split; [exact Hs |]; exists k; auto ] ]).
    destruct (skipped options m') eqn:Hskip.
    + rewrite IH. split.
      * intros (Hs & k & Hk & Hb). split; [exact Hs |]. exists k. auto.
      * intros (Hs & k & [-> | Hk] & Hb).
        -- rewrite Hkey in Hb. inversion Hb; subst. congruence.
        -- split; [exact Hs |]. exists k. auto.
    + simpl. rewrite IH. split.
      * intros [<- | (Hs & k & Hk & Hb)].
        -- split; [exact Hskip |]. exists key. auto.
        -- split; [exact Hs |]. exists k. auto.
      * intros (Hs & k & [-> | Hk] & Hb).
        -- rewrite Hkey in Hb. inversion Hb; subst. now left.
        -- right. split; [exact Hs |]. exists k. auto.
Qed.


Lemma listed_keys_spec (b : gmap string Object) (prefix key : string)
    (o : Object) :
  b !! key = Some o -> String.prefix prefix key = true ->
  In key (listed_keys b prefix).
Proof.
  intros Hb Hp. unfold listed_keys. apply filter_In. split; [| exact Hp].
  apply in_map_iff. exists (key, o). split; [reflexivity |].
  apply list_elem_of_In. now apply elem_of_map_to_list.
Qed.

Lemma listed_keys_prefix (b : gmap string Object) (prefix key : string) :
  In key (listed_keys b prefix) -> String.prefix prefix key = true.
Proof. unfold listed_keys. rewrite filter_In. tauto. Qed.

Lemma getChannelMessages_run (channelId : string)
    (options : option ListOptions) (w : World) :
  exists w', Storage.getChannelMessages channelId options w
             = (Ok (listing (bucket w) channelId options), w')
             /\ bucket w' = bucket w /\ draw w' = draw w.
Proof.
  unfold Storage.getChannelMessages, listing, bind, bucket_list, suspend.
  simpl.
  set (w1 := {| bucket := bucket w; tick := S (tick w); draw := draw w |}).
  destruct (collect_run options
              (List.filter (String.prefix (KEYS.channelMessagesList channelId))
                           (map fst (map_to_list (bucket w)))) w1)
    as (w' & E & B & D).
  rewrite E. simpl. unfold listed_keys.
  destruct (truthy_num (option_field opt_limit options));
    exists w'; repeat split; assumption.
Qed.




(** ** TTL and statistics (channels.ts, [isMessageExpired],
    [getChannelStats]) *)

Lemma isMessageExpired_spec (now : Z) (m : EncryptedMessage)
    (c : PrivateChannel) (seconds : Z) :
  ttl c = Some seconds -> seconds <> 0 ->
  (isMessageExpired now m c = true <-> now - msg_timestamp m > seconds * 1000).
Proof.
  intros Httl Hne. unfold isMessageExpired. rewrite Httl. simpl.
  destruct (Z.eqb_spec seconds 0) as [-> | _]; [contradiction |]. simpl.
  rewrite Z.ltb_lt. lia.
Qed.

Lemma isMessageExpired_without_ttl (now : Z) (m : EncryptedMessage)
    (c : PrivateChannel) :
  ttl c = None \/ ttl c = Some 0 -> isMessageExpired now m c = false.
Proof.
  unfold isMessageExpired. intros [H | H]; now rewrite H.
Qed.

Lemma fold_max_bound (xs : list Z) (x : Z) :
  x <= fold_left Z.max xs x
  /\ (forall y, In y xs -> y <= fold_left Z.max xs x)
  /\ (fold_left Z.max xs x = x \/ In (fold_left Z.max xs x) xs).
Proof.
  revert x. induction xs as [| y xs IH]; intros x; simpl.
  - split; [lia | split; [intros y [] | now left]].
  - destruct (IH (Z.max x y)) as (Hge & Hall & Hin).
    split; [lia |]. split.
    + intros z [<- | Hz]; [lia | now apply Hall].
    + destruct Hin as [Heq | Hin]; [| right; now right].
      rewrite Heq. destruct (Z.max_spec x y) as [[_ ->] | [_ ->]]; auto.
Qed.

(** The statistics count the messages that are not expired, and the last
    activity is the greatest of their timestamps. *)
Lemma getChannelStats_spec (now : Z) (c : PrivateChannel)
    (messages : list EncryptedMessage) :
  let live :=
    List.filter (fun m => negb (isMessageExpired now m c)) messages in
  messageCount (getChannelStats now c messages) = Z.of_nat (List.length live)
  /\ (live = [] -> lastActivity (getChannelStats now c messages) = None)
  /\ (live <> [] ->
      exists t, lastActivity (getChannelStats now c messages) = Some t
                /\ (exists m, In m live /\ msg_timestamp m = t)
                /\ (forall m, In m live -> msg_timestamp m <= t)).
Proof.
  intros live. unfold getChannelStats. fold live. simpl.
  split; [reflexivity |]. split.
  - intros ->. reflexivity.
  - intros Hne. destruct live as [| m0 rest]; [congruence |]. simpl.
    destruct (fold_max_bound (map msg_timestamp rest) (msg_timestamp m0))
      as (Hge & Hall & Hin).
    eexists. split; [reflexivity |]. split.
    + destruct Hin as [Heq | Hin].
      * exists m0. split; [now left | now rewrite Heq].
      * apply in_map_iff in Hin. destruct Hin as (m & Hm & Hin).
        exists m. split; [now right | exact Hm].
    + intros m [<- | Hm]; [exact Hge |].
      apply Hall. now apply in_map.
Qed.

(** C3, at the channel of the statistics test (TTL 60 s, one message two
    minutes old, one message of this instant).  The old message is
    expired and the statistics leave it out, but the message listing, in
    storage and through the route, still returns it. *)
Theorem C3_listing_returns_expired :
  isMessageExpired now0 old_message ttl_channel = true
  /\ isMessageExpired now0 new_message ttl_channel = false
  /\ getChannelStats now0 ttl_channel [new_message; old_message]
     = {| participantCount := 2; messageCount := 1;
          lastActivity := Some now0; isNFTGated := false |}
  /\ fst (Storage.getChannelMessages "ch-test123" None (world_of chat_bucket))
     = Ok [new_message; old_message]
  /\ fst (getMessages (Some alice_did) "ch-test123" None None None
            (world_of chat_bucket))
     = Ok {| status := 200; success := true;
             data := Some [new_message; old_message];
             error_message := None |}.
Proof. repeat split; vm_compute; reflexivity. Qed.

(** ** Channel creation (channels.ts, [createChannel]) *)

Lemma generateId_run (env : Env) (prefix : string) (w : World) :
  exists id w', generateId env prefix w = (Ok id, w') /\ bucket w' = bucket w.
Proof.
  unfold generateId, bind, getRandomValues, ret. simpl.
  do 2 eexists. split; reflexivity.
Qed.

Lemma encrypt_run (env : Env) (key : list Z) (priv : string)
    (a : MoltbookAgent) (w : World) :
  can_wrap env priv a ->
  exists wrapped w',
    encryptChannelKeyForRecipient env key (publicKey a) priv w
    = (Ok wrapped, w')
    /\ bucket w' = bucket w.
Proof.
  intros (Hpriv & Hpub & Hderive).
  unfold encryptChannelKeyForRecipient, deriveSharedSecret, bind.
  rewrite Hpriv, Hpub. simpl.
  destruct (subtle_derive env priv (publicKey a)) as [secret | e];
    [| discriminate].
  simpl. do 2 eexists. split; reflexivity.
Qed.

Lemma encrypt_bad_private_key (env : Env) (key : list Z) (priv pub : string)
    (w : World) :
  atob_ok priv = false ->
  encryptChannelKeyForRecipient env key pub priv w
  = (Err "InvalidCharacterError", w).
Proof.
  intros H. unfold encryptChannelKeyForRecipient, deriveSharedSecret, bind.
  now rewrite H.
Qed.

Lemma verify_participants_ok (dids : list string) (w : World) :
  (forall d, In d dids -> lookup_agent (bucket w) d <> None) ->
  exists w', verify_participants Storage.getAgent dids w = (Ok tt, w')
             /\ bucket w' = bucket w.
Proof.
  revert w. induction dids as [| d dids IH]; intros w Hall; simpl.
  - exists w. split; reflexivity.
  - unfold bind. destruct (getAgent_run d w) as (w1 & E1 & B1 & _).
    rewrite E1.
    destruct (lookup_agent (bucket w) d) as [a |] eqn:Ha.
    + destruct (IH w1) as (w' & E & B).
      { intros d' Hd'. rewrite B1. apply Hall. now right. }
      exists w'. split; [exact E | congruence].
    + exfalso. apply (Hall d); [now left | exact Ha].
Qed.

Lemma verify_participants_missing (dids : list string) (w : World) (d : string) :
  In d dids -> lookup_agent (bucket w) d = None ->
  exists d0 w',
    verify_participants Storage.getAgent dids w
    = (Err ("Agent not found: " +:+ d0), w')
    /\ In d0 dids /\ lookup_agent (bucket w) d0 = None.
Proof.
  revert w. induction dids as [| x dids IH]; intros w Hin Hnone; simpl.
  - destruct Hin.
  - unfold bind. destruct (getAgent_run x w) as (w1 & E1 & B1 & _).
    rewrite E1.
    destruct (lookup_agent (bucket w) x) as [a |] eqn:Ha.
    + destruct Hin as [-> | Hin]; [congruence |].
      destruct (IH w1 Hin) as (d0 & w' & E & Hd0 & Hn0).
      { now rewrite B1. }
      exists d0, w'. split; [exact E |]. split; [now right |].
      now rewrite <- B1.
    + exists x, w1. split; [reflexivity |]. split; [now left | exact Ha].
Qed.

Lemma create_invitations_run (env : Env) (channelId creator priv : string)
    (key : list Z) (dids : list string) (w : World) :
  (forall d, In d dids -> d <> creator ->
     exists a, lookup_agent (bucket w) d = Some a /\ can_wrap env priv a) ->
  exists invs w',
    create_invitations env Storage.getAgent channelId creator priv key dids w
    = (Ok invs, w')
    /\ bucket w' = bucket w
    /\ map inv_invitee invs = List.filter (not_creator creator) dids
    /\ Forall (fresh_invitation channelId creator) invs.
Proof.
  revert w. induction dids as [| d dids IH]; intros w Hall; simpl.
  - exists [], w. repeat split; constructor.
  - unfold not_creator at 1.
    destruct (String.eqb_spec d creator) as [-> | Hne]; simpl.
    + apply IH. intros d' Hd'. apply Hall. now right.
    + destruct (Hall d (or_introl eq_refl) Hne) as (a & Ha & Hwrap).
      unfold bind at 1. destruct (getAgent_run d w) as (w1 & E1 & B1 & _).
      rewrite E1, Ha.
      unfold bind at 1.
      destruct (encrypt_run env key priv a w1 Hwrap) as (wrapped & w2 & E2 & B2).
      rewrite E2.
      unfold bind at 1.
      destruct (generateId_run env "inv" w2) as (id & w3 & E3 & B3).
      rewrite E3.
      unfold bind at 1, Date_now at 1.
      unfold bind at 1.
      destruct (IH w3) as (invs & w' & E & B & Hmap & Hfresh).
      { intros d' Hd' Hne'. rewrite B3, B2, B1. apply Hall; [now right | exact Hne']. }
      rewrite E. unfold ret.
      do 2 eexists. split; [reflexivity |].
      split; [congruence |]. split.
      * simpl. now rewrite Hmap.
      * constructor; [| exact Hfresh].
        unfold fresh_invitation, SEVEN_DAYS. simpl. repeat split; try lia.
Qed.

Lemma all_participants_In (ps : list string) (creator d : string) :
  In d (all_participants ps creator) <-> d = creator \/ In d ps.
Proof.
  unfold all_participants.
  destruct (includes ps creator) eqn:Hinc; simpl.
  - apply includes_In in Hinc. split; [now right |].
    intros [-> | H]; assumption.
  - split; intros [H | H]; auto.
Qed.

Lemma all_participants_NoDup (ps : list string) (creator : string) :
  List.NoDup ps -> List.NoDup (all_participants ps creator).
Proof.
  intros Hnd. unfold all_participants.
  destruct (includes ps creator) eqn:Hinc; [exact Hnd |].
  constructor; [now apply includes_not_In | exact Hnd].
Qed.

Lemma createChannel_run (env : Env) (request : CreateChannelRequest)
    (creator priv : string) (ps : list string) (w : World) :
  creq_participants request = Some ps -> ps <> [] ->
  (forall d, In d (all_participants ps creator) ->
     exists a, lookup_agent (bucket w) d = Some a
               /\ (d <> creator -> can_wrap env priv a)) ->
  exists r w',
    createChannel env Storage.getAgent request creator priv w = (Ok r, w')
    /\ bucket w' = bucket w
    /\ ch_participants (resp_channel r) = all_participants ps creator
    /\ ch_createdBy (resp_channel r) = creator
    /\ ch_metadata (resp_channel r) = creq_metadata request
    /\ map inv_invitee (resp_invitations r)
       = List.filter (not_creator creator) (all_participants ps creator)
    /\ Forall (fresh_invitation (ch_id (resp_channel r)) creator)
              (resp_invitations r).
Proof.
  intros Hps Hne Hall. unfold createChannel. rewrite Hps.
  destruct ps as [| p ps']; [congruence |].
  set (all := all_participants (p :: ps') creator) in *.
  unfold bind at 1.
  destruct (verify_participants_ok all w) as (w1 & E1 & B1).
  { intros d Hd. destruct (Hall d Hd) as (a & Ha & _). congruence. }
  rewrite E1.
  unfold bind at 1, generateChannelKey, bind at 1, getRandomValues at 1.
  unfold bind at 1, suspend at 1, ret at 1, bind at 1, suspend at 1.
  unfold bind at 1.
  match goal with
  | |- context [generateId env "ch" ?w0] =>
      destruct (generateId_run env "ch" w0) as (id & w3 & E3 & B3)
  end.
  rewrite E3.
  unfold bind at 1, Date_now at 1.
  unfold bind at 1. cbn [ch_id].
  match goal with
  | |- context [create_invitations env Storage.getAgent ?cid creator priv ?key all w3] =>
      destruct (create_invitations_run env cid creator priv key all w3)
        as (invs & w' & E & B & Hmap & Hfresh)
  end.
  { intros d Hd Hdne. destruct (Hall d Hd) as (a & Ha & Hwrap).
    exists a. split; [| now apply Hwrap].
    rewrite B3. simpl. rewrite B1. exact Ha. }
  rewrite E. unfold ret.
  do 2 eexists. split; [reflexivity |].
  split; [rewrite B, B3; simpl; exact B1 |].
  simpl. repeat split; assumption.
Qed.

(** C7, as the code has it.  [createChannel] fails on a missing or empty
    invitee list and when a DID of the participant list (the creator
    included) has no agent in the store.  Otherwise, when the channel key
    can be wrapped for every participant other than the creator and the
    request names no invitee twice, it returns a channel whose participants
    are the creator and the invitees, with exactly one invitation for each
    participant other than the creator, each pending, issued by the
    creator for this channel, and expiring seven days after its creation
    time. *)
Theorem C7_createChannel_outcomes (env : Env) (request : CreateChannelRequest)
    (creator priv : string) (w : World) :
  let outcome := fst (createChannel env Storage.getAgent request creator priv w) in
  (creq_participants request = None \/ creq_participants request = Some [] ->
     outcome = Err "At least one participant is required")
  /\ (forall ps d,
        creq_participants request = Some ps -> ps <> [] ->
        In d (all_participants ps creator) ->
        lookup_agent (bucket w) d = None ->
        exists d0, outcome = Err ("Agent not found: " +:+ d0)
                   /\ In d0 (all_participants ps creator)
                   /\ lookup_agent (bucket w) d0 = None)
  /\ (forall ps,
        creq_participants request = Some ps -> ps <> [] -> List.NoDup ps ->
        (forall d, In d (all_participants ps creator) ->
           exists a, lookup_agent (bucket w) d = Some a
                     /\ (d <> creator -> can_wrap env priv a)) ->
        exists r,
          outcome = Ok r
          /\ In creator (ch_participants (resp_channel r))
          /\ (forall d, In d (ch_participants (resp_channel r))
                        <-> d = creator \/ In d ps)
          /\ List.NoDup (map inv_invitee (resp_invitations r))
          /\ (forall d, In d (map inv_invitee (resp_invitations r))
                        <-> In d (ch_participants (resp_channel r))
                            /\ d <> creator)
          /\ Forall (fresh_invitation (ch_id (resp_channel r)) creator)
                    (resp_invitations r)).
Proof.
  intros outcome. split; [| split].
  - unfold outcome, createChannel. intros [-> | ->]; reflexivity.
  - intros ps d Hps Hne Hd Hnone. unfold outcome, createChannel.
    rewrite Hps. destruct ps as [| p ps']; [congruence |].
    unfold bind at 1.
    destruct (verify_participants_missing _ w d Hd Hnone)
      as (d0 & w' & E & Hd0 & Hn0).
    rewrite E. exists d0. repeat split; assumption.
  - intros ps Hps Hne Hnd Hall.
    destruct (createChannel_run env request creator priv ps w Hps Hne Hall)
      as (r & w' & E & _ & Hparts & _ & _ & Hmap & Hfresh).
    exists r. unfold outcome. rewrite E. split; [reflexivity |].
    rewrite Hparts, Hmap.
    split; [apply all_participants_In; now left |].
    split; [intros d; apply all_participants_In |].
    split; [apply List.NoDup_filter, all_participants_NoDup, Hnd |].
    split; [| exact Hfresh].
    intros d. rewrite filter_In. unfold not_creator.
    rewrite negb_true_iff, String.eqb_neq. tauto.
Qed.

Lemma C7_createChannel_outcomes_witness :
  exists r,
    fst (createChannel env0 Storage.getAgent alice_request creator_did
           creator_private_key (world_of agents_bucket)) = Ok r
    /\ Forall (fresh_invitation (ch_id (resp_channel r)) creator_did)
              (resp_invitations r).
Proof.
  destruct (C7_createChannel_outcomes env0 alice_request creator_did
              creator_private_key (world_of agents_bucket)) as (_ & _ & Hok).
  destruct (Hok [alice_did]) as (r & E & _ & _ & _ & _ & Hfresh).
  - reflexivity.
  - discriminate.
  - constructor; [intros [] | constructor].
  - intros d Hd. apply all_participants_In in Hd.
    destruct Hd as [-> | [<- | []]].
    + exists creator_agent. split; [reflexivity |]. intros Hne. now elim Hne.
    + exists alice_agent. split; [reflexivity |]. intros _.
      repeat split; reflexivity.
  - exists r. split; assumption.
Defined.

(** C7 as stated fails in two ways: with every participant registered, a
    private key that is not base64 makes [createChannel] fail, and a
    request that names an invitee twice gets two invitations for that
    invitee. *)
Lemma C7_wrap_failure_and_double_invitation :
  (lookup_agent agents_bucket creator_did = Some creator_agent
   /\ lookup_agent agents_bucket alice_did = Some alice_agent
   /\ fst (createChannel env0 Storage.getAgent alice_request creator_did "!"
             (world_of agents_bucket))
      = Err "InvalidCharacterError")
  /\ (exists r,
        fst (createChannel env0 Storage.getAgent dup_request creator_did
               creator_private_key (world_of agents_bucket)) = Ok r
        /\ map inv_invitee (resp_invitations r) = [alice_did; alice_did]).
Proof.
  split.
  - repeat split; vm_compute; reflexivity.
  - eexists. split; [vm_compute; reflexivity | reflexivity].
Qed.

(** ** The participant list (channels.ts, [createChannel],
    [addParticipant], [removeParticipant]) *)

Lemma NoDup_snoc {A} (l : list A) (x : A) :
  List.NoDup l -> ~ In x l -> List.NoDup (l ++ [x]).
Proof.
  induction l as [| y l IH]; simpl; intros Hnd Hx.
  - constructor; [intros [] | constructor].
  - inversion Hnd as [| ? ? Hy Hl]; subst. constructor.
    + rewrite in_app_iff. simpl. intros [H | [H | []]]; [contradiction |].
      apply Hx. now left.
    + apply IH; [exact Hl |]. intros H. apply Hx. now right.
Qed.

Lemma addParticipant_keeps_participants_ok (c c' : PrivateChannel) (d : string) :
  participants_ok c -> ch_participants c <> [] ->
  addParticipant c d = Ok c' -> participants_ok c'.
Proof.
  intros [Hnd Hmax] Hne. unfold addParticipant.
  destruct (includes (ch_participants c) d) eqn:Hinc.
  - intros H. inversion H; subst. now split.
  - destruct (truthy_num (maxParticipants c)) eqn:Htruthy; simpl.
    + destruct (Z.leb_spec (default 0 (maxParticipants c))
                  (Z.of_nat (List.length (ch_participants c)))) as [Hle | Hgt];
        [discriminate |].
      intros H. inversion H; subst. unfold participants_ok. simpl. split.
      * apply NoDup_snoc; [exact Hnd | now apply includes_not_In].
      * intros limit Hlim. unfold maxParticipants in *. simpl in Hlim.
        rewrite Hlim in Hgt. simpl in Hgt. rewrite length_app. simpl. lia.
    + intros H. inversion H; subst. unfold participants_ok. simpl. split.
      * apply NoDup_snoc; [exact Hnd | now apply includes_not_In].
      * intros limit Hlim. unfold maxParticipants in *. simpl in Hlim.
        rewrite Hlim in Htruthy. simpl in Htruthy.
        apply negb_false_iff, Z.eqb_eq in Htruthy. subst limit.
        specialize (Hmax 0 Hlim).
        destruct (ch_participants c); [congruence | simpl in Hmax; lia].
Qed.

Lemma filter_length_le {A} (f : A -> bool) (l : list A) :
  (List.length (List.filter f l) <= List.length l)%nat.
Proof.
  induction l as [| x l IH]; simpl; [lia |].
  destruct (f x); simpl; lia.
Qed.

Lemma removeParticipant_keeps_participants_ok (c c' : PrivateChannel)
    (d remover : string) :
  participants_ok c ->
  removeParticipant c d remover = Ok c' -> participants_ok c'.
Proof.
  intros [Hnd Hmax]. unfold removeParticipant.
  destruct (_ && _); [discriminate |].
  destruct (String.eqb d (ch_createdBy c)); [discriminate |].
  intros H. inversion H; subst. unfold participants_ok. simpl. split.
  - now apply List.NoDup_filter.
  - intros limit Hlim. specialize (Hmax limit Hlim).
    pose proof (filter_length_le
                  (fun p => negb (String.eqb p d)) (ch_participants c)).
    lia.
Qed.

Lemma removeParticipant_keeps_creator (c c' : PrivateChannel)
    (d remover : string) :
  In (ch_createdBy c) (ch_participants c) ->
  removeParticipant c d remover = Ok c' ->
  ch_createdBy c' = ch_createdBy c /\ In (ch_createdBy c') (ch_participants c').
Proof.
  intros Hin. unfold removeParticipant.
  destruct (_ && _); [discriminate |].
  destruct (String.eqb_spec d (ch_createdBy c)) as [| Hne]; [discriminate |].
  intros H. inversion H; subst. simpl. split; [reflexivity |].
  apply filter_In. split; [exact Hin |].
  apply negb_true_iff, String.eqb_neq. congruence.
Qed.

(** When the request names distinct invitees and the list fits the
    maximum, the new channel satisfies the predicate. *)
Lemma createChannel_participants_ok (env : Env) (request : CreateChannelRequest)
    (creator priv : string) (ps : list string) (w : World)
    (r : CreateChannelResponse) (w' : World) :
  creq_participants request = Some ps -> List.NoDup ps ->
  (forall m limit, creq_metadata request = Some m ->
     meta_maxParticipants m = Some limit ->
     Z.of_nat (List.length (all_participants ps creator)) <= limit) ->
  createChannel env Storage.getAgent request creator priv w = (Ok r, w') ->
  ch_participants (resp_channel r) = all_participants ps creator
  /\ participants_ok (resp_channel r).
Proof.
  intros Hps Hnd Hfit. unfold createChannel. rewrite Hps.
  destruct ps as [| p ps']; [discriminate |].
  set (all := all_participants (p :: ps') creator) in *.
  unfold bind at 1.
  destruct (verify_participants Storage.getAgent all w) as [[[] | e] w1];
    [| discriminate].
  unfold bind at 1, generateChannelKey, bind at 1, getRandomValues at 1.
  unfold bind at 1, suspend at 1, ret at 1, bind at 1, suspend at 1.
  unfold bind at 1.
  match goal with
  | |- context [generateId env "ch" ?w0] =>
      destruct (generateId_run env "ch" w0) as (id & w3 & E3 & B3)
  end.
  rewrite E3. unfold bind at 1, Date_now at 1. unfold bind at 1.
  match goal with
  | |- context [create_invitations ?e ?g ?cid ?cr ?pk ?key ?l ?w0] =>
      destruct (create_invitations e g cid cr pk key l w0) as [[invs | e'] w4]
  end; [| discriminate].
  unfold ret. intros H. inversion H; subst. simpl.
  split; [reflexivity |]. unfold participants_ok. simpl. split.
  - now apply all_participants_NoDup.
  - unfold maxParticipants. simpl. intros limit Hlim.
    destruct (creq_metadata request) as [m |] eqn:Hm; [| discriminate].
    now apply (Hfit m limit).
Qed.

(** C2, at a request the route accepts: the invitee is named twice and the
    metadata allow one participant.  The channel [createChannel] returns
    lists the invitee twice and has three participants. *)
Theorem C2_createChannel_duplicates_over_max :
  exists r,
    fst (createChannel env0 Storage.getAgent dup_request creator_did
           creator_private_key (world_of agents_bucket)) = Ok r
    /\ ch_participants (resp_channel r) = [creator_did; alice_did; alice_did]
    /\ ~ List.NoDup (ch_participants (resp_channel r))
    /\ maxParticipants (resp_channel r) = Some 1
    /\ ~ participants_ok (resp_channel r).
Proof.
  eexists. split; [vm_compute; reflexivity |]. simpl.
  assert (Hdup : ~ List.NoDup [creator_did; alice_did; alice_did]).
  { intros H. inversion H as [| ? ? _ H1]; subst.
    inversion H1 as [| ? ? Hnotin _]; subst.
    apply Hnotin. now left. }
  split; [reflexivity |]. split; [exact Hdup |]. split; [reflexivity |].
  intros [Hnd _]. exact (Hdup Hnd).
Qed.

(** * Further properties of the privacy layer *)

(** ** DID parsing and validation (did.ts, [parseDID], [isValidDID]) *)

Lemma split_nonempty (sep : ascii) (s : string) : split sep s <> [].
Proof.
  destruct s as [| c s]; simpl; [discriminate |].
  destruct (Ascii.eqb c sep); [discriminate |].
  destruct (split sep s); discriminate.
Qed.

Lemma join_split (sep : ascii) (s : string) : join sep (split sep s) = s.
Proof.
  induction s as [| c s IH]; simpl; [reflexivity |].
  destruct (Ascii.eqb_spec c sep) as [-> | Hne].
  - pose proof (split_nonempty sep s) as Hs.
    destruct (split sep s) as [| p ps]; [congruence |].
    simpl in *. now rewrite IH.
  - pose proof (split_nonempty sep s) as Hs.
    destruct (split sep s) as [| p ps]; [congruence |].
    destruct ps as [| q ps]; simpl in *; now rewrite <- IH.
Qed.

Lemma split_parts_clean (sep : ascii) (s p : string) :
  In p (split sep s) -> ~ In sep (list_ascii_of_string p).
Proof.
  revert p. induction s as [| c s IH]; simpl; intros p.
  - intros [<- | []]. simpl. tauto.
  - destruct (Ascii.eqb_spec c sep) as [-> | Hne].
    + intros [<- | Hp]; [simpl; tauto | now apply IH].
    + pose proof (split_nonempty sep s) as Hs.
      destruct (split sep s) as [| q qs]; [congruence |].
      intros [<- | Hp].
      * simpl. intros [Heq | Hin]; [congruence |].
        apply (IH q); [now left | exact Hin].
      * apply IH. now right.
Qed.

Lemma split_clean (sep : ascii) (s : string) :
  ~ In sep (list_ascii_of_string s) -> split sep s = [s].
Proof.
  induction s as [| c s IH]; simpl; intros Hs; [reflexivity |].
  destruct (Ascii.eqb_spec c sep) as [-> | Hne]; [tauto |].
  rewrite IH; [reflexivity | tauto].
Qed.

Lemma split_append (sep : ascii) (a b : string) :
  ~ In sep (list_ascii_of_string a) ->
  split sep (a +:+ String sep b) = a :: split sep b.
Proof.
  induction a as [| c a IH]; simpl; intros Ha.
  - now rewrite Ascii.eqb_refl.
  - destruct (Ascii.eqb_spec c sep) as [-> | Hne]; [tauto |].
    rewrite IH; [reflexivity | tauto].
Qed.

Lemma prefix_cons (a b : ascii) (s1 s2 : string) :
  String.prefix (String a s1) (String b s2)
  = Ascii.eqb a b && String.prefix s1 s2.
Proof.
  cbn [String.prefix]. destruct (ascii_dec a b) as [-> | Hne].
  - now rewrite Ascii.eqb_refl.
  - destruct (Ascii.eqb_spec a b); [contradiction | reflexivity].
Qed.

Lemma prefix_nil_r (a : ascii) (s : string) :
  String.prefix (String a s) EmptyString = false.
Proof. reflexivity. Qed.

Lemma prefix_append (p s : string) : String.prefix p (p +:+ s) = true.
Proof.
  induction p as [| c p IH].
  - now destruct s.
  - change (String c p +:+ s) with (String c (p +:+ s)).
    now rewrite prefix_cons, Ascii.eqb_refl, IH.
Qed.

Lemma prefix_did_head (x rest : string) :
  no_colon x -> String.prefix "did:" (x +:+ String ":"%char rest) = true ->
  x = "did".
Proof.
  unfold no_colon. intros Hx Hp.
  destruct x as [| c0 [| c1 [| c2 [| c3 x]]]];
    repeat match type of Hp with
           | context [String ?c ?a +:+ ?b] =>
               change (String c a +:+ b) with (String c (a +:+ b)) in Hp
           | context [EmptyString +:+ ?b] =>
               change (EmptyString +:+ b) with b in Hp
           end;
    repeat rewrite prefix_cons in Hp;
    repeat rewrite andb_true_iff in Hp;
    repeat rewrite Ascii.eqb_eq in Hp;
    simpl in Hx.
  - destruct Hp as [Hp _]. discriminate Hp.
  - destruct Hp as (_ & Hp & _). discriminate Hp.
  - destruct Hp as (_ & _ & Hp & _). discriminate Hp.
  - destruct Hp as (H0 & H1 & H2 & _). now subst.
  - destruct Hp as (_ & _ & _ & H3 & _). subst. tauto.
Qed.

(** [parseDID] accepts exactly the strings [did:<method>:<identifier>]
    whose method and identifier hold no colon, and returns these two. *)
Lemma parseDID_spec (d : string) (p : ParsedDID) :
  parseDID d = Some p
  <-> d = "did:" +:+ method p +:+ ":" +:+ identifier p
      /\ no_colon (method p) /\ no_colon (identifier p).
Proof.
  unfold parseDID. split.
  - destruct (String.prefix "did:" d) eqn:Hpre; simpl; [| discriminate].
    pose proof (join_split ":"%char d) as Hjoin.
    pose proof (split_parts_clean ":"%char d) as Hclean.
    destruct (split ":"%char d) as [| x [| m [| i [| ? ?]]]]; try discriminate.
    intros H. inversion H; subst p; clear H. simpl in *.
    assert (Hx : x = "did").
    { apply (prefix_did_head x (m +:+ String ":"%char i)).
      - apply Hclean. now left.
      - now rewrite Hjoin. }
    subst x. split; [now rewrite <- Hjoin |].
    split; apply Hclean; simpl; auto.
  - intros (-> & Hm & Hi).
    rewrite (prefix_append "did:"). simpl negb. cbv iota.
    change ("did:" +:+ method p +:+ ":" +:+ identifier p)
      with ("did" +:+ String ":"%char (method p +:+ String ":"%char (identifier p))).
    rewrite split_append by (simpl; intros [H | [H | [H | []]]]; discriminate H).
    rewrite split_append by exact Hm.
    rewrite split_clean by exact Hi.
    now destruct p.
Qed.

(** X1.  [parseDID] and the DID syntax are inverse to each other: a
    string built as [did:<method>:<identifier>] from colon-free parts
    parses to these parts, and every string that parses is built that
    way.  A fourth part, a missing part or another scheme is rejected. *)
Theorem parseDID_roundtrip (m i : string) :
  (no_colon m -> no_colon i ->
     parseDID ("did:" +:+ m +:+ ":" +:+ i)
     = Some {| method := m; identifier := i |})
  /\ (forall d p, parseDID d = Some p ->
        d = "did:" +:+ method p +:+ ":" +:+ identifier p
        /\ no_colon (method p) /\ no_colon (identifier p))
  /\ (forall d, String.prefix "did:" d = false -> parseDID d = None)
  /\ (forall d, List.length (split ":"%char d) <> 3%nat -> parseDID d = None).
Proof.
  split; [| split; [| split]].
  - intros Hm Hi.
    apply (parseDID_spec _ {| method := m; identifier := i |}). simpl. auto.
  - intros d p H. now apply parseDID_spec.
  - intros d H. unfold parseDID. now rewrite H.
  - intros d H. unfold parseDID.
    destruct (String.prefix "did:" d); simpl; [| reflexivity].
    destruct (split ":"%char d) as [| x [| y [| z [| ? ?]]]];
      simpl in H; try reflexivity; congruence.
Qed.

Lemma parseDID_roundtrip_witness :
  parseDID ("did:" +:+ "key" +:+ ":" +:+ "z6Mk")
  = Some {| method := "key"; identifier := "z6Mk" |}.
Proof.
  destruct (parseDID_roundtrip "key" "z6Mk") as [Hparse _].
  apply Hparse; unfold no_colon; simpl;
    intros H; repeat destruct H as [H | H]; try discriminate H; exact H.
Defined.

Lemma is_hex32_no_colon (i : string) : is_hex32 i = true -> no_colon i.
Proof.
  unfold is_hex32, no_colon. rewrite andb_true_iff, forallb_forall.
  intros [_ Hall] Hin. specialize (Hall _ Hin). discriminate Hall.
Qed.

(** X2.  [isValidDID] accepts exactly the strings made of the prefix
    [did:moltbook:] and 32 characters out of [0-9a-f]. *)
Theorem isValidDID_spec (d : string) :
  isValidDID d = true
  <-> exists i, d = "did:moltbook:" +:+ i
                /\ String.length i = 32%nat
                /\ (forall c, In c (list_ascii_of_string i) ->
                      is_lower_hex c = true).
Proof.
  unfold isValidDID. split.
  - destruct (parseDID d) as [p |] eqn:Hp; [| discriminate].
    apply parseDID_spec in Hp. destruct Hp as (Hd & _ & _).
    destruct (String.eqb_spec (method p) DID_METHOD) as [Hm | _]; simpl;
      [| discriminate].
    destruct (is_hex32 (identifier p)) eqn:Hhex; simpl; [| discriminate].
    intros _. exists (identifier p).
    unfold is_hex32 in Hhex. apply andb_true_iff in Hhex.
    destruct Hhex as [Hlen Hall].
    split; [now rewrite Hd, Hm |].
    split; [now apply Nat.eqb_eq | now apply forallb_forall].
  - intros (i & -> & Hlen & Hall).
    assert (Hhex : is_hex32 i = true).
    { unfold is_hex32. apply andb_true_iff. split.
      - now apply Nat.eqb_eq.
      - now apply forallb_forall. }
    assert (Hp : parseDID ("did:moltbook:" +:+ i)
                 = Some {| method := "moltbook"; identifier := i |}).
    { apply (parseDID_spec _ {| method := "moltbook"; identifier := i |}).
      simpl. split; [reflexivity |]. split; [| now apply is_hex32_no_colon].
      unfold no_colon. simpl.
      intros H; repeat destruct H as [H | H]; try discriminate H; exact H. }
    rewrite Hp. simpl. now rewrite Hhex.
Qed.

Lemma isValidDID_spec_witness :
  isValidDID "did:moltbook:00000000000000000000000000000000" = true.
Proof.
  apply (proj2 (isValidDID_spec "did:moltbook:00000000000000000000000000000000")).
  exists "00000000000000000000000000000000".
  split; [reflexivity |]. split; [reflexivity |].
  intros c Hc. simpl in Hc.
  repeat destruct Hc as [<- | Hc]; try reflexivity. destruct Hc.
Defined.

(** ** NFT credentials (did.ts, [addNFTCredential],
    [verifyNFTCredential], [hasVerifiedNFT]) *)

Lemma credentials_of_with (a : MoltbookAgent) (cs : list NFTCredential) :
  credentials_of (with_profile a (with_nftCredentials (profile a) cs)) = cs.
Proof. reflexivity. Qed.

Lemma has_key_spec (contract assetId : string) (c : NFTCredential) :
  has_key contract assetId c = true <-> cred_key c = (contract, assetId).
Proof.
  unfold has_key, cred_key. rewrite andb_true_iff, !String.eqb_eq.
  split; [intros [-> ->]; reflexivity | intros H; inversion H; auto].
Qed.

Lemma existsb_has_key (contract assetId : string) (cs : list NFTCredential) :
  existsb (has_key contract assetId) cs = true
  <-> In (contract, assetId) (map cred_key cs).
Proof.
  rewrite existsb_exists, in_map_iff. split.
  - intros (c & Hc & Hk). exists c. split; [now apply has_key_spec | exact Hc].
  - intros (c & Hk & Hc). exists c. split; [exact Hc | now apply has_key_spec].
Qed.

Lemma addNFTCredential_cases (a : MoltbookAgent) (contract assetId schema : string) :
  (In (contract, assetId) (map cred_key (credentials_of a))
   /\ addNFTCredential a contract assetId schema = a)
  \/ (~ In (contract, assetId) (map cred_key (credentials_of a))
      /\ credentials_of (addNFTCredential a contract assetId schema)
         = credentials_of a
           ++ [ {| cred_contract := contract; cred_assetId := assetId;
                   cred_schema := schema; cred_verified := false;
                   cred_verifiedAt := None |} ]).
Proof.
  unfold addNFTCredential. fold (has_key contract assetId).
  destruct (existsb (has_key contract assetId) (credentials_of a)) eqn:Hex.
  - left. split; [now apply existsb_has_key | reflexivity].
  - right. split; [| reflexivity].
    intros Hin. apply existsb_has_key in Hin. congruence.
Qed.

Lemma verify_map_key (now : Z) (contract assetId : string)
    (cs : list NFTCredential) :
  map cred_key
      (map (fun c =>
              if String.eqb (cred_contract c) contract
                 && String.eqb (cred_assetId c) assetId
              then {| cred_contract := cred_contract c;
                      cred_assetId := cred_assetId c;
                      cred_schema := cred_schema c;
                      cred_verified := true;
                      cred_verifiedAt := Some now |}
              else c) cs)
  = map cred_key cs.
Proof.
  rewrite map_map. apply map_ext. intros c.
  now destruct (_ && _).
Qed.

Lemma hasVerifiedNFT_In (a : MoltbookAgent) (contract : string)
    (schema : option string) :
  hasVerifiedNFT a contract schema = true
  <-> exists c, In c (credentials_of a)
                /\ credential_matches contract schema c = true.
Proof. unfold hasVerifiedNFT. apply existsb_exists. Qed.

Lemma credential_matches_unverified (contract : string)
    (schema : option string) (c : NFTCredential) :
  cred_verified c = false -> credential_matches contract schema c = false.
Proof. unfold credential_matches. now intros ->. Qed.

(** X3.  Adding a credential is idempotent on the pair (contract, asset):
    a second addition of the same pair, whatever its schema, changes
    nothing; after an addition the pair is listed; the list grows by at
    most one entry; and when the pairs were distinct before they still
    are. *)
Theorem addNFTCredential_idempotent (a : MoltbookAgent)
    (contract assetId schema schema' : string) :
  let a' := addNFTCredential a contract assetId schema in
  addNFTCredential a' contract assetId schema' = a'
  /\ In (contract, assetId) (map cred_key (credentials_of a'))
  /\ (List.length (credentials_of a') <= S (List.length (credentials_of a)))%nat
  /\ (List.NoDup (map cred_key (credentials_of a)) ->
      List.NoDup (map cred_key (credentials_of a'))).
Proof.
  intros a'.
  assert (Hin : In (contract, assetId) (map cred_key (credentials_of a'))).
  { unfold a'.
    destruct (addNFTCredential_cases a contract assetId schema)
      as [[Hin ->] | [_ ->]]; [exact Hin |].
    rewrite map_app, in_app_iff. right. now left. }
  split; [| split; [exact Hin | split]].
  - destruct (addNFTCredential_cases a' contract assetId schema')
      as [[_ Heq] | [Hnot _]]; [exact Heq | contradiction].
  - unfold a'.
    destruct (addNFTCredential_cases a contract assetId schema)
      as [[_ ->] | [_ ->]]; [lia |].
    rewrite length_app. simpl. lia.
  - intros Hnd. unfold a'.
    destruct (addNFTCredential_cases a contract assetId schema)
      as [[_ ->] | [Hnot ->]]; [exact Hnd |].
    rewrite map_app. simpl. now apply NoDup_snoc.
Qed.

Lemma addNFTCredential_idempotent_witness :
  List.NoDup (map cred_key
                (credentials_of
                   (addNFTCredential alice_agent "atomicassets" "12345"
                                     "moltbook.agent"))).
Proof.
  destruct (addNFTCredential_idempotent alice_agent "atomicassets" "12345"
              "moltbook.agent" "moltbook.agent") as (_ & _ & _ & Hnd).
  apply Hnd. simpl. constructor.
Defined.

(** X4.  Adding a credential never grants anything: the new entry is
    unverified, the entries already there are left as they were, and
    [hasVerifiedNFT] answers as before for every contract and schema. *)
Theorem addNFTCredential_grants_nothing (a : MoltbookAgent)
    (contract assetId schema : string) :
  let a' := addNFTCredential a contract assetId schema in
  (forall c, In c (credentials_of a') ->
     In c (credentials_of a)
     \/ (cred_key c = (contract, assetId) /\ cred_verified c = false))
  /\ (forall c, In c (credentials_of a) -> In c (credentials_of a'))
  /\ (forall ct sc, hasVerifiedNFT a' ct sc = hasVerifiedNFT a ct sc)
  /\ reputation_of a' = reputation_of a.
Proof.
  intros a'. unfold a'.
  destruct (addNFTCredential_cases a contract assetId schema)
    as [[_ Heq] | [_ Heq]].
  - rewrite Heq. repeat split; auto.
  - rewrite Heq. split; [| split; [| split]].
    + intros c Hc. apply in_app_iff in Hc. destruct Hc as [Hc | [<- | []]];
        [now left | right; split; reflexivity].
    + intros c Hc. apply in_app_iff. now left.
    + intros ct sc. unfold hasVerifiedNFT at 1. rewrite Heq, existsb_app.
      cbn [existsb]. rewrite credential_matches_unverified by reflexivity.
      now rewrite !orb_false_r.
    + apply addNFTCredential_reputation.
Qed.

(** X5.  Verifying a credential keeps the list of pairs (contract, asset)
    as it is, never withdraws a verification ([hasVerifiedNFT] stays true
    where it was), makes [hasVerifiedNFT] true for the contract when the
    pair is listed, and keeps every verified credential time-stamped. *)
Theorem verifyNFTCredential_monotone (now : Z) (a : MoltbookAgent)
    (contract assetId : string) :
  let a' := verifyNFTCredential now a contract assetId in
  map cred_key (credentials_of a') = map cred_key (credentials_of a)
  /\ (forall ct sc, hasVerifiedNFT a ct sc = true ->
        hasVerifiedNFT a' ct sc = true)
  /\ (In (contract, assetId) (map cred_key (credentials_of a)) ->
      hasVerifiedNFT a' contract None = true)
  /\ (Forall stamped (credentials_of a) -> Forall stamped (credentials_of a'))
  /\ reputation_of a' = reputation_of a.
Proof.
  intros a'. unfold a', verifyNFTCredential. rewrite credentials_of_with.
  split; [apply verify_map_key |].
  split; [| split; [| split; [| reflexivity]]].
  - intros ct sc H. apply hasVerifiedNFT_In in H.
    destruct H as (c & Hc & Hm).
    apply hasVerifiedNFT_In. rewrite credentials_of_with.
    eexists. split; [apply in_map_iff; exists c; split; [reflexivity | exact Hc] |].
    destruct (_ && _); [| exact Hm].
    unfold credential_matches in *. simpl.
    destruct (cred_verified c); simpl in *; [exact Hm | discriminate].
  - intros Hin. apply in_map_iff in Hin. destruct Hin as (c & Hk & Hc).
    apply hasVerifiedNFT_In. rewrite credentials_of_with.
    eexists. split; [apply in_map_iff; exists c; split; [reflexivity | exact Hc] |].
    apply has_key_spec in Hk. unfold has_key in Hk. rewrite Hk.
    unfold credential_matches. simpl.
    apply andb_true_iff in Hk. destruct Hk as [Hk _]. now rewrite Hk.
  - intros Hall. apply Forall_map.
    eapply List.Forall_impl; [| exact Hall].
    intros c Hc. destruct (_ && _); [| exact Hc].
    unfold stamped. simpl. discriminate.
Qed.

Lemma verifyNFTCredential_monotone_witness :
  hasVerifiedNFT
    (verifyNFTCredential now0
       (addNFTCredential alice_agent "atomicassets" "12345" "moltbook.agent")
       "atomicassets" "12345")
    "atomicassets" None = true.
Proof.
  destruct (verifyNFTCredential_monotone now0
              (addNFTCredential alice_agent "atomicassets" "12345"
                                "moltbook.agent")
              "atomicassets" "12345") as (_ & _ & Hgrant & _).
  apply Hgrant. simpl. now left.
Defined.

Lemma apply_cred_op_invariant (a : MoltbookAgent) (op : CredentialOp) :
  List.NoDup (map cred_key (credentials_of a)) ->
  Forall stamped (credentials_of a) ->
  List.NoDup (map cred_key (credentials_of (apply_cred_op a op)))
  /\ Forall stamped (credentials_of (apply_cred_op a op))
  /\ reputation_of (apply_cred_op a op) = reputation_of a.
Proof.
  intros Hnd Hst. destruct op as [contract assetId schema | now contract assetId];
    simpl.
  - destruct (addNFTCredential_cases a contract assetId schema)
      as [[_ Heq] | [Hnot Heq]]; rewrite ?Heq.
    + auto.
    + split; [| split].
      * rewrite map_app. simpl. now apply NoDup_snoc.
      * apply Forall_app. split; [exact Hst |].
        constructor; [| constructor]. unfold stamped. simpl. discriminate.
      * apply addNFTCredential_reputation.
  - unfold verifyNFTCredential. rewrite credentials_of_with.
    split; [now rewrite verify_map_key |]. split; [| reflexivity].
    apply Forall_map. eapply List.Forall_impl; [| exact Hst].
    intros c Hc. destruct (_ && _); [| exact Hc].
    unfold stamped. simpl. discriminate.
Qed.

(** X6.  Credential bookkeeping invariant: starting from an agent whose
    credentials have distinct (contract, asset) pairs and whose verified
    credentials are time-stamped, every sequence of additions and
    verifications keeps both, and keeps the reputation. *)
Theorem credential_ops_invariant (ops : list CredentialOp) (a : MoltbookAgent) :
  List.NoDup (map cred_key (credentials_of a)) ->
  Forall stamped (credentials_of a) ->
  let a' := fold_left apply_cred_op ops a in
  List.NoDup (map cred_key (credentials_of a'))
  /\ Forall stamped (credentials_of a')
  /\ reputation_of a' = reputation_of a.
Proof.
  revert a. induction ops as [| op ops IH]; intros a Hnd Hst; simpl.
  - auto.
  - destruct (apply_cred_op_invariant a op Hnd Hst) as (Hnd' & Hst' & Hrep).
    destruct (IH (apply_cred_op a op) Hnd' Hst') as (H1 & H2 & H3).
    repeat split; try assumption. congruence.
Qed.

Lemma credential_ops_invariant_witness :
  Forall stamped
    (credentials_of
       (fold_left apply_cred_op
          [CredAdd "atomicassets" "12345" "moltbook.agent";
           CredVerify now0 "atomicassets" "12345";
           CredAdd "atomicassets" "12345" "other.schema"]
          alice_agent)).
Proof.
  destruct (credential_ops_invariant
              [CredAdd "atomicassets" "12345" "moltbook.agent";
               CredVerify now0 "atomicassets" "12345";
               CredAdd "atomicassets" "12345" "other.schema"]
              alice_agent) as (_ & Hst & _).
  - simpl. constructor.
  - simpl. constructor.
  - exact Hst.
Defined.

(** ** Participant edits (channels.ts, [addParticipant],
    [removeParticipant], [updateAccessControl]) *)

(** X7.  [removeParticipant]: a remover who is neither the creator nor the
    target is refused; the creator cannot be removed, by anyone; otherwise
    the target is no longer listed, every other participant still is, and
    nothing else in the channel changes. *)
Theorem removeParticipant_spec (c : PrivateChannel) (target remover : string) :
  (remover <> ch_createdBy c -> remover <> target ->
     removeParticipant c target remover
     = Err "Not authorized to remove participant")
  /\ (remover = ch_createdBy c \/ remover = target ->
      target = ch_createdBy c ->
      removeParticipant c target remover = Err "Cannot remove channel creator")
  /\ (remover = ch_createdBy c \/ remover = target ->
      target <> ch_createdBy c ->
      exists c',
        removeParticipant c target remover = Ok c'
        /\ ~ In target (ch_participants c')
        /\ (forall p, In p (ch_participants c')
                      <-> In p (ch_participants c) /\ p <> target)
        /\ c' = with_participants c (ch_participants c')).
Proof.
  unfold removeParticipant. split; [| split].
  - intros H1 H2.
    destruct (String.eqb_spec (ch_createdBy c) remover); [congruence |].
    destruct (String.eqb_spec target remover); [congruence |]. reflexivity.
  - intros Hauth ->.
    destruct (String.eqb_spec (ch_createdBy c) remover) as [| Hne]; simpl.
    + destruct (String.eqb_spec (ch_createdBy c) (ch_createdBy c));
        [reflexivity | congruence].
    + destruct Hauth as [-> | ->]; congruence.
  - intros Hauth Hne.
    assert (Hguard : negb (String.eqb (ch_createdBy c) remover)
                     && negb (String.eqb target remover) = false).
    { destruct Hauth as [-> | ->]; rewrite String.eqb_refl; simpl;
        [reflexivity | apply andb_false_r]. }
    rewrite Hguard.
    destruct (String.eqb_spec target (ch_createdBy c)); [contradiction |].
    eexists. split; [reflexivity |]. simpl.
    assert (Hmem : forall p,
               In p (List.filter (fun p => negb (String.eqb p target))
                                 (ch_participants c))
               <-> In p (ch_participants c) /\ p <> target).
    { intros p. rewrite filter_In, negb_true_iff, String.eqb_neq. tauto. }
    split; [| split; [exact Hmem | reflexivity]].
    intros Hin. apply Hmem in Hin. tauto.
Qed.

Lemma removeParticipant_spec_witness :
  exists c', removeParticipant full_channel alice_did alice_did = Ok c'
             /\ ~ In alice_did (ch_participants c').
Proof.
  destruct (removeParticipant_spec full_channel alice_did alice_did)
    as (_ & _ & Hok).
  destruct Hok as (c' & E & Hout & _).
  - now right.
  - simpl. discriminate.
  - exists c'. split; assumption.
Defined.

Lemma addParticipant_result (c c' : PrivateChannel) (d : string) :
  addParticipant c d = Ok c' ->
  (c' = c /\ In d (ch_participants c))
  \/ (c' = with_participants c (ch_participants c ++ [d])
      /\ ~ In d (ch_participants c)).
Proof.
  unfold addParticipant.
  destruct (includes (ch_participants c) d) eqn:Hinc.
  - intros H. injection H as <-. left.
    split; [reflexivity | now apply includes_In].
  - destruct (_ && _); [discriminate |].
    intros H. injection H as <-. right.
    split; [reflexivity | now apply includes_not_In].
Qed.

Lemma step_channel_invariant (c : PrivateChannel) (op : ChannelOp) :
  In (ch_createdBy c) (ch_participants c) -> participants_ok c ->
  let c' := step_channel c op in
  In (ch_createdBy c') (ch_participants c') /\ participants_ok c'
  /\ ch_id c' = ch_id c /\ ch_createdBy c' = ch_createdBy c
  /\ ch_createdAt c' = ch_createdAt c /\ ch_encryption c' = ch_encryption c
  /\ ch_metadata c' = ch_metadata c.
Proof.
  intros Hin Hok. unfold step_channel.
  destruct (apply_channel_op c op) as [c' | e] eqn:Hop; simpl;
    [| repeat split; try assumption; apply Hok].
  destruct op as [d | d remover | ac updater]; simpl in Hop.
  - assert (Hok' : participants_ok c').
    { eapply addParticipant_keeps_participants_ok; try eassumption.
      intros Hnil. rewrite Hnil in Hin. destruct Hin. }
    destruct (addParticipant_result c c' d Hop) as [[-> _] | [-> _]].
    + repeat split; try assumption; apply Hok.
    + split; [simpl; apply in_app_iff; now left |].
      split; [exact Hok' |]. repeat split.
  - assert (Hok' : participants_ok c')
      by (eapply removeParticipant_keeps_participants_ok; eassumption).
    destruct (removeParticipant_keeps_creator c c' d remover Hin Hop)
      as [Hcb Hin'].
    split; [exact Hin' |]. split; [exact Hok' |].
    unfold removeParticipant in Hop.
    destruct (_ && _); [discriminate |].
    destruct (String.eqb d (ch_createdBy c)); [discriminate |].
    inversion Hop. repeat split.
  - unfold updateAccessControl in Hop.
    destruct (negb _); [discriminate |]. inversion Hop; subst; simpl.
    repeat split; try assumption; apply Hok.
Qed.

(** X8.  Channel invariant: from a channel that lists its creator, has
    no duplicate participant and respects its maximum, every sequence of
    additions, removals and policy updates (failed ones leaving the
    channel as it was) gives a channel that still lists its creator, has
    no duplicate participant, respects the maximum, and has the same id,
    creator, creation time, encryption settings and metadata. *)
Theorem channel_ops_invariant (ops : list ChannelOp) (c : PrivateChannel) :
  In (ch_createdBy c) (ch_participants c) -> participants_ok c ->
  let c' := fold_left step_channel ops c in
  In (ch_createdBy c') (ch_participants c') /\ participants_ok c'
  /\ ch_id c' = ch_id c /\ ch_createdBy c' = ch_createdBy c
  /\ ch_createdAt c' = ch_createdAt c /\ ch_encryption c' = ch_encryption c
  /\ ch_metadata c' = ch_metadata c.
Proof.
  revert c. induction ops as [| op ops IH]; intros c Hin Hok; simpl.
  - repeat split; try assumption; apply Hok.
  - destruct (step_channel_invariant c op Hin Hok)
      as (Hin1 & Hok1 & E1 & E2 & E3 & E4 & E5).
    destruct (IH (step_channel c op) Hin1 Hok1)
      as (Hin2 & Hok2 & F1 & F2 & F3 & F4 & F5).
    repeat split; try assumption; try apply Hok2; congruence.
Qed.

Lemma full_channel_ok : participants_ok full_channel.
Proof.
  split.
  - simpl. constructor.
    + intros [H | []]. discriminate H.
    + constructor; [intros [] | constructor].
  - intros limit H. inversion H; subst. simpl. lia.
Qed.

Lemma channel_ops_invariant_witness :
  In creator_did
     (ch_participants
        (fold_left step_channel
           [OpAdd outsider_did; OpRemove creator_did creator_did;
            OpRemove alice_did alice_did; OpAdd outsider_did]
           full_channel)).
Proof.
  destruct (channel_ops_invariant
              [OpAdd outsider_did; OpRemove creator_did creator_did;
               OpRemove alice_did alice_did; OpAdd outsider_did]
              full_channel) as (Hin & _ & _ & Hcb & _).
  - simpl. now left.
  - exact full_channel_ok.
  - rewrite Hcb in Hin. exact Hin.
Defined.

(** ** Access after an edit (channels.ts, [canAccessChannel]) *)

Lemma canAccess_outsider (c : PrivateChannel) (a : MoltbookAgent) :
  ~ In (did a) (ch_participants c) ->
  canAccessChannel c a = canAccessChannel (with_participants c []) a.
Proof.
  intros H. apply includes_not_In in H. unfold canAccessChannel.
  now rewrite H.
Qed.

(** X9.  Membership decides first, the policy second.  An agent that
    [addParticipant] has added is allowed whatever the policy is.  After
    [removeParticipant] the agent is treated like any outsider: on an
    open channel it is still allowed, on an invite-only channel whose
    allow list does not name it the answer is "Invite required", and
    without a policy "Not a participant". *)
Theorem access_after_edit (c c' : PrivateChannel) (a : MoltbookAgent) :
  (addParticipant c (did a) = Ok c' -> canAccessChannel c' a = allow)
  /\ (forall remover,
        removeParticipant c (did a) remover = Ok c' ->
        (ch_accessControl c = None ->
           canAccessChannel c' a = deny "Not a participant")
        /\ (forall ac, ch_accessControl c = Some ac -> ac_type ac = open ->
              canAccessChannel c' a = allow)
        /\ (forall ac, ch_accessControl c = Some ac ->
              ac_type ac = invite_only ->
              (forall l, ac_allowedDIDs ac = Some l -> ~ In (did a) l) ->
              canAccessChannel c' a = deny "Invite required")).
Proof.
  split.
  - intros Hadd. apply addParticipant_result in Hadd.
    assert (Hin : In (did a) (ch_participants c')).
    { destruct Hadd as [[-> Hin] | [-> _]]; [exact Hin |].
      simpl. apply in_app_iff. right. now left. }
    apply includes_In in Hin. unfold canAccessChannel. now rewrite Hin.
  - intros remover Hrem.
    unfold removeParticipant in Hrem.
    destruct (_ && _); [discriminate |].
    destruct (String.eqb (did a) (ch_createdBy c)); [discriminate |].
    injection Hrem as <-.
    assert (Hout : includes
                     (List.filter (fun p => negb (String.eqb p (did a)))
                                  (ch_participants c)) (did a) = false).
    { apply includes_not_In. rewrite filter_In, negb_true_iff, String.eqb_neq.
      tauto. }
    unfold canAccessChannel. simpl. rewrite Hout.
    split; [| split].
    + now intros ->.
    + intros ac -> Hty. now rewrite Hty.
    + intros ac -> Hty Hlist. rewrite Hty.
      destruct (ac_allowedDIDs ac) as [l |]; [| reflexivity].
      specialize (Hlist l eq_refl). apply includes_not_In in Hlist.
      now rewrite Hlist.
Qed.

Lemma access_after_edit_witness :
  canAccessChannel (with_participants full_channel [creator_did]) alice_agent
  = deny "Invite required".
Proof.
  destruct (access_after_edit full_channel
              (with_participants full_channel [creator_did]) alice_agent)
    as [_ Hrem].
  destruct (Hrem alice_did eq_refl) as (_ & _ & Hinvite).
  apply (Hinvite {| ac_type := invite_only; ac_nftGate := None;
                    ac_allowedDIDs := None |});
    [reflexivity | reflexivity | intros l H; discriminate H].
Defined.

(** ** Sequences of actions on an invitation (channels.ts,
    [acceptInvitation], [rejectInvitation]) *)

Lemma step_invitation_terminal (i : ChannelInvitation) (op : InvitationOp) :
  inv_status i <> pending -> step_invitation i op = i.
Proof.
  intros H. unfold step_invitation, apply_invitation_op,
    acceptInvitation, rejectInvitation.
  destruct op; destruct (inv_status i); simpl; congruence.
Qed.

Lemma step_invitation_settles (i : ChannelInvitation) (op : InvitationOp) :
  inv_status i = pending -> inv_status (step_invitation i op) <> pending.
Proof.
  intros H. unfold step_invitation, apply_invitation_op,
    acceptInvitation, rejectInvitation. rewrite H. simpl.
  destruct op; [destruct (inv_expiresAt i <? now) |]; simpl; discriminate.
Qed.

Lemma steps_terminal (ops : list InvitationOp) (i : ChannelInvitation) :
  inv_status i <> pending -> fold_left step_invitation ops i = i.
Proof.
  revert i. induction ops as [| op ops IH]; intros i H; simpl; [reflexivity |].
  rewrite step_invitation_terminal by exact H. now apply IH.
Qed.

(** X10.  Only the first action on an invitation counts: whatever
    actions follow it, accepted or refused, the invitation stays as the
    first action left it; in particular an invitation that is not pending
    is never changed, and the record differs from the original in its
    status only. *)
Theorem invitation_first_action_counts (i : ChannelInvitation)
    (op : InvitationOp) (ops : list InvitationOp) :
  fold_left step_invitation (op :: ops) i = step_invitation i op
  /\ (inv_status i <> pending ->
      fold_left step_invitation (op :: ops) i = i)
  /\ (inv_status i = pending ->
      inv_status (fold_left step_invitation (op :: ops) i) <> pending)
  /\ fold_left step_invitation (op :: ops) i
     = with_status i (inv_status (fold_left step_invitation (op :: ops) i)).
Proof.
  assert (Hfirst : fold_left step_invitation (op :: ops) i = step_invitation i op).
  { simpl. destruct (status_eqb (inv_status i) pending) eqn:Hs.
    - apply status_eqb_pending in Hs. apply steps_terminal.
      now apply step_invitation_settles.
    - assert (Hne : inv_status i <> pending).
      { intros H. apply status_eqb_pending in H. congruence. }
      rewrite step_invitation_terminal by exact Hne.
      now apply steps_terminal. }
  split; [exact Hfirst |]. rewrite Hfirst. split; [| split].
  - apply step_invitation_terminal.
  - apply step_invitation_settles.
  - unfold step_invitation, apply_invitation_op, acceptInvitation,
      rejectInvitation.
    destruct i as [id cid inviter invitee created expires key st].
    destruct op; destruct st; simpl;
      try destruct (expires <? now); reflexivity.
Qed.

Lemma invitation_first_action_counts_witness :
  fold_left step_invitation [InvReject; InvAccept 0; InvReject]
            (with_status expired_invitation accepted)
  = with_status expired_invitation accepted.
Proof.
  destruct (invitation_first_action_counts
              (with_status expired_invitation accepted) InvReject
              [InvAccept 0; InvReject]) as (_ & Hkeep & _).
  apply Hkeep. simpl. discriminate.
Defined.

(** ** Storage keys (storage.ts, [KEYS]) *)

Lemma percent_decode_char (c : ascii) :
  ascii_of_nat (hex_value (upper_hex_digit (nat_of_ascii c / 16)) * 16
                + hex_value (upper_hex_digit (nat_of_ascii c mod 16)))
  = c.
Proof. destruct c as [[] [] [] [] [] [] [] []]; vm_compute; reflexivity. Qed.

Lemma unreserved_not_percent (c : ascii) :
  is_unreserved c = true -> Ascii.eqb c "%" = false.
Proof.
  intros H. destruct (Ascii.eqb_spec c "%") as [-> |]; [| reflexivity].
  vm_compute in H. discriminate H.
Qed.

Lemma percent_decode_encode (s : string) :
  percent_decode (encodeURIComponent s) = s.
Proof.
  induction s as [| c s IH]; [reflexivity |].
  cbn [encodeURIComponent].
  destruct (is_unreserved c) eqn:Hc.
  - cbn [percent_decode]. rewrite (unreserved_not_percent c Hc). now rewrite IH.
  - cbn [percent_decode]. rewrite Ascii.eqb_refl, IH.
    now rewrite percent_decode_char.
Qed.

Lemma encodeURIComponent_inj (a b : string) :
  encodeURIComponent a = encodeURIComponent b -> a = b.
Proof.
  intros H. rewrite <- (percent_decode_encode a), <- (percent_decode_encode b).
  now rewrite H.
Qed.

Lemma list_ascii_append (s t : string) :
  list_ascii_of_string (s +:+ t)
  = list_ascii_of_string s ++ list_ascii_of_string t.
Proof.
  induction s as [| c s IH]; [reflexivity |].
  change (String c s +:+ t) with (String c (s +:+ t)). simpl. now rewrite IH.
Qed.

Lemma append_inv_tail (s1 s2 t : string) : s1 +:+ t = s2 +:+ t -> s1 = s2.
Proof.
  intros H. apply (f_equal list_ascii_of_string) in H.
  rewrite !list_ascii_append in H. apply app_inv_tail in H.
  rewrite <- (string_of_list_ascii_of_string s1),
          <- (string_of_list_ascii_of_string s2).
  now rewrite H.
Qed.

Lemma append_inv_head (p s1 s2 : string) : p +:+ s1 = p +:+ s2 -> s1 = s2.
Proof.
  induction p as [| c p IH]; intros H; [exact H |].
  change (String c (p +:+ s1) = String c (p +:+ s2)) in H.
  injection H as H. now apply IH.
Qed.

Lemma KEYS_agent_inj (a b : string) : KEYS.agent a = KEYS.agent b -> a = b.
Proof.
  unfold KEYS.agent. intros H. apply append_inv_head, append_inv_tail in H.
  now apply encodeURIComponent_inj.
Qed.

Lemma KEYS_agentChannels_inj (a b : string) :
  KEYS.agentChannels a = KEYS.agentChannels b -> a = b.
Proof.
  unfold KEYS.agentChannels. intros H.
  apply append_inv_head, append_inv_tail in H.
  now apply encodeURIComponent_inj.
Qed.

Lemma KEYS_agentInvitations_inj (a b : string) :
  KEYS.agentInvitations a = KEYS.agentInvitations b -> a = b.
Proof.
  unfold KEYS.agentInvitations. intros H.
  apply append_inv_head, append_inv_tail in H.
  now apply encodeURIComponent_inj.
Qed.

Lemma encode_no_slash (s : string) :
  ~ In "/"%char (list_ascii_of_string (encodeURIComponent s)).
Proof.
  induction s as [| c s IH]; simpl; [tauto |].
  destruct (is_unreserved c) eqn:Hc; simpl.
  - intros [-> | H]; [vm_compute in Hc; discriminate Hc | tauto].
  - intros [H | [H | [H | H]]]; try discriminate H; try tauto.
    + destruct c as [[] [] [] [] [] [] [] []]; vm_compute in H; discriminate H.
    + destruct c as [[] [] [] [] [] [] [] []]; vm_compute in H; discriminate H.
Qed.

(** The record of an agent and the two indices of an agent never share a
    key: the encoded DID holds no [/]. *)
Lemma agent_key_not_index (a b : string) :
  KEYS.agent a <> KEYS.agentChannels b
  /\ KEYS.agent a <> KEYS.agentInvitations b
  /\ KEYS.agentChannels a <> KEYS.agentInvitations b.
Proof.
  unfold KEYS.agent, KEYS.agentChannels, KEYS.agentInvitations.
  assert (Hslash : forall x y suffix,
             encodeURIComponent x +:+ ".json"
             <> encodeURIComponent y +:+ String "/"%char suffix).
  { intros x y suffix H.
    apply (f_equal list_ascii_of_string) in H.
    rewrite !list_ascii_append in H.
    assert (Hin : In "/"%char
                     (list_ascii_of_string (encodeURIComponent x)
                      ++ list_ascii_of_string ".json")).
    { rewrite H. apply in_app_iff. right. simpl. now left. }
    apply in_app_iff in Hin. destruct Hin as [Hin | Hin].
    - exact (encode_no_slash x Hin).
    - simpl in Hin. repeat destruct Hin as [Hin | Hin]; try discriminate Hin.
      exact Hin. }
  split; [| split].
  - intros H. apply append_inv_head in H. exact (Hslash _ _ _ H).
  - intros H. apply append_inv_head in H. exact (Hslash _ _ _ H).
  - intros H. apply append_inv_head in H.
    apply (f_equal list_ascii_of_string) in H.
    rewrite !list_ascii_append in H.
    apply (f_equal (@rev ascii)) in H. rewrite !rev_app_distr in H.
    simpl in H. discriminate H.
Qed.

(** X11.  Storage keys identify agents: [encodeURIComponent] can be
    undone, so two different DIDs never share an agent record, a channel
    index or an invitation index, and no record key is an index key. *)
Theorem agent_keys_distinct (a b : string) :
  percent_decode (encodeURIComponent a) = a
  /\ (a <> b ->
      KEYS.agent a <> KEYS.agent b
      /\ KEYS.agentChannels a <> KEYS.agentChannels b
      /\ KEYS.agentInvitations a <> KEYS.agentInvitations b)
  /\ KEYS.agent a <> KEYS.agentChannels b
  /\ KEYS.agent a <> KEYS.agentInvitations b
  /\ KEYS.agentChannels a <> KEYS.agentInvitations b.
Proof.
  split; [apply percent_decode_encode |]. split.
  - intros Hne. repeat split; intros H; apply Hne.
    + now apply KEYS_agent_inj.
    + now apply KEYS_agentChannels_inj.
    + now apply KEYS_agentInvitations_inj.
  - apply agent_key_not_index.
Qed.

Lemma agent_keys_distinct_witness :
  KEYS.agent "did:moltbook:a/b" <> KEYS.agent "did:moltbook:a%2Fb".
Proof.
  destruct (agent_keys_distinct "did:moltbook:a/b" "did:moltbook:a%2Fb")
    as (_ & Hdistinct & _).
  apply Hdistinct. discriminate.
Defined.

(** ** Agents and messages in the store (storage.ts) *)

Lemma getAgent_result (d : string) (w : World) :
  fst (Storage.getAgent d w) = Ok (lookup_agent (bucket w) d).
Proof. destruct (getAgent_run d w) as (w' & E & _). now rewrite E. Qed.

Lemma bucket_put_run (key : string) (o : Object) (w : World) :
  exists w', bucket_put key o w = (Ok tt, w')
             /\ bucket w' = <[key := o]> (bucket w) /\ draw w' = draw w.
Proof. unfold bucket_put, bind, suspend. simpl. eexists. repeat split. Qed.

Lemma bucket_delete_run (key : string) (w : World) :
  exists w', bucket_delete key w = (Ok tt, w')
             /\ bucket w' = delete key (bucket w) /\ draw w' = draw w.
Proof. unfold bucket_delete, bind, suspend. simpl. eexists. repeat split. Qed.

Lemma lookup_agent_insert (b : gmap string Object) (a : MoltbookAgent)
    (d : string) :
  lookup_agent (<[KEYS.agent (did a) := ObjAgent a]> b) d
  = if String.eqb d (did a) then Some a else lookup_agent b d.
Proof.
  unfold lookup_agent. destruct (String.eqb_spec d (did a)) as [-> | Hne].
  - now rewrite lookup_insert_eq.
  - rewrite lookup_insert_ne; [reflexivity |].
    intros H. apply KEYS_agent_inj in H. congruence.
Qed.

Lemma agentExists_result (d : string) (w : World) :
  fst (PrivacyStorage.agentExists d w)
  = Ok (match bucket w !! KEYS.agent d with Some _ => true | None => false end).
Proof. reflexivity. Qed.

(** X12.  An agent that was saved is read back under its DID, exists, and
    is gone after [deleteAgent]; saving or deleting it leaves what
    [getAgent] returns for every other DID as it was. *)
Theorem saveAgent_getAgent (a : MoltbookAgent) (w : World) :
  let saved := snd (Storage.saveAgent a w) in
  let deleted := snd (PrivacyStorage.deleteAgent (did a) saved) in
  fst (Storage.getAgent (did a) saved) = Ok (Some a)
  /\ fst (PrivacyStorage.agentExists (did a) saved) = Ok true
  /\ fst (Storage.getAgent (did a) deleted) = Ok None
  /\ fst (PrivacyStorage.agentExists (did a) deleted) = Ok false
  /\ (forall d, d <> did a ->
        fst (Storage.getAgent d saved) = fst (Storage.getAgent d w)
        /\ fst (Storage.getAgent d deleted) = fst (Storage.getAgent d w)).
Proof.
  intros saved deleted.
  assert (Hs : bucket saved = <[KEYS.agent (did a) := ObjAgent a]> (bucket w))
    by reflexivity.
  assert (Hd : bucket deleted = delete (KEYS.agent (did a)) (bucket saved))
    by reflexivity.
  rewrite !getAgent_result.
  split; [| split; [| split; [| split]]].
  - rewrite Hs, lookup_agent_insert. now rewrite String.eqb_refl.
  - rewrite agentExists_result, Hs. now rewrite lookup_insert_eq.
  - rewrite Hd. unfold lookup_agent. now rewrite lookup_delete_eq.
  - rewrite agentExists_result, Hd. now rewrite lookup_delete_eq.
  - intros d Hne. rewrite !getAgent_result.
    assert (Hkey : KEYS.agent (did a) <> KEYS.agent d).
    { intros H. apply KEYS_agent_inj in H. congruence. }
    split.
    + rewrite Hs, lookup_agent_insert.
      destruct (String.eqb_spec d (did a)); [contradiction | reflexivity].
    + rewrite Hd, Hs. unfold lookup_agent.
      rewrite lookup_delete_ne by exact Hkey.
      now rewrite lookup_insert_ne by exact Hkey.
Qed.

Lemma saveAgent_getAgent_witness :
  fst (Storage.getAgent creator_did
         (snd (Storage.saveAgent alice_agent (world_of agents_bucket))))
  = fst (Storage.getAgent creator_did (world_of agents_bucket)).
Proof.
  destruct (saveAgent_getAgent alice_agent (world_of agents_bucket))
    as (_ & _ & _ & _ & Hother).
  apply (Hother creator_did). discriminate.
Defined.

Lemma prefix_append_cong (a p s : string) :
  String.prefix p s = true -> String.prefix (a +:+ p) (a +:+ s) = true.
Proof.
  intros H. induction a as [| c a IH]; [exact H |].
  change (String.prefix (String c (a +:+ p)) (String c (a +:+ s)) = true).
  now rewrite prefix_cons, Ascii.eqb_refl, IH.
Qed.

Lemma message_key_listed (channelId messageId : string) :
  String.prefix (KEYS.channelMessagesList channelId)
                (KEYS.channelMessages channelId messageId) = true.
Proof.
  unfold KEYS.channelMessagesList, KEYS.channelMessages.
  apply prefix_append_cong, prefix_append_cong.
  apply (prefix_append "/messages/").
Qed.

Lemma getMessage_result (channelId messageId : string) (w : World) :
  fst (PrivacyStorage.getMessage channelId messageId w)
  = Ok (message_at (bucket w) (KEYS.channelMessages channelId messageId)).
Proof.
  unfold PrivacyStorage.getMessage, message_at, bucket_get, bind, suspend.
  simpl.
  now destruct (bucket w !! KEYS.channelMessages channelId messageId)
    as [[| | | |] |].
Qed.

Lemma listing_In (b : gmap string Object) (channelId : string)
    (m : EncryptedMessage) :
  In m (listing b channelId None)
  <-> exists key,
        String.prefix (KEYS.channelMessagesList channelId) key = true
        /\ b !! key = Some (ObjMessage m).
Proof.
  unfold listing. simpl. split.
  - intros H. apply (Permutation_in _ (sort_desc_perm _)) in H.
    apply kept_messages_spec in H. destruct H as (_ & key & Hkey & Hb).
    exists key. split; [| exact Hb]. eapply listed_keys_prefix; eassumption.
  - intros (key & Hp & Hb).
    apply (Permutation_in _ (Permutation_sym (sort_desc_perm _))).
    apply kept_messages_spec. split; [reflexivity |].
    exists key. split; [| exact Hb]. eapply listed_keys_spec; eassumption.
Qed.

Lemma getChannelMessages_result (channelId : string)
    (options : option ListOptions) (w : World) :
  fst (Storage.getChannelMessages channelId options w)
  = Ok (listing (bucket w) channelId options).
Proof.
  destruct (getChannelMessages_run channelId options w) as (w' & E & _).
  now rewrite E.
Qed.

(** X13.  A message that was saved is read back by [getMessage] under its
    channel and id and appears in the listing of its channel; after
    [deleteMessage] it is read back no more, and the listing then holds
    only messages that were stored before. *)
Theorem saveMessage_listed (m : EncryptedMessage) (w : World) :
  let saved := snd (Storage.saveMessage m w) in
  let deleted :=
    snd (PrivacyStorage.deleteMessage (msg_channelId m) (msg_id m) saved) in
  fst (PrivacyStorage.getMessage (msg_channelId m) (msg_id m) saved)
  = Ok (Some m)
  /\ (exists msgs,
        fst (Storage.getChannelMessages (msg_channelId m) None saved) = Ok msgs
        /\ In m msgs
        /\ StronglySorted newer_first msgs)
  /\ fst (PrivacyStorage.getMessage (msg_channelId m) (msg_id m) deleted)
     = Ok None
  /\ (forall channelId msgs msgs0 m',
        fst (Storage.getChannelMessages channelId None deleted) = Ok msgs ->
        fst (Storage.getChannelMessages channelId None w) = Ok msgs0 ->
        In m' msgs -> In m' msgs0).
Proof.
  intros saved deleted.
  set (key := KEYS.channelMessages (msg_channelId m) (msg_id m)).
  assert (Hs : bucket saved = <[key := ObjMessage m]> (bucket w))
    by reflexivity.
  assert (Hd : bucket deleted = delete key (bucket saved)) by reflexivity.
  split; [| split; [| split]].
  - rewrite getMessage_result. fold key. unfold message_at.
    now rewrite Hs, lookup_insert_eq.
  - rewrite getChannelMessages_result. eexists. split; [reflexivity |].
    split.
    + apply listing_In. exists key. split; [apply message_key_listed |].
      now rewrite Hs, lookup_insert_eq.
    + unfold listing. simpl. apply sort_desc_sorted.
  - rewrite getMessage_result. fold key. unfold message_at.
    now rewrite Hd, lookup_delete_eq.
  - assert (Hsub : forall k o, bucket deleted !! k = Some o ->
                                bucket w !! k = Some o).
    { intros k o. rewrite Hd, Hs.
      destruct (decide (key = k)) as [<- | Hne].
      - rewrite lookup_delete_eq. discriminate.
      - rewrite lookup_delete_ne by exact Hne.
        now rewrite lookup_insert_ne by exact Hne. }
    intros channelId msgs msgs0 m'. rewrite !getChannelMessages_result.
    intros H H0 Hin. injection H as <-. injection H0 as <-.
    apply listing_In in Hin. destruct Hin as (k & Hp & Hb).
    apply listing_In. exists k. split; [exact Hp | now apply Hsub].
Qed.

(** ** Channels and the per-agent channel index (storage.ts,
    [saveChannel], [addChannelToAgent], [getAgentChannels]) *)

Lemma read_ids_run (key : string) (w : World) :
  exists w',
    PrivacyStorage.read_ids key w
    = (Ok (match bucket w !! key with
           | Some (ObjIds ids) => Some ids
           | _ => None
           end), w')
    /\ bucket w' = bucket w /\ draw w' = draw w.
Proof.
  unfold PrivacyStorage.read_ids, bucket_get, bind, suspend. simpl.
  destruct (bucket w !! key) as [[| | | | ids] |]; simpl;
    eexists; repeat split.
Qed.

Lemma getAgentChannels_result (d : string) (w : World) :
  fst (PrivacyStorage.getAgentChannels d w)
  = Ok (ids_at (bucket w) (KEYS.agentChannels d)).
Proof.
  unfold PrivacyStorage.getAgentChannels, bind, ids_at.
  destruct (read_ids_run (KEYS.agentChannels d) w) as (w' & E & _).
  rewrite E. simpl.
  now destruct (bucket w !! KEYS.agentChannels d) as [[| | | |] |].
Qed.

Lemma getChannel_result (id : string) (w : World) :
  fst (Storage.getChannel id w) = Ok (lookup_channel (bucket w) id).
Proof. destruct (getChannel_run id w) as (w' & E & _). now rewrite E. Qed.

Lemma addChannelToAgent_run (d channelId : string) (w : World) :
  exists w',
    PrivacyStorage.addChannelToAgent d channelId w = (Ok tt, w')
    /\ draw w' = draw w
    /\ bucket w'
       = if includes (ids_at (bucket w) (KEYS.agentChannels d)) channelId
         then bucket w
         else <[KEYS.agentChannels d
                := ObjIds (ids_at (bucket w) (KEYS.agentChannels d)
                           ++ [channelId])]> (bucket w).
Proof.
  unfold PrivacyStorage.addChannelToAgent, bind.
  destruct (read_ids_run (KEYS.agentChannels d) w) as (w1 & E & B & D).
  rewrite E.
  assert (Hids : default []
                   (match bucket w !! KEYS.agentChannels d with
                    | Some (ObjIds ids) => Some ids
                    | _ => None
                    end)
                 = ids_at (bucket w) (KEYS.agentChannels d)).
  { unfold ids_at.
    now destruct (bucket w !! KEYS.agentChannels d) as [[| | | |] |]. }
  rewrite Hids.
  destruct (includes (ids_at (bucket w) (KEYS.agentChannels d)) channelId).
  - exists w1. simpl. repeat split; assumption.
  - simpl.
    destruct (bucket_put_run (KEYS.agentChannels d)
                (ObjIds (ids_at (bucket w) (KEYS.agentChannels d)
                         ++ [channelId])) w1) as (w2 & E2 & B2 & D2).
    exists w2. rewrite E2. repeat split; congruence.
Qed.

(** The effect of one [addChannelToAgent] on the index of any agent and on
    the other keys. *)
Lemma addChannelToAgent_effect (d channelId : string) (w : World) :
  exists w',
    PrivacyStorage.addChannelToAgent d channelId w = (Ok tt, w')
    /\ (forall k, k <> KEYS.agentChannels d ->
          bucket w' !! k = bucket w !! k)
    /\ (forall x, In x (ids_at (bucket w') (KEYS.agentChannels d))
                  <-> In x (ids_at (bucket w) (KEYS.agentChannels d))
                      \/ x = channelId)
    /\ (List.NoDup (ids_at (bucket w) (KEYS.agentChannels d)) ->
        List.NoDup (ids_at (bucket w') (KEYS.agentChannels d))).
Proof.
  destruct (addChannelToAgent_run d channelId w) as (w' & E & _ & B).
  exists w'. split; [exact E |].
  set (key := KEYS.agentChannels d) in *.
  destruct (includes (ids_at (bucket w) key) channelId) eqn:Hinc; rewrite B.
  - apply includes_In in Hinc. split; [reflexivity |]. split; [| tauto].
    intros x. split; [tauto | intros [H | ->]; assumption].
  - apply includes_not_In in Hinc. split; [| split].
    + intros k Hk. now rewrite lookup_insert_ne by congruence.
    + intros x. unfold ids_at at 1. rewrite lookup_insert_eq, in_app_iff.
      simpl. split; [intros [H | [H | []]]; auto | intros [H | H]; auto].
    + intros Hnd. unfold ids_at at 1. rewrite lookup_insert_eq.
      now apply NoDup_snoc.
Qed.

Lemma ids_at_same (b b' : gmap string Object) (key : string) :
  b' !! key = b !! key -> ids_at b' key = ids_at b key.
Proof. unfold ids_at. now intros ->. Qed.

Lemma index_loop (channelId : string) (ps : list string) (w : World) :
  exists w',
    PrivacyStorage.for_each
      (fun d => PrivacyStorage.addChannelToAgent d channelId) ps w
    = (Ok tt, w')
    /\ (forall k, (forall p, k <> KEYS.agentChannels p) ->
          bucket w' !! k = bucket w !! k)
    /\ (forall d,
          (forall x, In x (ids_at (bucket w') (KEYS.agentChannels d))
                     <-> In x (ids_at (bucket w) (KEYS.agentChannels d))
                         \/ (x = channelId /\ In d ps))
          /\ (List.NoDup (ids_at (bucket w) (KEYS.agentChannels d)) ->
              List.NoDup (ids_at (bucket w') (KEYS.agentChannels d)))).
Proof.
  revert w. induction ps as [| p ps IH]; intros w.
  - exists w. split; [reflexivity |]. split; [reflexivity |].
    intros d. split; [| tauto]. intros x. simpl. tauto.
  - cbn [PrivacyStorage.for_each]. unfold bind at 1.
    destruct (addChannelToAgent_effect p channelId w)
      as (w1 & E1 & Hframe1 & Hmem1 & Hnd1).
    rewrite E1.
    destruct (IH w1) as (w' & E & Hframe & Hidx).
    exists w'. split; [exact E |]. split.
    + intros k Hk. rewrite Hframe by exact Hk. apply Hframe1. apply Hk.
    + intros d. destruct (Hidx d) as [Hmem Hnd].
      destruct (String.eqb_spec d p) as [-> | Hne].
      * split.
        -- intros x. rewrite Hmem, Hmem1. simpl. tauto.
        -- intros H. apply Hnd, Hnd1, H.
      * assert (Hsame : ids_at (bucket w1) (KEYS.agentChannels d)
                        = ids_at (bucket w) (KEYS.agentChannels d)).
        { apply ids_at_same, Hframe1. intros H.
          apply KEYS_agentChannels_inj in H. congruence. }
        rewrite Hsame in *. split.
        -- intros x. rewrite Hmem. simpl. intuition congruence.
        -- exact Hnd.
Qed.

Lemma channel_key_not_agent (id d : string) :
  KEYS.channel id <> KEYS.agentChannels d
  /\ KEYS.channel id <> KEYS.agent d
  /\ KEYS.channel id <> KEYS.agentInvitations d.
Proof.
  unfold KEYS.channel, KEYS.agentChannels, KEYS.agent, KEYS.agentInvitations.
  repeat split; intros H; simpl in H; discriminate H.
Qed.

Lemma KEYS_channel_inj (a b : string) : KEYS.channel a = KEYS.channel b -> a = b.
Proof.
  unfold KEYS.channel. intros H.
  now apply append_inv_head, append_inv_tail in H.
Qed.

Lemma invitation_key_other (id x : string) :
  KEYS.invitation id <> KEYS.agentChannels x
  /\ KEYS.invitation id <> KEYS.channel x
  /\ KEYS.invitation id <> KEYS.agent x
  /\ KEYS.invitation id <> KEYS.agentInvitations x.
Proof.
  unfold KEYS.invitation, KEYS.channel, KEYS.agentChannels, KEYS.agent,
    KEYS.agentInvitations.
  repeat split; intros H; simpl in H; discriminate H.
Qed.

(** The effect of [saveChannel] on the bucket. *)
Lemma saveChannel_effect (c : PrivateChannel) (w : World) :
  exists w',
    PrivacyStorage.saveChannel c w = (Ok tt, w')
    /\ (forall k, (forall p, k <> KEYS.agentChannels p) ->
          k <> KEYS.channel (ch_id c) ->
          bucket w' !! k = bucket w !! k)
    /\ bucket w' !! KEYS.channel (ch_id c) = Some (ObjChannel c)
    /\ (forall d,
          (forall x, In x (ids_at (bucket w') (KEYS.agentChannels d))
                     <-> In x (ids_at (bucket w) (KEYS.agentChannels d))
                         \/ (x = ch_id c /\ In d (ch_participants c)))
          /\ (List.NoDup (ids_at (bucket w) (KEYS.agentChannels d)) ->
              List.NoDup (ids_at (bucket w') (KEYS.agentChannels d)))).
Proof.
  unfold PrivacyStorage.saveChannel, bind.
  destruct (bucket_put_run (KEYS.channel (ch_id c)) (ObjChannel c) w)
    as (w1 & E1 & B1 & _).
  rewrite E1.
  destruct (index_loop (ch_id c) (ch_participants c) w1)
    as (w' & E & Hframe & Hidx).
  exists w'. split; [exact E |]. split; [| split].
  - intros k Hk Hne. rewrite Hframe by exact Hk. rewrite B1.
    now apply lookup_insert_ne.
  - rewrite Hframe, B1; [apply lookup_insert_eq |].
    intros p. apply channel_key_not_agent.
  - intros d.
    assert (Hsame : ids_at (bucket w1) (KEYS.agentChannels d)
                    = ids_at (bucket w) (KEYS.agentChannels d)).
    { apply ids_at_same. rewrite B1. apply lookup_insert_ne.
      apply channel_key_not_agent. }
    destruct (Hidx d) as [Hmem Hnd]. rewrite Hsame in *.
    split; [exact Hmem | exact Hnd].
Qed.

Lemma saveChannel_lookups (c : PrivateChannel) (w : World) :
  exists w',
    PrivacyStorage.saveChannel c w = (Ok tt, w')
    /\ (forall id, lookup_channel (bucket w') id
                   = if String.eqb id (ch_id c) then Some c
                     else lookup_channel (bucket w) id)
    /\ (forall d, lookup_agent (bucket w') d = lookup_agent (bucket w) d)
    /\ (forall id, lookup_invitation (bucket w') id
                   = lookup_invitation (bucket w) id).
Proof.
  destruct (saveChannel_effect c w) as (w' & E & Hframe & Hch & _).
  exists w'. split; [exact E |]. split; [| split].
  - intros id. unfold lookup_channel.
    destruct (String.eqb_spec id (ch_id c)) as [-> | Hne].
    + now rewrite Hch.
    + rewrite Hframe; [reflexivity | |].
      * intros p. apply channel_key_not_agent.
      * intros H. apply KEYS_channel_inj in H. congruence.
  - intros d. unfold lookup_agent. rewrite Hframe; [reflexivity | |].
    + intros p. exact (proj1 (agent_key_not_index d p)).
    + intros H. symmetry in H. revert H. apply channel_key_not_agent.
  - intros id. unfold lookup_invitation. rewrite Hframe; [reflexivity | |].
    + intros p. apply invitation_key_other.
    + apply invitation_key_other.
Qed.

(** X14.  After [saveChannel] the channel is read back under its id,
    every participant's channel index lists the channel, an index gains
    no other id and no duplicate, and agents and other channels are read
    back as before. *)
Theorem saveChannel_indexes (c : PrivateChannel) (w : World) :
  let saved := snd (PrivacyStorage.saveChannel c w) in
  fst (PrivacyStorage.saveChannel c w) = Ok tt
  /\ fst (Storage.getChannel (ch_id c) saved) = Ok (Some c)
  /\ (forall d, exists ids ids0,
        fst (PrivacyStorage.getAgentChannels d saved) = Ok ids
        /\ fst (PrivacyStorage.getAgentChannels d w) = Ok ids0
        /\ (forall x, In x ids
                      <-> In x ids0 \/ (x = ch_id c /\ In d (ch_participants c)))
        /\ (List.NoDup ids0 -> List.NoDup ids))
  /\ (forall d, fst (Storage.getAgent d saved) = fst (Storage.getAgent d w))
  /\ (forall id, id <> ch_id c ->
        fst (Storage.getChannel id saved) = fst (Storage.getChannel id w)).
Proof.
  intros saved. unfold saved.
  destruct (saveChannel_effect c w) as (w' & E & _ & _ & Hidx).
  destruct (saveChannel_lookups c w) as (w2 & E2 & Hch & Hag & _).
  rewrite E in E2. injection E2 as <-. rewrite E. simpl.
  split; [reflexivity |]. split; [| split; [| split]].
  - rewrite getChannel_result, Hch. now rewrite String.eqb_refl.
  - intros d. exists (ids_at (bucket w') (KEYS.agentChannels d)),
                     (ids_at (bucket w) (KEYS.agentChannels d)).
    rewrite !getAgentChannels_result.
    split; [reflexivity |]. split; [reflexivity |]. apply Hidx.
  - intros d. now rewrite !getAgent_result, Hag.
  - intros id Hne. rewrite !getChannel_result, Hch.
    destruct (String.eqb_spec id (ch_id c)); [contradiction | reflexivity].
Qed.

Lemma saveChannel_indexes_witness :
  exists ids,
    fst (PrivacyStorage.getAgentChannels alice_did
           (snd (PrivacyStorage.saveChannel full_channel
                   (world_of agents_bucket)))) = Ok ids
    /\ List.NoDup ids.
Proof.
  destruct (saveChannel_indexes full_channel (world_of agents_bucket))
    as (_ & _ & Hidx & _).
  destruct (Hidx alice_did) as (ids & ids0 & E & E0 & _ & Hnd).
  exists ids. split; [exact E |]. apply Hnd.
  vm_compute in E0. injection E0 as <-. constructor.
Defined.

(** ** Reading the invitations of an agent (storage.ts,
    [getAgentInvitations]) *)




Lemma getInvitation_run (id : string) (w : World) :
  exists w', PrivacyStorage.getInvitation id w
             = (Ok (lookup_invitation (bucket w) id), w')
             /\ bucket w' = bucket w /\ draw w' = draw w.
Proof.
  unfold PrivacyStorage.getInvitation, lookup_invitation, bucket_get, bind,
    suspend. simpl.
  destruct (bucket w !! KEYS.invitation id) as [[| | | i |] |]; simpl;
    eexists; repeat split.
Qed.








(** ** Searching agents (storage.ts, [searchAgents]) *)

Lemma existsb_same {A} (f g : A -> bool) (l : list A) :
  (forall x, f x = g x) -> existsb f l = existsb g l.
Proof.
  intros H. induction l as [| x l IH]; simpl; [reflexivity |].
  now rewrite H, IH.
Qed.

Lemma search_keeps_spec (query : SearchQuery) (a : MoltbookAgent) :
  search_keeps query a = true
  <-> (forall caps, q_capabilities query = Some caps ->
         forall cap, In cap caps -> In cap (prof_capabilities (profile a)))
      /\ (forall minimum, q_minReputation query = Some minimum ->
            minimum <= prof_reputation (profile a))
      /\ (forall contract schema, q_hasNFT query = Some (contract, schema) ->
            hasVerifiedNFT a contract schema = true).
Proof.
  unfold search_keeps. rewrite !andb_true_iff.
  assert (Hnft : forall contract schema,
             existsb (fun c =>
                        cred_verified c
                        && String.eqb (cred_contract c) contract
                        && (negb (truthy_str schema)
                            || String.eqb (cred_schema c) (default "" schema)))
                     (credentials_of a)
             = hasVerifiedNFT a contract schema).
  { intros contract schema. unfold hasVerifiedNFT.
    apply existsb_same. intros c. unfold credential_matches.
    destruct (cred_verified c); simpl; [| reflexivity].
    destruct (String.eqb (cred_contract c) contract); simpl; [| reflexivity].
    destruct (truthy_str schema); simpl; [| reflexivity].
    now destruct (String.eqb (cred_schema c) (default "" schema)). }
  split.
  - intros [[Hcaps Hrep] Hcred]. split; [| split].
    + intros caps Hq cap Hcap. rewrite Hq in Hcaps.
      rewrite forallb_forall in Hcaps. apply includes_In. now apply Hcaps.
    + intros minimum Hq. rewrite Hq in Hrep.
      apply negb_true_iff, Z.ltb_ge in Hrep. exact Hrep.
    + intros contract schema Hq. rewrite Hq in Hcred. now rewrite <- Hnft.
  - intros (Hcaps & Hrep & Hcred). repeat split.
    + destruct (q_capabilities query) as [caps |]; [| reflexivity].
      apply forallb_forall. intros cap Hcap. apply includes_In.
      now apply (Hcaps caps).
    + destruct (q_minReputation query) as [minimum |]; [| reflexivity].
      apply negb_true_iff, Z.ltb_ge. now apply Hrep.
    + destruct (q_hasNFT query) as [[contract schema] |]; [| reflexivity].
      rewrite Hnft. now apply Hcred.
Qed.

Lemma search_loop_run (query : SearchQuery) (keys : list string) (w : World) :
  exists agents w',
    PrivacyStorage.search_loop query keys w = (Ok agents, w')
    /\ bucket w' = bucket w
    /\ (forall a, In a agents
                  <-> search_keeps query a = true
                      /\ exists key,
                           In key keys
                           /\ contains "/channels.json" key = false
                           /\ contains "/invitations.json" key = false
                           /\ bucket w !! key = Some (ObjAgent a)).
Proof.
  revert w. induction keys as [| key keys IH]; intros w.
  - exists [], w. split; [reflexivity |]. split; [reflexivity |].
    intros a. split; [intros [] | intros (_ & k & [] & _)].
  - cbn [PrivacyStorage.search_loop].
    assert (Hskip : forall w0 : World,
               bucket w0 = bucket w ->
               (forall a, search_keeps query a = true ->
                          contains "/channels.json" key = false ->
                          contains "/invitations.json" key = false ->
                          bucket w !! key = Some (ObjAgent a) -> False) ->
               exists agents w',
                 PrivacyStorage.search_loop query keys w0 = (Ok agents, w')
                 /\ bucket w' = bucket w
                 /\ (forall a, In a agents
                       <-> search_keeps query a = true
                           /\ exists k,
                                In k (key :: keys)
                                /\ contains "/channels.json" k = false
                                /\ contains "/invitations.json" k = false
                                /\ bucket w !! k = Some (ObjAgent a))).
    { intros w0 B0 Hno. destruct (IH w0) as (agents & w' & E & B & Hmem).
      exists agents, w'. split; [exact E |]. rewrite B0 in *.
      split; [exact B |]. intros a. rewrite Hmem. split.
      - intros (Hk & k & Hin & H1 & H2 & Hb).
        split; [exact Hk |]. exists k. repeat split; auto. now right.
      - intros (Hk & k & [<- | Hin] & H1 & H2 & Hb).
        + exfalso. exact (Hno a Hk H1 H2 Hb).
        + split; [exact Hk |]. exists k. auto. }
    destruct (contains "/channels.json" key) eqn:Hc1.
    { apply (Hskip w eq_refl). intros a _ H. discriminate H. }
    destruct (contains "/invitations.json" key) eqn:Hc2.
    { apply (Hskip w eq_refl). intros a _ _ H. discriminate H. }
    unfold bind at 1, bucket_get, bind at 1, suspend at 1. simpl.
    set (w1 := {| bucket := bucket w; tick := S (tick w); draw := draw w |}).
    destruct (bucket w !! key) as [[a0 | c | m | i | ids] |] eqn:Hb;
      try (apply (Hskip w1 eq_refl); intros a _ _ _ H; discriminate H).
    unfold bind at 1, suspend at 1. simpl.
    set (w2 := {| bucket := bucket w; tick := S (S (tick w)); draw := draw w |}).
    destruct (search_keeps query a0) eqn:Hkeep.
    + unfold bind at 1.
      destruct (IH w2) as (agents & w' & E & B & Hmem).
      rewrite E. exists (a0 :: agents), w'. split; [reflexivity |].
      split; [exact B |]. intros a. simpl. rewrite Hmem. simpl. split.
      * intros [<- | (Hk & k & Hin & H1 & H2 & Hbk)].
        -- split; [exact Hkeep |]. exists key. auto.
        -- split; [exact Hk |]. exists k. auto.
      * intros (Hk & k & [<- | Hin] & H1 & H2 & Hbk).
        -- left. congruence.
        -- right. split; [exact Hk |]. exists k. auto.
    + apply (Hskip w2 eq_refl). intros a Hk _ _ H.
      injection H as <-. congruence.
Qed.

Lemma prefix_spec (p s : string) :
  String.prefix p s = true <-> exists rest, s = p +:+ rest.
Proof.
  revert s. induction p as [| c p IH]; intros s.
  - split; [intros _; now exists s | intros _; now destruct s].
  - destruct s as [| c' s].
    + split; [discriminate | intros (rest & H); discriminate H].
    + rewrite prefix_cons, andb_true_iff, IH. split.
      * intros [Hc (rest & ->)]. apply Ascii.eqb_eq in Hc. subst c'.
        now exists rest.
      * intros (rest & H).
        change (String c' s = String c (p +:+ rest)) in H.
        injection H as -> ->. split; [apply Ascii.eqb_refl | now exists rest].
Qed.

Lemma contains_spec (sub s : string) :
  contains sub s = true <-> exists before after, s = before +:+ sub +:+ after.
Proof.
  induction s as [| c s IH].
  - cbn [contains]. rewrite orb_false_r, prefix_spec. split.
    + intros (rest & H). now exists "", rest.
    + intros (before & after & H). destruct before; [now exists after |].
      discriminate H.
  - cbn [contains]. rewrite orb_true_iff, prefix_spec, IH. split.
    + intros [(rest & H) | (before & after & ->)].
      * now exists "", rest.
      * now exists (String c before), after.
    + intros (before & after & H). destruct before as [| c' before].
      * left. now exists after.
      * right. change (String c s = String c' (before +:+ sub +:+ after)) in H.
        injection H as _ ->. now exists before, after.
Qed.

Lemma contains_false (sub s : string) :
  contains sub s = false
  <-> ~ exists before after, s = before +:+ sub +:+ after.
Proof.
  rewrite <- contains_spec. now destruct (contains sub s).
Qed.

(** X16.  [searchAgents] returns exactly the agents stored under a key
    that starts with the agents prefix and contains neither
    [/channels.json] nor [/invitations.json], and that have every
    requested capability, a reputation of at least the requested minimum,
    and a verified credential on the requested contract, of the requested
    schema when one is named; it does not write to the bucket. *)
Theorem searchAgents_exact (query : SearchQuery) (w : World) :
  exists agents w',
    PrivacyStorage.searchAgents query w = (Ok agents, w')
    /\ bucket w' = bucket w
    /\ (forall a,
          In a agents
          <-> ((forall caps, q_capabilities query = Some caps ->
                  forall cap, In cap caps ->
                    In cap (prof_capabilities (profile a)))
               /\ (forall minimum, q_minReputation query = Some minimum ->
                     minimum <= prof_reputation (profile a))
               /\ (forall contract schema,
                     q_hasNFT query = Some (contract, schema) ->
                     exists c,
                       In c (credentials_of a)
                       /\ cred_verified c = true
                       /\ cred_contract c = contract
                       /\ (forall s, schema = Some s -> s <> "" ->
                             cred_schema c = s)))
              /\ exists key,
                   (exists rest, key = "privacy/agents/" +:+ rest)
                   /\ (~ exists before after,
                         key = before +:+ "/channels.json" +:+ after)
                   /\ (~ exists before after,
                         key = before +:+ "/invitations.json" +:+ after)
                   /\ bucket w !! key = Some (ObjAgent a)).
Proof.
  unfold PrivacyStorage.searchAgents, bind, bucket_list, bind, suspend. simpl.
  set (w1 := {| bucket := bucket w; tick := S (tick w); draw := draw w |}).
  destruct (search_loop_run query
              (List.filter (String.prefix "privacy/agents/")
                           (map fst (map_to_list (bucket w)))) w1)
    as (agents & w' & E & B & Hmem).
  rewrite E. exists agents, w'. split; [reflexivity |]. split; [exact B |].
  assert (Hcred : forall a contract schema,
             hasVerifiedNFT a contract schema = true
             <-> exists c,
                   In c (credentials_of a)
                   /\ cred_verified c = true
                   /\ cred_contract c = contract
                   /\ (forall s, schema = Some s -> s <> "" ->
                         cred_schema c = s)).
  { intros a contract schema.
    pose proof (hasVerifiedNFT_spec a
                  {| gate_contract := contract; gate_schema := schema;
                     gate_minAmount := None |}) as H.
    cbn [gate_contract gate_schema] in H. rewrite H.
    unfold matches_gate. cbn [gate_contract gate_schema]. reflexivity. }
  assert (Hkeeps : forall a,
             search_keeps query a = true
             <-> (forall caps, q_capabilities query = Some caps ->
                    forall cap, In cap caps ->
                      In cap (prof_capabilities (profile a)))
                 /\ (forall minimum, q_minReputation query = Some minimum ->
                       minimum <= prof_reputation (profile a))
                 /\ (forall contract schema,
                       q_hasNFT query = Some (contract, schema) ->
                       exists c,
                         In c (credentials_of a)
                         /\ cred_verified c = true
                         /\ cred_contract c = contract
                         /\ (forall s, schema = Some s -> s <> "" ->
                               cred_schema c = s))).
  { intros a. rewrite search_keeps_spec. split.
    - intros (H1 & H2 & H3). split; [exact H1 |]. split; [exact H2 |].
      intros contract schema Hq. apply Hcred. now apply H3.
    - intros (H1 & H2 & H3). split; [exact H1 |]. split; [exact H2 |].
      intros contract schema Hq. apply Hcred. now apply H3. }
  intros a. rewrite Hmem, Hkeeps. cbn [bucket w1]. split.
  - intros (Hk & key & Hin & H1 & H2 & Hb). split; [exact Hk |].
    exists key. split.
    + apply prefix_spec. apply (listed_keys_prefix (bucket w) _ _ Hin).
    + split; [now apply contains_false |].
      split; [now apply contains_false | exact Hb].
  - intros (Hk & key & Hp & H1 & H2 & Hb). split; [exact Hk |].
    exists key. split.
    + apply prefix_spec in Hp.
      apply (listed_keys_spec (bucket w) _ _ _ Hb Hp).
    + split; [now apply contains_false |].
      split; [now apply contains_false | exact Hb].
Qed.

Lemma searchAgents_exact_witness :
  exists agents w',
    PrivacyStorage.searchAgents reviewer_query (world_of agents_bucket)
    = (Ok agents, w')
    /\ Forall (fun a => 50 <= prof_reputation (profile a)) agents.
Proof.
  destruct (searchAgents_exact reviewer_query (world_of agents_bucket))
    as (agents & w' & E & _ & Hexact).
  exists agents, w'. split; [exact E |].
  apply List.Forall_forall. intros a Ha.
  apply Hexact in Ha. destruct Ha as ((_ & Hrep & _) & _). now apply Hrep.
Defined.

(** ** The invitation routes ([POST /invitations/:id/accept],
    [POST /invitations/:id/reject]) *)

Lemma updateInvitation_run (i : ChannelInvitation) (w : World) :
  exists w', PrivacyStorage.updateInvitation i w = (Ok tt, w')
             /\ bucket w' = <[KEYS.invitation (inv_id i) := ObjInvitation i]>
                              (bucket w).
Proof.
  unfold PrivacyStorage.updateInvitation.
  destruct (bucket_put_run (KEYS.invitation (inv_id i)) (ObjInvitation i) w)
    as (w' & E & B & _).
  exists w'. split; assumption.
Qed.

(** X17.  The reject route: without a registered caller it answers 401,
    for an unknown invitation 404, for an invitation addressed to someone
    else 403, for an invitation that is not pending 400, and in these
    cases writes nothing; for a pending invitation addressed to the caller
    it answers 200 and stores the invitation as rejected, changing no
    other key. *)
Theorem rejectInvitationRoute_spec (header : option string) (id : string)
    (w : World) :
  exists resp w',
    rejectInvitationRoute header id w = (Ok resp, w')
    /\ match authenticated (bucket w) header with
       | None => status resp = 401 /\ bucket w' = bucket w
       | Some agent =>
           match lookup_invitation (bucket w) id with
           | None => status resp = 404 /\ bucket w' = bucket w
           | Some i =>
               if negb (String.eqb (inv_invitee i) (did agent)) then
                 status resp = 403 /\ bucket w' = bucket w
               else if negb (status_eqb (inv_status i) pending) then
                 status resp = 400 /\ bucket w' = bucket w
                 /\ error_message resp
                    = Some ("Cannot reject invitation with status: "
                            +:+ status_name (inv_status i))
               else
                 status resp = 200
                 /\ bucket w'
                    = <[KEYS.invitation (inv_id i)
                        := ObjInvitation (with_status i rejected)]> (bucket w)
           end
       end.
Proof.
  unfold rejectInvitationRoute, bind.
  destruct (requireAgent_run header w) as (w1 & E1 & B1 & _). rewrite E1.
  destruct (authenticated (bucket w) header) as [agent |].
  2:{ do 2 eexists. split; [reflexivity |]. split; [reflexivity | exact B1]. }
  destruct (getInvitation_run id w1) as (w2 & E2 & B2 & _).
  rewrite E2, B1.
  destruct (lookup_invitation (bucket w) id) as [i |].
  2:{ do 2 eexists. split; [reflexivity |]. split; [reflexivity | congruence]. }
  destruct (negb (String.eqb (inv_invitee i) (did agent))).
  { do 2 eexists. split; [reflexivity |]. split; [reflexivity | congruence]. }
  unfold rejectInvitation.
  destruct (negb (status_eqb (inv_status i) pending)).
  { do 2 eexists. split; [reflexivity |].
    split; [reflexivity |]. split; [congruence | reflexivity]. }
  destruct (updateInvitation_run (with_status i rejected) w2) as (w3 & E3 & B3).
  rewrite E3. do 2 eexists. split; [reflexivity |].
  split; [reflexivity |]. rewrite B3, B2, B1. reflexivity.
Qed.

Lemma rejectInvitationRoute_spec_witness :
  exists resp w',
    rejectInvitationRoute None "inv-123" (world_of invitations_bucket)
    = (Ok resp, w')
    /\ status resp = 401 /\ bucket w' = invitations_bucket.
Proof.
  destruct (rejectInvitationRoute_spec None "inv-123"
              (world_of invitations_bucket)) as (resp & w' & E & H).
  exists resp, w'. split; [exact E | exact H].
Defined.

(** X18.  The accept route: it answers 401, 404, 403 and 400 as the
    reject route does and then writes nothing.  For a pending invitation
    addressed to the caller it stores the invitation as accepted when the
    clock has not passed its expiry and as expired otherwise; when the
    channel of the invitation is stored, the caller is then added to its
    participants in both cases, unless the channel is full, in which case
    the answer is 400 although the invitation has been stored. *)
Theorem acceptInvitationRoute_spec (env : Env) (header : option string)
    (id : string) (w : World) :
  exists resp w',
    acceptInvitationRoute env header id w = (Ok resp, w')
    /\ match authenticated (bucket w) header with
       | None => status resp = 401 /\ bucket w' = bucket w
       | Some agent =>
           match lookup_invitation (bucket w) id with
           | None => status resp = 404 /\ bucket w' = bucket w
           | Some i =>
               if negb (String.eqb (inv_invitee i) (did agent)) then
                 status resp = 403 /\ bucket w' = bucket w
               else if negb (status_eqb (inv_status i) pending) then
                 status resp = 400 /\ bucket w' = bucket w
               else
                 let now :=
                   time_at env
                     (tick (snd (PrivacyStorage.getInvitation id
                                   (snd (requireAgent header w))))) in
                 let i' :=
                   with_status i (if inv_expiresAt i <? now
                                  then expired else accepted) in
                 acceptInvitation now i = Ok i'
                   /\ lookup_invitation (bucket w') (inv_id i) = Some i'
                   /\ match lookup_channel
                              (<[KEYS.invitation (inv_id i)
                                 := ObjInvitation i']> (bucket w))
                              (inv_channelId i) with
                      | None =>
                          resp = success_with 200
                                   (i', inv_encryptedChannelKey i')
                          /\ bucket w'
                             = <[KEYS.invitation (inv_id i)
                                 := ObjInvitation i']> (bucket w)
                      | Some channel =>
                          match addParticipant channel (did agent) with
                          | Err message =>
                              resp = failure 400 message
                              /\ bucket w'
                                 = <[KEYS.invitation (inv_id i)
                                     := ObjInvitation i']> (bucket w)
                          | Ok channel' =>
                              resp = success_with 200
                                       (i', inv_encryptedChannelKey i')
                              /\ lookup_channel (bucket w') (ch_id channel)
                                 = Some channel'
                              /\ In (did agent) (ch_participants channel')
                          end
                      end
           end
       end.
Proof.
  unfold acceptInvitationRoute, bind.
  destruct (requireAgent_run header w) as (w1 & E1 & B1 & _). rewrite E1.
  cbn [snd].
  destruct (authenticated (bucket w) header) as [agent |].
  2:{ do 2 eexists. split; [reflexivity |]. split; [reflexivity | exact B1]. }
  destruct (getInvitation_run id w1) as (w2 & E2 & B2 & _).
  rewrite E2, B1. cbn [snd]. cbn zeta.
  destruct (lookup_invitation (bucket w) id) as [i |].
  2:{ do 2 eexists. split; [reflexivity |]. split; [reflexivity | congruence]. }
  destruct (negb (String.eqb (inv_invitee i) (did agent))).
  { do 2 eexists. split; [reflexivity |]. split; [reflexivity | congruence]. }
  unfold Date_now at 1.
  set (now := time_at env (tick w2)).
  destruct (negb (status_eqb (inv_status i) pending)) eqn:Hst.
  { unfold acceptInvitation. rewrite Hst.
    do 2 eexists. split; [reflexivity |]. split; [reflexivity | congruence]. }
  assert (Hacc : acceptInvitation now i
                 = Ok (with_status i (if inv_expiresAt i <? now
                                      then expired else accepted))).
  { unfold acceptInvitation. rewrite Hst.
    now destruct (inv_expiresAt i <? now). }
  rewrite Hacc.
  set (i' := with_status i (if inv_expiresAt i <? now then expired else accepted))
    in *.
  destruct (updateInvitation_run i' w2) as (w3 & E3 & B3). rewrite E3.
  assert (Hid : inv_id i' = inv_id i) by reflexivity.
  rewrite Hid in B3. rewrite B2, B1 in B3.
  destruct (getChannel_run (inv_channelId i) w3) as (w4 & E4 & B4 & _).
  rewrite E4, B3.
  destruct (lookup_channel
              (<[KEYS.invitation (inv_id i) := ObjInvitation i']> (bucket w))
              (inv_channelId i)) as [channel |] eqn:Hlc.
  2:{ do 2 eexists. split; [reflexivity |].
      split; [reflexivity |].
      simpl. rewrite B4, B3. split; [| split; reflexivity].
      unfold lookup_invitation. now rewrite lookup_insert_eq. }
  destruct (addParticipant channel (did agent)) as [channel' | message] eqn:Hadd.
  - destruct (saveChannel_lookups channel' w4) as (w5 & E5 & Hch & _ & Hinv).
    rewrite E5. do 2 eexists. split; [reflexivity |].
    split; [reflexivity |].
    simpl. split; [| split; [reflexivity | split]].
    + rewrite Hinv, B4, B3. unfold lookup_invitation.
      now rewrite lookup_insert_eq.
    + rewrite Hch.
      assert (Hsame : ch_id channel' = ch_id channel).
      { apply addParticipant_result in Hadd.
        destruct Hadd as [[-> _] | [-> _]]; reflexivity. }
      rewrite Hsame. now rewrite String.eqb_refl.
    + apply addParticipant_result in Hadd.
      destruct Hadd as [[-> Hin] | [-> _]]; [exact Hin |].
      simpl. apply in_app_iff. right. now left.
  - do 2 eexists. split; [reflexivity |].
    split; [reflexivity |].
    simpl. rewrite B4, B3. split; [| split; reflexivity].
    unfold lookup_invitation. now rewrite lookup_insert_eq.
Qed.

Lemma acceptInvitationRoute_spec_witness :
  exists resp w',
    acceptInvitationRoute env0 None "inv-123" (world_of invitations_bucket)
    = (Ok resp, w')
    /\ status resp = 401 /\ bucket w' = invitations_bucket.
Proof.
  destruct (acceptInvitationRoute_spec env0 None "inv-123"
              (world_of invitations_bucket)) as (resp & w' & E & H).
  exists resp, w'. split; [exact E | exact H].
Defined.

(** ** Joining and leaving a channel ([POST /channels/:id/join],
    [POST /channels/:id/leave]) *)

(** X19.  The join route, for a registered caller and a stored channel: a
    caller who is already a participant gets the channel back and nothing
    is written; a caller whom [canAccessChannel] denies gets 403 with the
    reason and nothing is written; a caller who is allowed is appended to
    the participants and the channel is stored, agents being left as they
    were; when the channel is full the exception of [addParticipant]
    leaves the handler and nothing is written. *)
Theorem joinChannel_spec (header : option string) (channelId : string)
    (w : World) (agent : MoltbookAgent) (channel : PrivateChannel) :
  authenticated (bucket w) header = Some agent ->
  lookup_channel (bucket w) channelId = Some channel ->
  (In (did agent) (ch_participants channel) ->
     exists w', joinChannel header channelId w
                = (Ok (success_with 200 channel), w')
                /\ bucket w' = bucket w)
  /\ (~ In (did agent) (ch_participants channel) ->
      allowed (canAccessChannel channel agent) = false ->
      exists w',
        joinChannel header channelId w
        = (Ok (failure 403 (default "Access denied"
                              (reason (canAccessChannel channel agent)))), w')
        /\ bucket w' = bucket w)
  /\ (~ In (did agent) (ch_participants channel) ->
      allowed (canAccessChannel channel agent) = true ->
      forall message, addParticipant channel (did agent) = Err message ->
      exists w', joinChannel header channelId w = (Err message, w')
                 /\ bucket w' = bucket w)
  /\ (~ In (did agent) (ch_participants channel) ->
      allowed (canAccessChannel channel agent) = true ->
      forall channel', addParticipant channel (did agent) = Ok channel' ->
      exists w',
        joinChannel header channelId w = (Ok (success_with 200 channel'), w')
        /\ ch_participants channel' = ch_participants channel ++ [did agent]
        /\ lookup_channel (bucket w') (ch_id channel) = Some channel'
        /\ (forall d, lookup_agent (bucket w') d = lookup_agent (bucket w) d)).
Proof.
  intros Hauth Hch. unfold joinChannel, bind.
  destruct (requireAgent_run header w) as (w1 & E1 & B1 & _).
  rewrite E1, Hauth.
  destruct (getChannel_run channelId w1) as (w2 & E2 & B2 & _).
  rewrite E2, B1, Hch.
  split; [| split; [| split]].
  - intros Hin. apply includes_In in Hin. rewrite Hin.
    eexists. split; [reflexivity | congruence].
  - intros Hout Hdeny. apply includes_not_In in Hout. rewrite Hout, Hdeny.
    eexists. split; [reflexivity | congruence].
  - intros Hout Hallow message Hadd. apply includes_not_In in Hout.
    rewrite Hout, Hallow, Hadd. simpl.
    eexists. split; [reflexivity | congruence].
  - intros Hout Hallow channel' Hadd.
    pose proof Hout as Hinc. apply includes_not_In in Hinc.
    rewrite Hinc, Hallow, Hadd. simpl.
    destruct (saveChannel_lookups channel' w2) as (w3 & E3 & Hlc & Hag & _).
    unfold ret at 1. rewrite E3.
    apply addParticipant_result in Hadd.
    destruct Hadd as [[_ Hin] | [-> _]]; [contradiction |].
    eexists. split; [reflexivity |]. split; [reflexivity |]. split.
    + rewrite Hlc. simpl. now rewrite String.eqb_refl.
    + intros d. rewrite Hag. congruence.
Qed.

Lemma joinChannel_spec_witness :
  exists w',
    joinChannel (Some alice_did) "ch-test123" (world_of chat_bucket)
    = (Ok (success_with 200 ttl_channel), w')
    /\ bucket w' = chat_bucket.
Proof.
  destruct (joinChannel_spec (Some alice_did) "ch-test123"
              (world_of chat_bucket) alice_agent ttl_channel eq_refl eq_refl)
    as [Hpresent _].
  apply Hpresent. simpl. right. now left.
Defined.

Lemma index_loop_frame (channelId : string) (ps : list string) (w : World) :
  exists w',
    PrivacyStorage.for_each
      (fun d => PrivacyStorage.addChannelToAgent d channelId) ps w
    = (Ok tt, w')
    /\ (forall k, (forall p, In p ps -> k <> KEYS.agentChannels p) ->
          bucket w' !! k = bucket w !! k).
Proof.
  revert w. induction ps as [| p ps IH]; intros w.
  - exists w. split; reflexivity.
  - cbn [PrivacyStorage.for_each]. unfold bind at 1.
    destruct (addChannelToAgent_effect p channelId w)
      as (w1 & E1 & Hframe1 & _).
    rewrite E1.
    destruct (IH w1) as (w' & E & Hframe).
    exists w'. split; [exact E |].
    intros k Hk. rewrite Hframe.
    + apply Hframe1. apply Hk. now left.
    + intros q Hq. apply Hk. now right.
Qed.

Lemma saveChannel_frame (c : PrivateChannel) (w : World) :
  exists w',
    PrivacyStorage.saveChannel c w = (Ok tt, w')
    /\ (forall k, (forall p, In p (ch_participants c) ->
                     k <> KEYS.agentChannels p) ->
          k <> KEYS.channel (ch_id c) ->
          bucket w' !! k = bucket w !! k).
Proof.
  unfold PrivacyStorage.saveChannel, bind.
  destruct (bucket_put_run (KEYS.channel (ch_id c)) (ObjChannel c) w)
    as (w1 & E1 & B1 & _).
  rewrite E1.
  destruct (index_loop_frame (ch_id c) (ch_participants c) w1)
    as (w' & E & Hframe).
  exists w'. split; [exact E |].
  intros k Hk Hne. rewrite Hframe by exact Hk. rewrite B1.
  now apply lookup_insert_ne.
Qed.

Lemma leaveChannel_run (header : option string) (channelId : string)
    (w : World) (agent : MoltbookAgent) (channel : PrivateChannel) :
  authenticated (bucket w) header = Some agent ->
  lookup_channel (bucket w) channelId = Some channel ->
  did agent <> ch_createdBy channel ->
  exists w2 w',
    bucket w2 = bucket w
    /\ PrivacyStorage.saveChannel
         (with_participants channel
            (List.filter (fun p => negb (String.eqb p (did agent)))
                         (ch_participants channel))) w2
       = (Ok tt, w')
    /\ leaveChannel header channelId w = (Ok success_empty, w').
Proof.
  intros Hauth Hch Hne. unfold leaveChannel, bind.
  destruct (requireAgent_run header w) as (w1 & E1 & B1 & _).
  rewrite E1, Hauth.
  destruct (getChannel_run channelId w1) as (w2 & E2 & B2 & _).
  rewrite E2, B1, Hch.
  unfold removeParticipant. rewrite String.eqb_refl. simpl.
  rewrite andb_false_r.
  destruct (String.eqb_spec (did agent) (ch_createdBy channel))
    as [Heq | _]; [contradiction |].
  set (channel' := with_participants channel _).
  destruct (saveChannel_frame channel' w2) as (w3 & E3 & _).
  exists w2, w3. split; [congruence |]. split; [exact E3 |].
  now rewrite E3.
Qed.

(** X20.  The leave route, for a registered caller and a stored channel:
    the creator is refused with 400 "Cannot remove channel creator" and
    nothing is written; any other caller gets 200 and the stored channel
    no longer lists the caller while every other participant stays; the
    caller's own channel index is left as it was (the route calls only
    [saveChannel], which adds to the indexes of the remaining participants
    and removes from none), so a channel listed there stays listed. *)
Theorem leaveChannel_spec (header : option string) (channelId : string)
    (w : World) (agent : MoltbookAgent) (channel : PrivateChannel) :
  authenticated (bucket w) header = Some agent ->
  lookup_channel (bucket w) channelId = Some channel ->
  (did agent = ch_createdBy channel ->
     exists w',
       leaveChannel header channelId w
       = (Ok (failure 400 "Cannot remove channel creator"), w')
       /\ bucket w' = bucket w)
  /\ (did agent <> ch_createdBy channel ->
      exists w' channel',
        leaveChannel header channelId w = (Ok success_empty, w')
        /\ lookup_channel (bucket w') (ch_id channel) = Some channel'
        /\ ~ In (did agent) (ch_participants channel')
        /\ (forall p, p <> did agent ->
              (In p (ch_participants channel')
               <-> In p (ch_participants channel)))
        /\ ids_at (bucket w') (KEYS.agentChannels (did agent))
           = ids_at (bucket w) (KEYS.agentChannels (did agent))).
Proof.
  intros Hauth Hch. split.
  - intros Hc. unfold leaveChannel, bind.
    destruct (requireAgent_run header w) as (w1 & E1 & B1 & _).
    rewrite E1, Hauth.
    destruct (getChannel_run channelId w1) as (w2 & E2 & B2 & _).
    rewrite E2, B1, Hch.
    unfold removeParticipant. rewrite !String.eqb_refl. simpl.
    rewrite andb_false_r, Hc, String.eqb_refl.
    eexists. split; [reflexivity | congruence].
  - intros Hne.
    destruct (leaveChannel_run header channelId w agent channel
                Hauth Hch Hne) as (w2 & w3 & B2 & E3 & E).
    set (channel' := with_participants channel _) in E3.
    assert (Hout : ~ In (did agent) (ch_participants channel')).
    { subst channel'. simpl. rewrite filter_In.
      intros [_ H]. now rewrite String.eqb_refl in H. }
    destruct (saveChannel_lookups channel' w2) as (w4 & E4 & Hlc & _).
    rewrite E3 in E4. injection E4 as <-.
    destruct (saveChannel_frame channel' w2) as (w4 & E4 & Hframe).
    rewrite E3 in E4. injection E4 as <-.
    exists w3, channel'. split; [exact E |].
    split; [| split; [exact Hout | split]].
    + rewrite Hlc. subst channel'. simpl. now rewrite String.eqb_refl.
    + intros p Hp. subst channel'. simpl. rewrite filter_In.
      split; [tauto |]. intros H. split; [exact H |].
      destruct (String.eqb_spec p (did agent)); [contradiction | reflexivity].
    + rewrite <- B2. apply ids_at_same. apply Hframe.
      * intros p Hp Hk. apply KEYS_agentChannels_inj in Hk. congruence.
      * intros Hk. symmetry in Hk.
        exact (proj1 (channel_key_not_agent _ _) Hk).
Qed.

Lemma leaveChannel_spec_witness :
  exists w' channel',
    leaveChannel (Some alice_did) "ch-test123" (world_of chat_bucket)
    = (Ok success_empty, w')
    /\ lookup_channel (bucket w') "ch-test123" = Some channel'
    /\ ~ In alice_did (ch_participants channel').
Proof.
  destruct (leaveChannel_spec (Some alice_did) "ch-test123"
              (world_of chat_bucket) alice_agent ttl_channel eq_refl eq_refl)
    as [_ Hother].
  destruct Hother as (w' & channel' & E & Hl & Hout & _).
  - simpl. discriminate.
  - exists w', channel'. split; [exact E |]. split; [exact Hl | exact Hout].
Defined.

(** ** Base64 ([arrayBufferToBase64], [base64ToArrayBuffer]) *)

Lemma forall_range (P : Z -> bool) (n : nat) :
  forallb P (map Z.of_nat (seq 0 n)) = true ->
  forall z, (0 <= z < Z.of_nat n)%Z -> P z = true.
Proof.
  intros H z Hz. rewrite List.forallb_forall in H. apply H.
  apply List.in_map_iff. exists (Z.to_nat z). split; [lia |].
  apply List.in_seq. lia.
Qed.

Lemma base64_char_facts (i : Z) :
  (0 <= i < 64)%Z ->
  base64_index (Crypto.base64_char i) = i
  /\ is_base64_char (Crypto.base64_char i) = true
  /\ is_ascii_space (Crypto.base64_char i) = false
  /\ Ascii.eqb (Crypto.base64_char i) "="%char = false.
Proof.
  intros Hi.
  pose (P := fun i =>
          Z.eqb (base64_index (Crypto.base64_char i)) i
          && is_base64_char (Crypto.base64_char i)
          && negb (is_ascii_space (Crypto.base64_char i))
          && negb (Ascii.eqb (Crypto.base64_char i) "="%char)).
  assert (H : P i = true)
    by (apply (forall_range P 64); [vm_compute; reflexivity | lia]).
  unfold P in H.
  rewrite !andb_true_iff, !negb_true_iff, Z.eqb_eq in H. tauto.
Qed.

Lemma sextets_of_byte (b : Z) :
  (0 <= b < 256)%Z ->
  Z.shiftr b 2 = (b / 4)%Z
  /\ Z.land (Z.shiftl b 4) 63 = ((b mod 4) * 16)%Z
  /\ Z.shiftr b 4 = (b / 16)%Z
  /\ Z.land (Z.shiftl b 2) 63 = ((b mod 16) * 4)%Z
  /\ Z.shiftr b 6 = (b / 64)%Z
  /\ Z.land b 63 = (b mod 64)%Z.
Proof.
  intros Hb.
  pose (P := fun b =>
          Z.eqb (Z.shiftr b 2) (b / 4)
          && Z.eqb (Z.land (Z.shiftl b 4) 63) ((b mod 4) * 16)
          && Z.eqb (Z.shiftr b 4) (b / 16)
          && Z.eqb (Z.land (Z.shiftl b 2) 63) ((b mod 16) * 4)
          && Z.eqb (Z.shiftr b 6) (b / 64)
          && Z.eqb (Z.land b 63) (b mod 64)).
  assert (H : P b = true)
    by (apply (forall_range P 256); [vm_compute; reflexivity | lia]).
  unfold P in H. rewrite !andb_true_iff, !Z.eqb_eq in H. tauto.
Qed.

Lemma lor_disjoint (x y : Z) :
  (0 <= x < 16)%Z -> (0 <= y < 16)%Z ->
  Z.lor (x * 16) y = (x * 16 + y)%Z
  /\ Z.lor (x * 4) (y mod 4) = (x * 4 + y mod 4)%Z.
Proof.
  intros Hx Hy.
  pose (Q := fun x y =>
          Z.eqb (Z.lor (x * 16) y) (x * 16 + y)
          && Z.eqb (Z.lor (x * 4) (y mod 4)) (x * 4 + y mod 4)).
  pose (P := fun x => forallb (Q x) (map Z.of_nat (seq 0 16))).
  assert (H : P x = true)
    by (apply (forall_range P 16); [vm_compute; reflexivity | lia]).
  assert (H' : Q x y = true) by (apply (forall_range (Q x) 16); assumption).
  unfold Q in H'. rewrite !andb_true_iff, !Z.eqb_eq in H'. tauto.
Qed.

(** The four sextets of three bytes, as numbers. *)
Lemma sextets_of_bytes (b0 b1 b2 : Z) :
  (0 <= b0 < 256)%Z -> (0 <= b1 < 256)%Z -> (0 <= b2 < 256)%Z ->
  Z.shiftr b0 2 = (b0 / 4)%Z
  /\ Z.land (Z.shiftl b0 4) 63 = ((b0 mod 4) * 16)%Z
  /\ Z.lor (Z.land (Z.shiftl b0 4) 63) (Z.shiftr b1 4)
     = ((b0 mod 4) * 16 + b1 / 16)%Z
  /\ Z.land (Z.shiftl b1 2) 63 = ((b1 mod 16) * 4)%Z
  /\ Z.lor (Z.land (Z.shiftl b1 2) 63) (Z.shiftr b2 6)
     = ((b1 mod 16) * 4 + b2 / 64)%Z
  /\ Z.land b2 63 = (b2 mod 64)%Z.
Proof.
  intros H0 H1 H2.
  destruct (sextets_of_byte b0 H0) as (E0 & E1 & _).
  destruct (sextets_of_byte b1 H1) as (_ & _ & E2 & E3 & _).
  destruct (sextets_of_byte b2 H2) as (_ & _ & _ & _ & E4 & E5).
  rewrite E0, E1, E2, E3, E4, E5.
  assert (R0 : (0 <= b0 mod 4 < 16)%Z)
    by (pose proof (Z.mod_pos_bound b0 4); lia).
  assert (R1 : (0 <= b1 / 16 < 16)%Z)
    by (split; [apply Z.div_pos | apply Z.div_lt_upper_bound]; lia).
  assert (R2 : (0 <= b1 mod 16 < 16)%Z)
    by (pose proof (Z.mod_pos_bound b1 16); lia).
  assert (R3 : (0 <= b2 / 64 < 4)%Z)
    by (split; [apply Z.div_pos | apply Z.div_lt_upper_bound]; lia).
  assert (L1 := proj1 (lor_disjoint _ _ R0 R1)).
  assert (L2 := proj2 (lor_disjoint (b1 mod 16) (b2 / 64) R2 ltac:(lia))).
  rewrite (Z.mod_small (b2 / 64) 4 R3) in L2.
  rewrite L1, L2. repeat split.
Qed.

Lemma strip_padding_eq (cs : list ascii) :
  strip_padding cs
  = if Nat.eqb (List.length cs mod 4) 0 then
      match rev cs with
      | c :: r =>
          if Ascii.eqb c "="%char then
            match r with
            | c' :: r' => if Ascii.eqb c' "="%char then rev r' else rev r
            | [] => rev r
            end
          else cs
      | [] => cs
      end
    else cs.
Proof.
  unfold strip_padding. destruct (Nat.eqb _ 0); [| reflexivity].
  destruct (rev cs) as [| c r]; [reflexivity |].
  destruct c as [[] [] [] [] [] [] [] []]; try reflexivity.
  destruct r as [| c' r']; [reflexivity |].
  destruct c' as [[] [] [] [] [] [] [] []]; reflexivity.
Qed.

Lemma base64_decode_app (k : nat) :
  forall pre l, List.length pre = (4 * k)%nat ->
    base64_decode (pre ++ l) = base64_decode pre ++ base64_decode l.
Proof.
  induction k as [| k IH]; intros pre l Hlen.
  - destruct pre; [reflexivity | discriminate Hlen].
  - destruct pre as [| c0 [| c1 [| c2 [| c3 pre]]]]; try (simpl in Hlen; lia).
    cbn [app base64_decode]. rewrite IH by (simpl in Hlen; lia).
    reflexivity.
Qed.

Lemma decode_three (b0 b1 b2 : Z) :
  (0 <= b0 < 256)%Z -> (0 <= b1 < 256)%Z -> (0 <= b2 < 256)%Z ->
  let n := (((b0 / 4 * 64 + (b0 mod 4 * 16 + b1 / 16)) * 64
             + (b1 mod 16 * 4 + b2 / 64)) * 64 + b2 mod 64)%Z in
  (n / 65536 = b0 /\ (n / 256) mod 256 = b1 /\ n mod 256 = b2)%Z.
Proof.
  intros H0 H1 H2 n.
  pose proof (Z.div_mod b0 4 ltac:(lia)) as D0.
  pose proof (Z.div_mod b1 16 ltac:(lia)) as D1.
  pose proof (Z.div_mod b2 64 ltac:(lia)) as D2.
  assert (Hn : n = (b0 * 65536 + b1 * 256 + b2)%Z) by (subst n; lia).
  rewrite Hn.
  assert (Q1 : ((b0 * 65536 + b1 * 256 + b2) / 65536 = b0)%Z)
    by (symmetry; apply (Z.div_unique_pos _ _ _ (b1 * 256 + b2)); lia).
  assert (Q2 : ((b0 * 65536 + b1 * 256 + b2) / 256 = b0 * 256 + b1)%Z)
    by (symmetry; apply (Z.div_unique_pos _ _ _ b2); lia).
  split; [exact Q1 |]. split.
  - rewrite Q2. symmetry. apply (Z.mod_unique_pos _ _ b0); lia.
  - symmetry. apply (Z.mod_unique_pos _ _ (b0 * 256 + b1)); lia.
Qed.

Lemma decode_two (b0 b1 : Z) :
  (0 <= b0 < 256)%Z -> (0 <= b1 < 256)%Z ->
  let n := ((b0 / 4 * 64 + (b0 mod 4 * 16 + b1 / 16)) * 64
            + b1 mod 16 * 4)%Z in
  (n / 1024 = b0 /\ (n / 4) mod 256 = b1)%Z.
Proof.
  intros H0 H1 n.
  pose proof (Z.div_mod b0 4 ltac:(lia)) as D0.
  pose proof (Z.div_mod b1 16 ltac:(lia)) as D1.
  assert (Hn : n = (b0 * 1024 + b1 * 4)%Z) by (subst n; lia).
  rewrite Hn. split.
  - symmetry. apply (Z.div_unique_pos _ _ _ (b1 * 4)); lia.
  - assert (Q : ((b0 * 1024 + b1 * 4) / 4 = b0 * 256 + b1)%Z)
      by (symmetry; apply (Z.div_unique_pos _ _ _ 0); lia).
    rewrite Q. symmetry. apply (Z.mod_unique_pos _ _ b0); lia.
Qed.

Lemma decode_one (b0 : Z) :
  (0 <= b0 < 256)%Z ->
  ((b0 / 4 * 64 + b0 mod 4 * 16) / 16 = b0)%Z.
Proof.
  intros H0.
  pose proof (Z.div_mod b0 4 ltac:(lia)) as D0.
  symmetry. apply (Z.div_unique_pos _ _ _ 0); lia.
Qed.

Lemma sextet_ranges (b0 b1 b2 : Z) :
  (0 <= b0 < 256)%Z -> (0 <= b1 < 256)%Z -> (0 <= b2 < 256)%Z ->
  (0 <= b0 / 4 < 64
   /\ 0 <= b0 mod 4 * 16 < 64
   /\ 0 <= b0 mod 4 * 16 + b1 / 16 < 64
   /\ 0 <= b1 mod 16 * 4 < 64
   /\ 0 <= b1 mod 16 * 4 + b2 / 64 < 64
   /\ 0 <= b2 mod 64 < 64)%Z.
Proof.
  intros H0 H1 H2.
  pose proof (Z.mod_pos_bound b0 4 ltac:(lia)).
  pose proof (Z.mod_pos_bound b1 16 ltac:(lia)).
  pose proof (Z.mod_pos_bound b2 64 ltac:(lia)).
  assert (0 <= b0 / 4 < 64)%Z
    by (split; [apply Z.div_pos | apply Z.div_lt_upper_bound]; lia).
  assert (0 <= b1 / 16 < 16)%Z
    by (split; [apply Z.div_pos | apply Z.div_lt_upper_bound]; lia).
  assert (0 <= b2 / 64 < 4)%Z
    by (split; [apply Z.div_pos | apply Z.div_lt_upper_bound]; lia).
  lia.
Qed.

Lemma mod4_exact (n : nat) :
  (n mod 4 = 0)%nat -> exists k, n = (4 * k)%nat.
Proof.
  intros H. exists (n / 4)%nat.
  pose proof (Nat.div_mod_eq n 4). lia.
Qed.

Lemma mod4_plus (n k : nat) :
  (n mod 4 = 0)%nat -> (k < 4)%nat -> ((n + k) mod 4 = k)%nat.
Proof.
  intros H Hk. destruct (mod4_exact n H) as [q ->].
  symmetry. apply (Nat.mod_unique _ _ q); lia.
Qed.

Lemma mod4_plus4 (n : nat) :
  (n mod 4 = 0)%nat -> ((n + 4) mod 4 = 0)%nat.
Proof.
  intros H. destruct (mod4_exact n H) as [q ->].
  symmetry. apply (Nat.mod_unique _ _ (S q)); lia.
Qed.

(** Decoding what the encoder appends to a prefix of whole groups. *)
Lemma groups_decode (fuel : nat) :
  forall bs pre,
    (List.length bs <= fuel)%nat ->
    Forall (fun b => (0 <= b < 256)%Z) bs ->
    (List.length pre mod 4 = 0)%nat ->
    forallb is_base64_char pre = true ->
    let s := strip_padding (pre ++ Crypto.base64_groups fuel bs) in
    base64_decode s = base64_decode pre ++ bs
    /\ forallb is_base64_char s = true
    /\ Nat.eqb (List.length s mod 4) 1 = false.
Proof.
  induction fuel as [| fuel IH]; intros bs pre Hlen Hbytes Hpre Hclean.
  - destruct bs; [| simpl in Hlen; lia]. cbn [Crypto.base64_groups].
    rewrite !app_nil_r. rewrite strip_padding_eq, Hpre. cbn [Nat.eqb].
    destruct (rev pre) as [| c r] eqn:Hrev.
    + cbn zeta. rewrite Hpre. auto.
    + assert (Hc : is_base64_char c = true).
      { rewrite List.forallb_forall in Hclean. apply Hclean.
        apply in_rev. rewrite Hrev. now left. }
      assert (Hne : Ascii.eqb c "="%char = false).
      { destruct (Ascii.eqb_spec c "="%char) as [-> |]; [| reflexivity].
        discriminate Hc. }
      rewrite Hne. cbn zeta. rewrite Hpre. auto.
  - destruct bs as [| b0 [| b1 [| b2 rest]]].
    + cbn [Crypto.base64_groups].
      rewrite !app_nil_r. rewrite strip_padding_eq, Hpre. cbn [Nat.eqb].
      destruct (rev pre) as [| c r] eqn:Hrev.
      * cbn zeta. rewrite Hpre. auto.
      * assert (Hc : is_base64_char c = true).
        { rewrite List.forallb_forall in Hclean. apply Hclean.
          apply in_rev. rewrite Hrev. now left. }
        assert (Hne : Ascii.eqb c "="%char = false).
        { destruct (Ascii.eqb_spec c "="%char) as [-> |]; [| reflexivity].
          discriminate Hc. }
        rewrite Hne. cbn zeta. rewrite Hpre. auto.
    + inversion Hbytes as [| ? ? H0 _]; subst.
      cbn [Crypto.base64_groups].
      destruct (sextets_of_bytes b0 0 0 H0 ltac:(lia) ltac:(lia))
        as (E0 & E1 & _).
      destruct (sextet_ranges b0 0 0 H0 ltac:(lia) ltac:(lia))
        as (R0 & R1 & _).
      rewrite E0, E1.
      destruct (base64_char_facts _ R0) as (I0 & A0 & _ & N0).
      destruct (base64_char_facts _ R1) as (I1 & A1 & _ & N1).
      set (c0 := Crypto.base64_char (b0 / 4)) in *.
      set (c1 := Crypto.base64_char (b0 mod 4 * 16)) in *.
      rewrite strip_padding_eq, length_app. cbn [List.length].
      rewrite (mod4_plus4 _ Hpre). cbn [Nat.eqb].
      rewrite rev_app_distr. cbn [rev app].
      change (Ascii.eqb "=" "=") with true. cbn iota.
      rewrite rev_involutive, <- !app_assoc. cbn [app].
      destruct (mod4_exact _ Hpre) as [k Hk].
      rewrite (base64_decode_app k) by exact Hk.
      cbn [base64_decode]. rewrite I0, I1, (decode_one b0 H0).
      rewrite forallb_app, Hclean. cbn [forallb]. rewrite A0, A1.
      rewrite length_app. cbn [List.length].
      rewrite (mod4_plus _ 2 Hpre) by lia. auto.
    + inversion Hbytes as [| ? ? H0 Hb1]; subst.
      inversion Hb1 as [| ? ? H1 _]; subst.
      cbn [Crypto.base64_groups].
      destruct (sextets_of_bytes b0 b1 0 H0 H1 ltac:(lia))
        as (E0 & _ & E1 & E2 & _).
      destruct (sextet_ranges b0 b1 0 H0 H1 ltac:(lia))
        as (R0 & _ & R1 & R2 & _).
      rewrite E0, E1, E2.
      destruct (base64_char_facts _ R0) as (I0 & A0 & _ & N0).
      destruct (base64_char_facts _ R1) as (I1 & A1 & _ & N1).
      destruct (base64_char_facts _ R2) as (I2 & A2 & _ & N2).
      set (c0 := Crypto.base64_char (b0 / 4)) in *.
      set (c1 := Crypto.base64_char (b0 mod 4 * 16 + b1 / 16)) in *.
      set (c2 := Crypto.base64_char (b1 mod 16 * 4)) in *.
      rewrite strip_padding_eq, length_app. cbn [List.length].
      rewrite (mod4_plus4 _ Hpre). cbn [Nat.eqb].
      rewrite rev_app_distr. cbn [rev app].
      change (Ascii.eqb "=" "=") with true. cbn iota. rewrite N2.
      rewrite rev_involutive, <- !app_assoc. cbn [app].
      destruct (mod4_exact _ Hpre) as [k Hk].
      rewrite (base64_decode_app k) by exact Hk.
      cbn [base64_decode]. rewrite I0, I1, I2.
      destruct (decode_two b0 b1 H0 H1) as [D0 D1]. cbn zeta in D0, D1.
      rewrite D0, D1.
      rewrite forallb_app, Hclean. cbn [forallb]. rewrite A0, A1, A2.
      rewrite length_app. cbn [List.length].
      rewrite (mod4_plus _ 3 Hpre) by lia. auto.
    + inversion Hbytes as [| ? ? H0 Hb1]; subst.
      inversion Hb1 as [| ? ? H1 Hb2]; subst.
      inversion Hb2 as [| ? ? H2 Hrest]; subst.
      cbn [Crypto.base64_groups].
      destruct (sextets_of_bytes b0 b1 b2 H0 H1 H2)
        as (E0 & _ & E1 & _ & E2 & E3).
      destruct (sextet_ranges b0 b1 b2 H0 H1 H2)
        as (R0 & _ & R1 & _ & R2 & R3).
      rewrite E0, E1, E2, E3.
      destruct (base64_char_facts _ R0) as (I0 & A0 & _).
      destruct (base64_char_facts _ R1) as (I1 & A1 & _).
      destruct (base64_char_facts _ R2) as (I2 & A2 & _).
      destruct (base64_char_facts _ R3) as (I3 & A3 & _).
      set (c0 := Crypto.base64_char (b0 / 4)) in *.
      set (c1 := Crypto.base64_char (b0 mod 4 * 16 + b1 / 16)) in *.
      set (c2 := Crypto.base64_char (b1 mod 16 * 4 + b2 / 64)) in *.
      set (c3 := Crypto.base64_char (b2 mod 64)) in *.
      rewrite app_assoc.
      destruct (IH rest (pre ++ [c0; c1; c2; c3])) as (Hd & Ha & Hl).
      * simpl in Hlen. lia.
      * exact Hrest.
      * rewrite length_app. cbn [List.length]. apply mod4_plus4, Hpre.
      * rewrite forallb_app, Hclean. cbn [forallb]. now rewrite A0, A1, A2, A3.
      * split; [| split; assumption].
        rewrite Hd.
        destruct (mod4_exact _ Hpre) as [k Hk].
        rewrite (base64_decode_app k) by exact Hk.
        cbn [base64_decode]. rewrite I0, I1, I2, I3.
        destruct (decode_three b0 b1 b2 H0 H1 H2) as (D0 & D1 & D2).
        cbn zeta in D0, D1, D2. rewrite D0, D1, D2.
        rewrite <- app_assoc. reflexivity.
Qed.

Lemma groups_no_space (fuel : nat) :
  forall bs, Forall (fun b => (0 <= b < 256)%Z) bs ->
    forall c, In c (Crypto.base64_groups fuel bs) -> is_ascii_space c = false.
Proof.
  induction fuel as [| fuel IH]; intros bs Hbytes c Hin; [destruct Hin |].
  destruct bs as [| b0 [| b1 [| b2 rest]]]; cbn [Crypto.base64_groups] in Hin.
  - destruct Hin.
  - inversion Hbytes as [| ? ? H0 _]; subst.
    destruct (sextets_of_bytes b0 0 0 H0 ltac:(lia) ltac:(lia))
      as (E0 & E1 & _).
    destruct (sextet_ranges b0 0 0 H0 ltac:(lia) ltac:(lia))
      as (R0 & R1 & _).
    rewrite E0, E1 in Hin.
    destruct Hin as [<- | [<- | [<- | [<- | []]]]];
      try reflexivity; now apply base64_char_facts.
  - inversion Hbytes as [| ? ? H0 Hb1]; subst.
    inversion Hb1 as [| ? ? H1 _]; subst.
    destruct (sextets_of_bytes b0 b1 0 H0 H1 ltac:(lia))
      as (E0 & _ & E1 & E2 & _).
    destruct (sextet_ranges b0 b1 0 H0 H1 ltac:(lia))
      as (R0 & _ & R1 & R2 & _).
    rewrite E0, E1, E2 in Hin.
    destruct Hin as [<- | [<- | [<- | [<- | []]]]];
      try reflexivity; now apply base64_char_facts.
  - inversion Hbytes as [| ? ? H0 Hb1]; subst.
    inversion Hb1 as [| ? ? H1 Hb2]; subst.
    inversion Hb2 as [| ? ? H2 Hrest]; subst.
    destruct (sextets_of_bytes b0 b1 b2 H0 H1 H2)
      as (E0 & _ & E1 & _ & E2 & E3).
    destruct (sextet_ranges b0 b1 b2 H0 H1 H2)
      as (R0 & _ & R1 & _ & R2 & R3).
    rewrite E0, E1, E2, E3 in Hin.
    cbn [app] in Hin.
    destruct Hin as [<- | [<- | [<- | [<- | Hin]]]];
      try (now apply base64_char_facts).
    now apply (IH rest).
Qed.

Lemma filter_all {A : Type} (f : A -> bool) (l : list A) :
  (forall x, In x l -> f x = true) -> List.filter f l = l.
Proof.
  induction l as [| a l IH]; intros H; [reflexivity |].
  cbn [List.filter]. rewrite (H a) by now left.
  rewrite IH; [reflexivity |]. intros x Hx. apply H. now right.
Qed.

(** X21.  Decoding undoes encoding: for every buffer of bytes,
    [base64ToArrayBuffer] accepts what [arrayBufferToBase64] produced
    (whatever the padding) and returns the bytes that were encoded. *)
Theorem base64_roundtrip (buffer : list Z) :
  Forall (fun b => (0 <= b < 256)%Z) buffer ->
  base64ToArrayBuffer (Crypto.arrayBufferToBase64 buffer) = Ok buffer.
Proof.
  intros Hbytes.
  unfold base64ToArrayBuffer, atob_ok, Crypto.arrayBufferToBase64.
  rewrite list_ascii_of_string_of_list_ascii.
  rewrite filter_all.
  2:{ intros c Hc. now rewrite (groups_no_space _ _ Hbytes c Hc). }
  destruct (groups_decode (List.length buffer) buffer [] (Nat.le_refl _)
              Hbytes eq_refl eq_refl) as (Hd & Ha & Hl).
  cbn [app] in Hd, Ha, Hl. cbn zeta in Hd, Ha, Hl.
  rewrite Hl, Ha. cbn [negb andb]. now rewrite Hd.
Qed.

Lemma base64_roundtrip_witness :
  base64ToArrayBuffer (Crypto.arrayBufferToBase64 [72; 101; 108; 108; 111])%Z
  = Ok [72; 101; 108; 108; 111]%Z.
Proof.
  apply base64_roundtrip. repeat constructor; lia.
Defined.

(** ** Random identifiers ([generateId]) *)

Lemma hex_digit_lower (i : Z) : is_lower_hex (Crypto.hex_digit i) = true.
Proof.
  unfold Crypto.hex_digit. generalize (Z.to_nat i) as n. intros n.
  do 16 (destruct n as [| n]; [reflexivity |]).
  reflexivity.
Qed.

Lemma hex_of_bytes_hex (bs : list Z) :
  forallb is_lower_hex
    (flat_map (fun b => [Crypto.hex_digit (Z.shiftr b 4);
                         Crypto.hex_digit (Z.land b 15)]) bs) = true
  /\ List.length
       (flat_map (fun b => [Crypto.hex_digit (Z.shiftr b 4);
                            Crypto.hex_digit (Z.land b 15)]) bs)
     = (2 * List.length bs)%nat.
Proof.
  induction bs as [| b bs [IH1 IH2]]; [split; reflexivity |].
  cbn [flat_map app forallb List.length].
  rewrite !hex_digit_lower, IH1, IH2. split; [reflexivity | lia].
Qed.

Lemma string_length_of_list (l : list ascii) :
  String.length (string_of_list_ascii l) = List.length l.
Proof.
  induction l as [| c l IH]; [reflexivity |]. simpl. now rewrite IH.
Qed.

Lemma hex_pair_inj (b b' : Z) :
  (0 <= b < 256)%Z -> (0 <= b' < 256)%Z ->
  Crypto.hex_digit (Z.shiftr b 4) = Crypto.hex_digit (Z.shiftr b' 4) ->
  Crypto.hex_digit (Z.land b 15) = Crypto.hex_digit (Z.land b' 15) ->
  b = b'.
Proof.
  intros Hb Hb' Hhi Hlo.
  pose (Q := fun b b' =>
          implb (Ascii.eqb (Crypto.hex_digit (Z.shiftr b 4))
                           (Crypto.hex_digit (Z.shiftr b' 4))
                 && Ascii.eqb (Crypto.hex_digit (Z.land b 15))
                              (Crypto.hex_digit (Z.land b' 15)))
                (Z.eqb b b')).
  pose (P := fun b => forallb (Q b) (map Z.of_nat (seq 0 256))).
  assert (H : P b = true)
    by (apply (forall_range P 256); [vm_compute; reflexivity | lia]).
  assert (H' : Q b b' = true) by (apply (forall_range (Q b) 256); assumption).
  unfold Q in H'. rewrite Hhi, Hlo, !Ascii.eqb_refl in H'.
  now apply Z.eqb_eq.
Qed.

Lemma hex_of_bytes_inj (bs : list Z) :
  forall bs',
    Forall (fun b => (0 <= b < 256)%Z) bs ->
    Forall (fun b => (0 <= b < 256)%Z) bs' ->
    Crypto.hex_of_bytes bs = Crypto.hex_of_bytes bs' -> bs = bs'.
Proof.
  unfold Crypto.hex_of_bytes.
  induction bs as [| b bs IH]; intros bs' Hbs Hbs' H;
    apply (f_equal list_ascii_of_string) in H;
    rewrite !list_ascii_of_string_of_list_ascii in H.
  - destruct bs'; [reflexivity | discriminate H].
  - destruct bs' as [| b' bs']; [discriminate H |].
    cbn [flat_map app] in H. injection H as Hhi Hlo Hrest.
    inversion Hbs as [| ? ? Hb Hbs0]; subst.
    inversion Hbs' as [| ? ? Hb' Hbs0']; subst.
    rewrite (hex_pair_inj b b' Hb Hb' Hhi Hlo). f_equal.
    apply IH; try assumption. now rewrite Hrest.
Qed.

Lemma mod256_bytes (bs : list Z) :
  Forall (fun b => (0 <= b < 256)%Z) (map (fun b => b mod 256)%Z bs).
Proof.
  apply List.Forall_forall. intros x Hx. apply List.in_map_iff in Hx.
  destruct Hx as (b & <- & _). apply Z.mod_pos_bound. lia.
Qed.

(** X22.  [generateId] draws once and never touches the bucket.  When the
    platform fills the 16-byte array it is given, the result is 32
    characters out of 0-9a-f, after the prefix and a dash when the prefix
    is not empty; and two calls with the same prefix return the same
    identifier only when the bytes drawn were the same. *)
Theorem generateId_format (env : Env) (prefix : string) (w : World) :
  List.length (random_bytes env (draw w) 16) = 16%nat ->
  exists id w',
    generateId env prefix w
    = (Ok (if String.eqb prefix "" then id else prefix +:+ "-" +:+ id), w')
    /\ is_hex32 id = true
    /\ bucket w' = bucket w /\ draw w' = S (draw w)
    /\ (forall w2 w2',
          generateId env prefix w2
          = (Ok (if String.eqb prefix "" then id else prefix +:+ "-" +:+ id),
             w2') ->
          map (fun b => b mod 256)%Z (random_bytes env (draw w2) 16)
          = map (fun b => b mod 256)%Z (random_bytes env (draw w) 16)).
Proof.
  intros Hlen. unfold generateId, bind, getRandomValues, ret.
  eexists _, _. split; [reflexivity |].
  split; [| split; [reflexivity | split; [reflexivity |]]].
  - unfold is_hex32, Crypto.hex_of_bytes.
    rewrite string_length_of_list, list_ascii_of_string_of_list_ascii.
    destruct (hex_of_bytes_hex
                (map (fun b => b mod 256)%Z (random_bytes env (draw w) 16)))
      as [Hhex Hl].
    rewrite Hhex, Hl, length_map, Hlen. reflexivity.
  - intros w2 w2' H. injection H as H _.
    apply hex_of_bytes_inj; try apply mod256_bytes.
    destruct (String.eqb prefix ""); [exact H |].
    now apply append_inv_head, append_inv_head in H.
Qed.

Lemma generateId_format_witness :
  exists id w',
    generateId env0 "msg" (world_of chat_bucket) = (Ok ("msg-" +:+ id), w')
    /\ is_hex32 id = true.
Proof.
  destruct (generateId_format env0 "msg" (world_of chat_bucket) eq_refl)
    as (id & w' & E & Hhex & _).
  exists id, w'. split; [exact E | exact Hhex].
Defined.

(** ** Registration and profile updates ([POST /agents/register],
    [PATCH /agents/:did]) *)

Lemma saveAgent_run (a : MoltbookAgent) (w : World) :
  exists w', Storage.saveAgent a w = (Ok tt, w')
             /\ bucket w' = <[KEYS.agent (did a) := ObjAgent a]> (bucket w).
Proof.
  unfold Storage.saveAgent.
  destruct (bucket_put_run (KEYS.agent (did a)) (ObjAgent a) w)
    as (w' & E & B & _).
  exists w'. split; assumption.
Qed.

Lemma registerAgent_cases (env : Env)
    (verify : AgentRegistrationRequest -> bool)
    (request : AgentRegistrationRequest) (w : World) :
  exists resp w',
    registerAgent env verify (Ok request) w = (Ok resp, w')
    /\ if String.eqb (req_publicKey request) ""
          || String.eqb (req_signature request) ""
          || negb (verify request)
       then status resp = 400 /\ bucket w' = bucket w
       else
         match lookup_agent (bucket w) (generateDID (req_publicKey request)) with
         | Some _ => status resp = 409 /\ bucket w' = bucket w
         | None =>
             exists agent,
               resp = success_with 201 (createRegistrationResponse agent)
               /\ did agent = generateDID (req_publicKey request)
               /\ publicKey agent = req_publicKey request
               /\ prof_reputation (profile agent) = 50%Z
               /\ bucket w'
                  = <[KEYS.agent (did agent) := ObjAgent agent]> (bucket w)
         end.
Proof.
  unfold registerAgent, bind, suspend, Date_now, createAgent.
  destruct (String.eqb (req_publicKey request) "") eqn:Hpk.
  { do 2 eexists. split; [reflexivity |]. simpl. auto. }
  destruct (String.eqb (req_signature request) "") eqn:Hsig.
  { do 2 eexists. split; [reflexivity |]. simpl. auto. }
  destruct (verify request) eqn:Hv.
  2:{ do 2 eexists. split; [reflexivity |]. simpl. auto. }
  cbn [negb orb].
  match goal with
  | |- context [Storage.getAgent ?d ?w0] =>
      destruct (getAgent_run d w0) as (w1 & E1 & B1 & _)
  end.
  cbn [did] in *. rewrite E1. cbn [bucket] in *.
  destruct (lookup_agent (bucket w) (generateDID (req_publicKey request)))
    as [existing |].
  { do 2 eexists. split; [reflexivity |]. simpl. auto. }
  match goal with
  | |- context [Storage.saveAgent ?a ?w0] =>
      destruct (saveAgent_run a w0) as (w2 & E2 & B2)
  end.
  rewrite E2. do 2 eexists. split; [reflexivity |].
  eexists. split; [reflexivity |]. cbn [did publicKey profile prof_reputation].
  repeat split. now rewrite B2, B1.
Qed.

(** X23.  The register route on a readable body: a request without public
    key, without signature or with a signature that does not verify gets
    400 and writes nothing; a public key whose DID is already stored gets
    409 and writes nothing; otherwise the answer is 201, the new agent has
    the DID derived from the key and reputation 50 whatever the request
    said, the only write stores it under its DID, and from then on every
    registration with the same public key is refused without a write. *)
Theorem registerAgent_spec (env : Env)
    (verify : AgentRegistrationRequest -> bool)
    (request : AgentRegistrationRequest) (w : World) :
  exists resp w',
    registerAgent env verify (Ok request) w = (Ok resp, w')
    /\ if String.eqb (req_publicKey request) ""
          || String.eqb (req_signature request) ""
          || negb (verify request)
       then status resp = 400 /\ bucket w' = bucket w
       else
         match lookup_agent (bucket w) (generateDID (req_publicKey request)) with
         | Some _ => status resp = 409 /\ bucket w' = bucket w
         | None =>
             exists agent,
               resp = success_with 201 (createRegistrationResponse agent)
               /\ did agent = generateDID (req_publicKey request)
               /\ publicKey agent = req_publicKey request
               /\ prof_reputation (profile agent) = 50%Z
               /\ bucket w'
                  = <[KEYS.agent (did agent) := ObjAgent agent]> (bucket w)
               /\ (forall verify' request',
                     req_publicKey request' = req_publicKey request ->
                     exists resp2 w2,
                       registerAgent env verify' (Ok request') w'
                       = (Ok resp2, w2)
                       /\ (status resp2 = 400 \/ status resp2 = 409)
                       /\ bucket w2 = bucket w')
         end.
Proof.
  destruct (registerAgent_cases env verify request w)
    as (resp & w' & E & H).
  exists resp, w'. split; [exact E |].
  destruct (_ || _ || _); [exact H |].
  destruct (lookup_agent _ _); [exact H |].
  destruct H as (agent & Hresp & Hdid & Hpk & Hrep & Hb).
  exists agent. repeat (split; [assumption |]).
  intros verify' request' Hsame.
  destruct (registerAgent_cases env verify' request' w')
    as (resp2 & w2 & E2 & H2).
  exists resp2, w2. split; [exact E2 |].
  destruct (_ || _ || _); [destruct H2; auto |].
  rewrite Hsame, <- Hdid, Hb, lookup_agent_insert, String.eqb_refl in H2.
  destruct H2 as [H409 Hb2]. split; [auto | congruence].
Qed.

Lemma registerAgent_spec_witness :
  exists resp w',
    registerAgent env0 (fun _ => true) (Ok registration_request) (world_of ∅)
    = (Ok resp, w')
    /\ status resp = 201%Z
    /\ lookup_agent (bucket w') (generateDID test_public_key) <> None.
Proof.
  destruct (registerAgent_spec env0 (fun _ => true) registration_request
              (world_of ∅)) as (resp & w' & E & H).
  exists resp, w'. split; [exact E |].
  cbn [registration_request req_publicKey req_signature String.eqb
       Ascii.eqb Bool.eqb test_public_key orb negb] in H.
  unfold lookup_agent at 1 in H. cbn [world_of bucket] in H.
  rewrite lookup_empty in H.
  destruct H as (agent & -> & Hd & _ & _ & Hb & _).
  split; [reflexivity |].
  rewrite Hb, <- Hd, lookup_agent_insert, String.eqb_refl. discriminate.
Defined.

(** X24.  The profile route on a readable body: a caller whose header is
    missing, is not a valid DID or differs from the DID of the path gets
    401 and nothing is written; an unknown DID gets 404 and nothing is
    written; otherwise the stored record is replaced by
    [updateAgentProfile] of it, with the DID, the public key, the creation
    time and the reputation it had, and no other agent's record changes. *)
Theorem patchAgent_spec (header : option string) (d : string)
    (updates : ProfileUpdates) (w : World) :
  exists resp w',
    patchAgent header d (Ok updates) w = (Ok resp, w')
    /\ if match getAgentDID header with
          | Some authDID => String.eqb authDID d
          | None => false
          end
       then
         match lookup_agent (bucket w) d with
         | None => status resp = 404 /\ bucket w' = bucket w
         | Some agent =>
             exists agent',
               resp = success_with 200 agent'
               /\ agent' = updateAgentProfile agent updates
               /\ did agent' = did agent
               /\ publicKey agent' = publicKey agent
               /\ createdAt agent' = createdAt agent
               /\ prof_reputation (profile agent')
                  = prof_reputation (profile agent)
               /\ lookup_agent (bucket w') (did agent) = Some agent'
               /\ (forall d', d' <> did agent ->
                     lookup_agent (bucket w') d' = lookup_agent (bucket w) d')
         end
       else status resp = 401 /\ bucket w' = bucket w.
Proof.
  unfold patchAgent.
  destruct (getAgentDID header) as [authDID |].
  2:{ do 2 eexists. split; [reflexivity |]. split; reflexivity. }
  destruct (String.eqb authDID d).
  2:{ do 2 eexists. split; [reflexivity |]. split; reflexivity. }
  cbn [negb]. unfold bind at 1. unfold suspend at 1. unfold bind.
  match goal with
  | |- context [Storage.getAgent d ?w0] =>
      destruct (getAgent_run d w0) as (w1 & E1 & B1 & _)
  end.
  rewrite E1. cbn [bucket] in *.
  destruct (lookup_agent (bucket w) d) as [agent |].
  2:{ do 2 eexists. split; [reflexivity |]. split; [reflexivity | exact B1]. }
  destruct (saveAgent_run (updateAgentProfile agent updates) w1)
    as (w2 & E2 & B2).
  rewrite E2. do 2 eexists. split; [reflexivity |].
  eexists. split; [reflexivity |]. repeat (split; [reflexivity |]).
  cbn [updateAgentProfile did] in B2. rewrite B1 in B2.
  change (did agent) with (did (updateAgentProfile agent updates)) in B2.
  rewrite B2. split.
  - change (did agent) with (did (updateAgentProfile agent updates)).
    now rewrite lookup_agent_insert, String.eqb_refl.
  - intros d' Hd'. rewrite lookup_agent_insert.
    destruct (String.eqb_spec d' (did (updateAgentProfile agent updates)));
      [contradiction | reflexivity].
Qed.

Lemma patchAgent_spec_witness :
  exists resp w',
    patchAgent (Some alice_did) creator_did
      (Ok forged_update) (world_of agents_bucket) = (Ok resp, w')
    /\ status resp = 401%Z /\ bucket w' = agents_bucket.
Proof.
  destruct (patchAgent_spec (Some alice_did) creator_did forged_update
              (world_of agents_bucket)) as (resp & w' & E & H).
  exists resp, w'. split; [exact E | exact H].
Defined.

Lemma addNFTCredential_verified (a : MoltbookAgent)
    (contract assetId schema : string) :
  let a' := addNFTCredential a contract assetId schema in
  (forall ct sc, hasVerifiedNFT a' ct sc = hasVerifiedNFT a ct sc)
  /\ List.filter cred_verified (credentials_of a')
     = List.filter cred_verified (credentials_of a)
  /\ did a' = did a.
Proof.
  intros a'. unfold a'.
  assert (Hdid : did (addNFTCredential a contract assetId schema) = did a)
    by (unfold addNFTCredential; destruct (existsb _ _); reflexivity).
  destruct (addNFTCredential_cases a contract assetId schema)
    as [[_ Heq] | [_ Heq]].
  - rewrite Heq. auto.
  - split; [| split; [| exact Hdid]].
    + intros ct sc. unfold hasVerifiedNFT at 1. rewrite Heq, existsb_app.
      cbn [existsb]. rewrite credential_matches_unverified by reflexivity.
      now rewrite !orb_false_r.
    + rewrite Heq, List.filter_app. cbn [List.filter cred_verified].
      now rewrite app_nil_r.
Qed.

(** X25.  The credential route on a readable body: a caller who is not
    the agent of the path gets 401, a body with an empty or missing
    contract, asset id or schema gets 400, an unknown DID gets 404, and
    nothing is written in these cases; otherwise the stored record is
    replaced by [addNFTCredential] of it: the same record when it already
    lists the pair (contract, asset id), and otherwise the record with
    one more credential, of the given contract, asset id and schema and
    not verified.  That changes neither what [hasVerifiedNFT] answers nor
    the verified credentials nor the reputation, and no other agent's
    record changes. *)
Theorem addNFTRoute_spec (header : option string) (d : string)
    (contract assetId schema : option string) (w : World) :
  exists resp w',
    addNFTRoute header d (Ok (contract, assetId, schema)) w = (Ok resp, w')
    /\ if match getAgentDID header with
          | Some authDID => String.eqb authDID d
          | None => false
          end
       then
         if truthy_str contract && truthy_str assetId && truthy_str schema
         then
           match lookup_agent (bucket w) d with
           | None => status resp = 404 /\ bucket w' = bucket w
           | Some agent =>
               exists agent' ct aid sc,
                 contract = Some ct /\ assetId = Some aid /\ schema = Some sc
                 /\ agent' = addNFTCredential agent ct aid sc
                 /\ resp = success_with 200 agent'
                 /\ bucket w'
                    = <[KEYS.agent (did agent) := ObjAgent agent']> (bucket w)
                 /\ lookup_agent (bucket w') (did agent) = Some agent'
                 /\ ((In (ct, aid) (map cred_key (credentials_of agent))
                      /\ agent' = agent)
                     \/ (~ In (ct, aid) (map cred_key (credentials_of agent))
                         /\ credentials_of agent'
                            = credentials_of agent
                              ++ [ {| cred_contract := ct;
                                      cred_assetId := aid;
                                      cred_schema := sc;
                                      cred_verified := false;
                                      cred_verifiedAt := None |} ]))
                 /\ did agent' = did agent
                 /\ publicKey agent' = publicKey agent
                 /\ (forall c s,
                       hasVerifiedNFT agent' c s = hasVerifiedNFT agent c s)
                 /\ List.filter cred_verified (credentials_of agent')
                    = List.filter cred_verified (credentials_of agent)
                 /\ reputation_of agent' = reputation_of agent
                 /\ (forall d', d' <> did agent ->
                       lookup_agent (bucket w') d'
                       = lookup_agent (bucket w) d')
           end
         else status resp = 400 /\ bucket w' = bucket w
       else status resp = 401 /\ bucket w' = bucket w.
Proof.
  unfold addNFTRoute.
  destruct (getAgentDID header) as [authDID |].
  2:{ do 2 eexists. split; [reflexivity |]. split; reflexivity. }
  destruct (String.eqb authDID d).
  2:{ do 2 eexists. split; [reflexivity |]. split; reflexivity. }
  cbn [negb]. unfold bind at 1. unfold suspend at 1.
  destruct contract as [ct |]; cbn [truthy_str negb orb andb];
    [destruct (negb (String.eqb ct "")); cbn [negb orb andb] |].
  2, 3: do 2 eexists; split; [reflexivity |]; split; reflexivity.
  destruct assetId as [aid |]; cbn [truthy_str negb orb andb];
    [destruct (negb (String.eqb aid "")); cbn [negb orb andb] |].
  2, 3: do 2 eexists; split; [reflexivity |]; split; reflexivity.
  destruct schema as [sc |]; cbn [truthy_str negb orb andb];
    [destruct (negb (String.eqb sc "")); cbn [negb orb andb] |].
  2, 3: do 2 eexists; split; [reflexivity |]; split; reflexivity.
  unfold bind.
  match goal with
  | |- context [Storage.getAgent d ?w0] =>
      destruct (getAgent_run d w0) as (w1 & E1 & B1 & _)
  end.
  rewrite E1. cbn [bucket] in *.
  destruct (lookup_agent (bucket w) d) as [agent |].
  2:{ do 2 eexists. split; [reflexivity |]. split; [reflexivity | exact B1]. }
  change (default "" (Some ct)) with ct.
  change (default "" (Some aid)) with aid.
  change (default "" (Some sc)) with sc.
  cbn zeta.
  set (agent' := addNFTCredential agent ct aid sc).
  destruct (saveAgent_run agent' w1) as (w2 & E2 & B2).
  rewrite E2. do 2 eexists. split; [reflexivity |].
  exists agent', ct, aid, sc. do 5 (split; [reflexivity |]).
  destruct (addNFTCredential_verified agent ct aid sc) as (Hv & Hf & Hd).
  fold agent' in Hv, Hf, Hd.
  assert (Hpk : publicKey agent' = publicKey agent)
    by (subst agent'; unfold addNFTCredential;
        destruct (existsb _ _); reflexivity).
  rewrite B2, B1, <- Hd.
  split; [reflexivity |].
  split; [now rewrite lookup_agent_insert, String.eqb_refl |].
  split; [apply (addNFTCredential_cases agent ct aid sc) |].
  split; [reflexivity |]. split; [exact Hpk |].
  split; [exact Hv |]. split; [exact Hf |].
  split; [apply addNFTCredential_reputation |].
  intros d' Hd'. rewrite lookup_agent_insert.
  destruct (String.eqb_spec d' (did agent')); [contradiction | reflexivity].
Qed.

Lemma addNFTRoute_spec_witness :
  exists resp w' agent',
    addNFTRoute (Some alice_did) alice_did
      (Ok (Some "atomicassets", Some "12345", Some "moltbook.agent"))
      (world_of agents_bucket) = (Ok resp, w')
    /\ resp = success_with 200 agent'
    /\ agent' = addNFTCredential alice_agent "atomicassets" "12345"
                                 "moltbook.agent"
    /\ lookup_agent (bucket w') alice_did = Some agent'.
Proof.
  destruct (addNFTRoute_spec (Some alice_did) alice_did
              (Some "atomicassets") (Some "12345") (Some "moltbook.agent")
              (world_of agents_bucket)) as (resp & w' & E & H).
  assert (Hauth : match getAgentDID (Some alice_did) with
                  | Some authDID => String.eqb authDID alice_did
                  | None => false
                  end = true) by reflexivity.
  rewrite Hauth in H.
  assert (Ht : truthy_str (Some "atomicassets") && truthy_str (Some "12345")
               && truthy_str (Some "moltbook.agent") = true) by reflexivity.
  rewrite Ht in H.
  assert (Ha : lookup_agent (bucket (world_of agents_bucket)) alice_did
               = Some alice_agent) by reflexivity.
  rewrite Ha in H.
  destruct H as (agent' & ct & aid & sc & [= <-] & [= <-] & [= <-]
                 & Hagent & Hresp & _ & Hl & _).
  exists resp, w', agent'. split; [exact E |]. split; [exact Hresp |].
  split; [exact Hagent | exact Hl].
Defined.

(** ** Deleting a channel ([deleteChannel], [removeChannelFromAgent]) *)

Lemma removeChannelFromAgent_run (d channelId : string) (w : World) :
  exists w',
    PrivacyStorage.removeChannelFromAgent d channelId w = (Ok tt, w')
    /\ (forall k, k <> KEYS.agentChannels d ->
          bucket w' !! k = bucket w !! k)
    /\ ids_at (bucket w') (KEYS.agentChannels d)
       = List.filter (fun id => negb (String.eqb id channelId))
                     (ids_at (bucket w) (KEYS.agentChannels d)).
Proof.
  unfold PrivacyStorage.removeChannelFromAgent, bind.
  destruct (read_ids_run (KEYS.agentChannels d) w) as (w1 & E1 & B1 & _).
  rewrite E1. unfold ids_at.
  destruct (bucket w !! KEYS.agentChannels d) as [[a | c | m | i | ids] |]
    eqn:Hk;
    try (exists w1; split; [reflexivity |]; rewrite B1, Hk;
         split; [reflexivity | reflexivity]).
  destruct (bucket_put_run (KEYS.agentChannels d)
              (ObjIds (List.filter (fun id => negb (String.eqb id channelId))
                                   ids)) w1) as (w2 & E2 & B2 & _).
  exists w2. split; [exact E2 |]. rewrite B2, B1. split.
  - intros k Hne. now apply lookup_insert_ne.
  - now rewrite lookup_insert_eq.
Qed.

Lemma unindex_loop (channelId : string) (ps : list string) (w : World) :
  exists w',
    PrivacyStorage.for_each
      (fun d => PrivacyStorage.removeChannelFromAgent d channelId) ps w
    = (Ok tt, w')
    /\ (forall k, (forall p, In p ps -> k <> KEYS.agentChannels p) ->
          bucket w' !! k = bucket w !! k)
    /\ (forall d x, In x (ids_at (bucket w') (KEYS.agentChannels d)) ->
          In x (ids_at (bucket w) (KEYS.agentChannels d)))
    /\ (forall d, In d ps ->
          ~ In channelId (ids_at (bucket w') (KEYS.agentChannels d))).
Proof.
  revert w. induction ps as [| p ps IH]; intros w.
  - exists w. split; [reflexivity |]. split; [reflexivity |].
    split; [auto | intros d []].
  - cbn [PrivacyStorage.for_each]. unfold bind at 1.
    destruct (removeChannelFromAgent_run p channelId w)
      as (w1 & E1 & Hframe1 & Hids1).
    rewrite E1.
    destruct (IH w1) as (w' & E & Hframe & Hsub & Hgone).
    assert (Hsub1 : forall d x,
               In x (ids_at (bucket w1) (KEYS.agentChannels d)) ->
               In x (ids_at (bucket w) (KEYS.agentChannels d))).
    { intros d x Hx. destruct (String.eqb_spec d p) as [-> | Hne].
      - rewrite Hids1 in Hx. apply filter_In in Hx. tauto.
      - rewrite (ids_at_same (bucket w) (bucket w1)) in Hx; [exact Hx |].
        apply Hframe1. intros H. apply KEYS_agentChannels_inj in H.
        congruence. }
    exists w'. split; [exact E |]. split; [| split].
    + intros k Hk. rewrite Hframe.
      * apply Hframe1. apply Hk. now left.
      * intros q Hq. apply Hk. now right.
    + intros d x Hx. apply Hsub1, Hsub, Hx.
    + intros d [<- | Hd]; [| now apply Hgone].
      intros Hin. apply Hsub in Hin. rewrite Hids1 in Hin.
      apply filter_In in Hin. destruct Hin as [_ Hin].
      now rewrite String.eqb_refl in Hin.
Qed.

Lemma delete_keys_loop (keys : list string) (w : World) :
  exists w',
    PrivacyStorage.for_each bucket_delete keys w = (Ok tt, w')
    /\ (forall k, In k keys -> bucket w' !! k = None)
    /\ (forall k, ~ In k keys -> bucket w' !! k = bucket w !! k).
Proof.
  revert w. induction keys as [| key keys IH]; intros w.
  - exists w. split; [reflexivity |]. split; [intros k [] | reflexivity].
  - cbn [PrivacyStorage.for_each]. unfold bind at 1.
    destruct (bucket_delete_run key w) as (w1 & E1 & B1 & _).
    rewrite E1.
    destruct (IH w1) as (w' & E & Hin & Hout).
    exists w'. split; [exact E |]. split.
    + intros k Hk.
      destruct (in_dec string_dec k keys) as [Hk' | Hk'];
        [now apply Hin |].
      destruct Hk as [<- | Hk]; [| contradiction].
      rewrite Hout by exact Hk'. rewrite B1. apply lookup_delete_eq.
    + intros k Hk. rewrite Hout by (intros H; apply Hk; now right).
      rewrite B1. apply lookup_delete_ne. intros ->. apply Hk. now left.
Qed.

Lemma bucket_list_run (prefix : string) (w : World) :
  exists w', bucket_list prefix w = (Ok (listed_keys (bucket w) prefix), w')
             /\ bucket w' = bucket w.
Proof. unfold bucket_list, bind, suspend. simpl. eexists. split; reflexivity. Qed.

Lemma prefix_append_head (a p s : string) :
  String.prefix (a +:+ p) (a +:+ s) = String.prefix p s.
Proof.
  induction a as [| c a IH]; [reflexivity |].
  change (String.prefix (String c (a +:+ p)) (String c (a +:+ s))
          = String.prefix p s).
  now rewrite prefix_cons, Ascii.eqb_refl, IH.
Qed.

Lemma messages_prefix_other (id x : string) :
  String.prefix (KEYS.channelMessagesList id) (KEYS.channel id) = false
  /\ String.prefix (KEYS.channelMessagesList id) (KEYS.agent x) = false
  /\ String.prefix (KEYS.channelMessagesList id) (KEYS.agentChannels x) = false.
Proof.
  unfold KEYS.channelMessagesList, KEYS.channel, KEYS.agent,
    KEYS.agentChannels.
  split; [| split].
  - rewrite !prefix_append_head. reflexivity.
  - change (String.prefix ("privacy/" +:+ "channels/" +:+ id +:+ "/messages/")
              ("privacy/" +:+ "agents/" +:+ encodeURIComponent x +:+ ".json")
            = false).
    rewrite prefix_append_head. reflexivity.
  - change (String.prefix ("privacy/" +:+ "channels/" +:+ id +:+ "/messages/")
              ("privacy/" +:+ "agents/" +:+ encodeURIComponent x
               +:+ "/channels.json") = false).
    rewrite prefix_append_head. reflexivity.
Qed.

(** X26.  [deleteChannel] on an id without stored metadata writes
    nothing.  On a stored channel it leaves no metadata, no key under the
    message prefix of the channel and no mention of the channel in the
    index of any listed participant; it only ever removes ids from
    indexes and leaves every agent record as it was. *)
Theorem deleteChannel_spec (id : string) (w : World) :
  exists w',
    PrivacyStorage.deleteChannel id w = (Ok tt, w')
    /\ match lookup_channel (bucket w) id with
       | None => bucket w' = bucket w
       | Some c =>
           lookup_channel (bucket w') id = None
           /\ (forall k, String.prefix (KEYS.channelMessagesList id) k = true ->
                 bucket w' !! k = None)
           /\ (forall d, In d (ch_participants c) ->
                 ~ In id (ids_at (bucket w') (KEYS.agentChannels d)))
           /\ (forall d x,
                 In x (ids_at (bucket w') (KEYS.agentChannels d)) ->
                 In x (ids_at (bucket w) (KEYS.agentChannels d)))
           /\ (forall d, lookup_agent (bucket w') d = lookup_agent (bucket w) d)
       end.
Proof.
  unfold PrivacyStorage.deleteChannel, bind.
  destruct (getChannel_run id w) as (w1 & E1 & B1 & _). rewrite E1.
  destruct (lookup_channel (bucket w) id) as [c |];
    [| exists w1; split; [reflexivity | exact B1]].
  destruct (unindex_loop id (ch_participants c) w1)
    as (w2 & E2 & Hframe2 & Hsub2 & Hgone2).
  rewrite E2.
  destruct (bucket_delete_run (KEYS.channel id) w2) as (w3 & E3 & B3 & _).
  rewrite E3.
  destruct (bucket_list_run (KEYS.channelMessagesList id) w3)
    as (w4 & E4 & B4).
  rewrite E4.
  destruct (delete_keys_loop
              (listed_keys (bucket w3) (KEYS.channelMessagesList id)) w4)
    as (w5 & E5 & Hin5 & Hout5).
  exists w5. split; [exact E5 |].
  assert (Hkeep : forall k,
             String.prefix (KEYS.channelMessagesList id) k = false ->
             bucket w5 !! k = bucket w3 !! k).
  { intros k Hk. rewrite Hout5; [now rewrite B4 |].
    intros H. apply listed_keys_prefix in H. congruence. }
  assert (Hidx : forall d,
             ids_at (bucket w5) (KEYS.agentChannels d)
             = ids_at (bucket w2) (KEYS.agentChannels d)).
  { intros d. apply ids_at_same.
    rewrite Hkeep by apply (messages_prefix_other id d).
    rewrite B3. apply lookup_delete_ne.
    exact (proj1 (channel_key_not_agent id d)). }
  split; [| split; [| split; [| split]]].
  - unfold lookup_channel.
    rewrite Hkeep by apply (messages_prefix_other id id).
    now rewrite B3, lookup_delete_eq.
  - intros k Hk.
    destruct (bucket w3 !! k) as [o |] eqn:Hb.
    + apply Hin5. eapply listed_keys_spec; eassumption.
    + destruct (in_dec string_dec k
                  (listed_keys (bucket w3) (KEYS.channelMessagesList id)))
        as [Hl | Hl]; [now apply Hin5 |].
      rewrite Hout5 by exact Hl. now rewrite B4.
  - intros d Hd. rewrite Hidx. now apply Hgone2.
  - intros d x Hx. rewrite Hidx in Hx. apply Hsub2 in Hx.
    now rewrite B1 in Hx.
  - intros d. unfold lookup_agent.
    rewrite Hkeep by apply (messages_prefix_other id d).
    rewrite B3, lookup_delete_ne
      by exact (proj1 (proj2 (channel_key_not_agent id d))).
    rewrite Hframe2, B1; [reflexivity |].
    intros p _. exact (proj1 (agent_key_not_index d p)).
Qed.

(** ** Expired messages ([deleteExpiredMessages]) *)

Lemma delete_expired_run (channelId : string) (now ttlSeconds : Z)
    (messages : list EncryptedMessage) (w : World) :
  let expired :=
    List.filter (fun m => (ttlSeconds * 1000 <? now - msg_timestamp m)%Z)
                messages in
  exists w',
    PrivacyStorage.delete_expired channelId now ttlSeconds messages w
    = (Ok (Z.of_nat (List.length expired)), w')
    /\ (forall m, In m expired ->
          bucket w' !! KEYS.channelMessages channelId (msg_id m) = None)
    /\ (forall k,
          (forall m, In m expired ->
             k <> KEYS.channelMessages channelId (msg_id m)) ->
          bucket w' !! k = bucket w !! k).
Proof.
  revert w. induction messages as [| m0 messages IH]; intros w.
  - exists w. split; [reflexivity |]. split; [intros m [] | reflexivity].
  - cbn [PrivacyStorage.delete_expired List.filter].
    destruct (ttlSeconds * 1000 <? now - msg_timestamp m0)%Z.
    + unfold bind at 1. unfold PrivacyStorage.deleteMessage.
      destruct (bucket_delete_run
                  (KEYS.channelMessages channelId (msg_id m0)) w)
        as (w1 & E1 & B1 & _).
      rewrite E1. unfold bind.
      destruct (IH w1) as (w' & E & Hgone & Hframe). rewrite E.
      exists w'. split; [| split].
      * unfold ret. do 2 f_equal. cbn [List.length]. lia.
      * intros m Hm.
        set (rest := List.filter _ messages) in *.
        destruct (in_dec string_dec
                    (KEYS.channelMessages channelId (msg_id m))
                    (map (fun x => KEYS.channelMessages channelId (msg_id x))
                         rest)) as [Hin | Hout].
        -- apply List.in_map_iff in Hin. destruct Hin as (x & Hx & Hin).
           rewrite <- Hx. now apply Hgone.
        -- destruct Hm as [<- | Hm].
           ++ rewrite Hframe, B1; [apply lookup_delete_eq |].
              intros x Hx Heq. apply Hout. apply List.in_map_iff.
              exists x. split; [now symmetry | exact Hx].
           ++ now apply Hgone.
      * intros k Hk. rewrite Hframe by (intros x Hx; apply Hk; now right).
        rewrite B1. apply lookup_delete_ne.
        intros H. apply (Hk m0); [now left | now symmetry].
    + apply IH.
Qed.

(** X27.  [deleteExpiredMessages] reads the clock once, after listing the
    channel, and returns the number of listed messages older than the
    TTL at that reading; afterwards no such message is left under its
    key in the channel, and every other key holds what it held. *)
Theorem deleteExpiredMessages_spec (env : Env) (channelId : string)
    (ttlSeconds : Z) (w : World) :
  let now :=
    time_at env (tick (snd (Storage.getChannelMessages channelId None w))) in
  let expired :=
    List.filter (fun m => (ttlSeconds * 1000 <? now - msg_timestamp m)%Z)
                (listing (bucket w) channelId None) in
  exists w',
    PrivacyStorage.deleteExpiredMessages env channelId ttlSeconds w
    = (Ok (Z.of_nat (List.length expired)), w')
    /\ (forall m, In m expired ->
          bucket w' !! KEYS.channelMessages channelId (msg_id m) = None)
    /\ (forall k,
          (forall m, In m expired ->
             k <> KEYS.channelMessages channelId (msg_id m)) ->
          bucket w' !! k = bucket w !! k).
Proof.
  intros now expired. subst now expired.
  unfold PrivacyStorage.deleteExpiredMessages, bind.
  destruct (getChannelMessages_run channelId None w) as (w1 & E1 & B1 & _).
  rewrite E1. cbn [snd]. unfold Date_now at 1.
  destruct (delete_expired_run channelId (time_at env (tick w1)) ttlSeconds
              (listing (bucket w) channelId None) w1)
    as (w' & E & Hgone & Hframe).
  exists w'. split; [exact E |]. split; [exact Hgone |].
  intros k Hk. now rewrite Hframe, B1.
Qed.

(** ** Storing and deleting invitations ([saveInvitation],
    [deleteInvitation]) *)

Lemma addInvitationToAgent_run (d invitationId : string) (w : World) :
  exists w',
    PrivacyStorage.addInvitationToAgent d invitationId w = (Ok tt, w')
    /\ (forall k, k <> KEYS.agentInvitations d ->
          bucket w' !! k = bucket w !! k)
    /\ (forall x, In x (ids_at (bucket w') (KEYS.agentInvitations d))
                  <-> In x (ids_at (bucket w) (KEYS.agentInvitations d))
                      \/ x = invitationId).
Proof.
  unfold PrivacyStorage.addInvitationToAgent, bind.
  destruct (read_ids_run (KEYS.agentInvitations d) w) as (w1 & E1 & B1 & _).
  rewrite E1.
  change (default [] match bucket w !! KEYS.agentInvitations d with
                     | Some (ObjIds ids) => Some ids
                     | _ => None
                     end)
    with (default [] match bucket w !! KEYS.agentInvitations d with
                     | Some (ObjIds ids) => Some ids
                     | _ => None
                     end).
  assert (Hids : default [] match bucket w !! KEYS.agentInvitations d with
                            | Some (ObjIds ids) => Some ids
                            | _ => None
                            end
                 = ids_at (bucket w) (KEYS.agentInvitations d)).
  { unfold ids_at.
    now destruct (bucket w !! KEYS.agentInvitations d) as [[| | | |] |]. }
  rewrite Hids.
  destruct (includes (ids_at (bucket w) (KEYS.agentInvitations d))
                     invitationId) eqn:Hinc; cbn [negb].
  - exists w1. split; [reflexivity |]. rewrite B1. split; [reflexivity |].
    apply includes_In in Hinc.
    intros x. split; [tauto | intros [H | ->]; assumption].
  - destruct (bucket_put_run (KEYS.agentInvitations d)
                (ObjIds (ids_at (bucket w) (KEYS.agentInvitations d)
                         ++ [invitationId])) w1) as (w2 & E2 & B2 & _).
    exists w2. split; [exact E2 |]. rewrite B2, B1. split.
    + intros k Hne. now apply lookup_insert_ne.
    + intros x. unfold ids_at at 1. rewrite lookup_insert_eq.
      rewrite in_app_iff. simpl. intuition congruence.
Qed.

Lemma removeInvitationFromAgent_run (d invitationId : string) (w : World) :
  exists w',
    PrivacyStorage.removeInvitationFromAgent d invitationId w = (Ok tt, w')
    /\ (forall k, k <> KEYS.agentInvitations d ->
          bucket w' !! k = bucket w !! k)
    /\ ids_at (bucket w') (KEYS.agentInvitations d)
       = List.filter (fun id => negb (String.eqb id invitationId))
                     (ids_at (bucket w) (KEYS.agentInvitations d)).
Proof.
  unfold PrivacyStorage.removeInvitationFromAgent, bind.
  destruct (read_ids_run (KEYS.agentInvitations d) w) as (w1 & E1 & B1 & _).
  rewrite E1. unfold ids_at.
  destruct (bucket w !! KEYS.agentInvitations d) as [[a | c | m | i | ids] |]
    eqn:Hk;
    try (exists w1; split; [reflexivity |]; rewrite B1, Hk;
         split; [reflexivity | reflexivity]).
  destruct (bucket_put_run (KEYS.agentInvitations d)
              (ObjIds (List.filter
                         (fun id => negb (String.eqb id invitationId)) ids))
              w1) as (w2 & E2 & B2 & _).
  exists w2. split; [exact E2 |]. rewrite B2, B1. split.
  - intros k Hne. now apply lookup_insert_ne.
  - now rewrite lookup_insert_eq.
Qed.

Lemma KEYS_invitation_inj (a b : string) :
  KEYS.invitation a = KEYS.invitation b -> a = b.
Proof.
  unfold KEYS.invitation. intros H.
  now apply append_inv_head, append_inv_tail in H.
Qed.

(** X28.  An invitation saved with [saveInvitation] is read back by
    [getInvitation] and its id is listed in the invitee's index, which
    gains no other id; other invitations and all agent records are read
    back as before.  A following [deleteInvitation] leaves neither the
    invitation nor its id in that index, and keeps every other id of the
    index. *)
Theorem saveInvitation_deleteInvitation (i : ChannelInvitation) (w : World) :
  exists w1 w2,
    PrivacyStorage.saveInvitation i w = (Ok tt, w1)
    /\ lookup_invitation (bucket w1) (inv_id i) = Some i
    /\ (forall x, In x (ids_at (bucket w1)
                          (KEYS.agentInvitations (inv_invitee i)))
                  <-> In x (ids_at (bucket w)
                              (KEYS.agentInvitations (inv_invitee i)))
                      \/ x = inv_id i)
    /\ (forall id, id <> inv_id i ->
          lookup_invitation (bucket w1) id = lookup_invitation (bucket w) id)
    /\ (forall d, lookup_agent (bucket w1) d = lookup_agent (bucket w) d)
    /\ PrivacyStorage.deleteInvitation (inv_id i) w1 = (Ok tt, w2)
    /\ lookup_invitation (bucket w2) (inv_id i) = None
    /\ (forall x, In x (ids_at (bucket w2)
                          (KEYS.agentInvitations (inv_invitee i)))
                  <-> In x (ids_at (bucket w)
                              (KEYS.agentInvitations (inv_invitee i)))
                      /\ x <> inv_id i).
Proof.
  unfold PrivacyStorage.saveInvitation, bind.
  destruct (bucket_put_run (KEYS.invitation (inv_id i)) (ObjInvitation i) w)
    as (wa & Ea & Ba & _).
  rewrite Ea.
  destruct (addInvitationToAgent_run (inv_invitee i) (inv_id i) wa)
    as (w1 & E1 & Hframe1 & Hidx1).
  rewrite E1.
  assert (Hkey : forall x,
             KEYS.invitation x <> KEYS.agentInvitations (inv_invitee i))
    by (intros x; apply invitation_key_other).
  assert (Hsaved : lookup_invitation (bucket w1) (inv_id i) = Some i).
  { unfold lookup_invitation. rewrite Hframe1 by apply Hkey.
    now rewrite Ba, lookup_insert_eq. }
  assert (Hidx0 : ids_at (bucket wa) (KEYS.agentInvitations (inv_invitee i))
                  = ids_at (bucket w) (KEYS.agentInvitations (inv_invitee i))).
  { apply ids_at_same. rewrite Ba. apply lookup_insert_ne. apply Hkey. }
  exists w1. unfold PrivacyStorage.deleteInvitation, bind.
  destruct (getInvitation_run (inv_id i) w1) as (wb & Eb & Bb & _).
  rewrite Eb, Hsaved.
  destruct (removeInvitationFromAgent_run (inv_invitee i) (inv_id i) wb)
    as (wc & Ec & Hframec & Hidxc).
  rewrite Ec.
  destruct (bucket_delete_run (KEYS.invitation (inv_id i)) wc)
    as (w2 & E2 & B2 & _).
  exists w2. split; [reflexivity |]. split; [reflexivity |].
  split; [| split; [| split; [| split; [exact E2 | split]]]].
  - intros x. rewrite Hidx1, Hidx0. tauto.
  - intros id Hne. unfold lookup_invitation.
    rewrite Hframe1 by apply Hkey. rewrite Ba.
    rewrite lookup_insert_ne; [reflexivity |].
    intros H. apply KEYS_invitation_inj in H. congruence.
  - intros d. unfold lookup_agent.
    rewrite Hframe1
      by exact (proj1 (proj2 (agent_key_not_index d (inv_invitee i)))).
    rewrite Ba. apply f_equal with (f := fun o => match o with
                                                  | Some (ObjAgent a) => Some a
                                                  | _ => None
                                                  end).
    apply lookup_insert_ne.
    exact (proj1 (proj2 (proj2 (invitation_key_other (inv_id i) d)))).
  - unfold lookup_invitation. now rewrite B2, lookup_delete_eq.
  - intros x.
    assert (Hsame : ids_at (bucket w2) (KEYS.agentInvitations (inv_invitee i))
                    = ids_at (bucket wc)
                        (KEYS.agentInvitations (inv_invitee i))).
    { apply ids_at_same. rewrite B2. apply lookup_delete_ne. apply Hkey. }
    rewrite Hsame, Hidxc, Bb, filter_In, Hidx1, Hidx0.
    destruct (String.eqb_spec x (inv_id i)) as [-> | Hne]; simpl.
    + split; [intros [_ H]; discriminate H | intros [_ H]; now elim H].
    + split; [intros [[H | H] _]; [now split | contradiction] |].
      intros [H _]. split; [now left | reflexivity].
Qed.

(** ** Listing an agent's channels ([getAgentChannelsWithDetails]) *)

Lemma channels_with_details_run (ids : list string) (w : World) :
  exists w',
    PrivacyStorage.channels_with_details ids w
    = (Ok (stored_channels (bucket w) ids), w')
    /\ bucket w' = bucket w.
Proof.
  revert w. induction ids as [| id ids IH]; intros w.
  - exists w. split; reflexivity.
  - cbn [PrivacyStorage.channels_with_details]. unfold bind.
    destruct (getChannel_run id w) as (w1 & E1 & B1 & _). rewrite E1.
    destruct (IH w1) as (w' & E & B). rewrite E.
    exists w'. split; [| congruence].
    unfold ret. rewrite B1. cbn [stored_channels flat_map].
    now destruct (lookup_channel (bucket w) id).
Qed.

Lemma getAgentChannelsWithDetails_run (d : string) (w : World) :
  exists w',
    PrivacyStorage.getAgentChannelsWithDetails d w
    = (Ok (stored_channels (bucket w) (ids_at (bucket w) (KEYS.agentChannels d))),
       w')
    /\ bucket w' = bucket w.
Proof.
  unfold PrivacyStorage.getAgentChannelsWithDetails,
    PrivacyStorage.getAgentChannels, bind.
  destruct (read_ids_run (KEYS.agentChannels d) w) as (w1 & E1 & B1 & _).
  rewrite E1. unfold ret at 1.
  destruct (channels_with_details_run
              (default [] match bucket w !! KEYS.agentChannels d with
                          | Some (ObjIds ids) => Some ids
                          | _ => None
                          end) w1) as (w' & E & B).
  exists w'. rewrite E, B1. split; [| congruence].
  do 3 f_equal. unfold ids_at.
  now destruct (bucket w !! KEYS.agentChannels d) as [[| | | |] |].
Qed.

Lemma stored_channels_In (b : gmap string Object) (ids : list string)
    (c : PrivateChannel) :
  In c (stored_channels b ids)
  <-> exists id, In id ids /\ lookup_channel b id = Some c.
Proof.
  unfold stored_channels. rewrite in_flat_map. split.
  - intros (id & Hid & Hc). exists id. split; [exact Hid |].
    destruct (lookup_channel b id) as [c0 |]; [| destruct Hc].
    destruct Hc as [<- | []]. reflexivity.
  - intros (id & Hid & Hl). exists id. split; [exact Hid |].
    rewrite Hl. now left.
Qed.

(** X29.  [getAgentChannelsWithDetails] writes nothing and returns the
    channels stored under the ids of the agent's index, in the order of
    the index, skipping ids without metadata.  Leaving does not take a
    channel off that list: when an agent whose index lists a channel
    leaves it through the leave route, the list still has the channel,
    now without the agent among its participants. *)
Theorem leave_keeps_channel_listed (header : option string)
    (w : World) (agent : MoltbookAgent) (channel : PrivateChannel) :
  (forall d w0,
     exists channels w',
       PrivacyStorage.getAgentChannelsWithDetails d w0 = (Ok channels, w')
       /\ bucket w' = bucket w0
       /\ channels
          = flat_map (fun id => match lookup_channel (bucket w0) id with
                                | Some c => [c]
                                | None => []
                                end)
                     (ids_at (bucket w0) (KEYS.agentChannels d))
       /\ (forall c, In c channels
                     <-> exists id,
                           In id (ids_at (bucket w0) (KEYS.agentChannels d))
                           /\ lookup_channel (bucket w0) id = Some c))
  /\ (authenticated (bucket w) header = Some agent ->
      lookup_channel (bucket w) (ch_id channel) = Some channel ->
      did agent <> ch_createdBy channel ->
      In (ch_id channel) (ids_at (bucket w) (KEYS.agentChannels (did agent))) ->
      exists w1 w2 channels channel',
        leaveChannel header (ch_id channel) w = (Ok success_empty, w1)
        /\ PrivacyStorage.getAgentChannelsWithDetails (did agent) w1
           = (Ok channels, w2)
        /\ bucket w2 = bucket w1
        /\ In channel' channels
        /\ ch_id channel' = ch_id channel
        /\ ~ In (did agent) (ch_participants channel')
        /\ (forall p, p <> did agent ->
              (In p (ch_participants channel')
               <-> In p (ch_participants channel)))).
Proof.
  split.
  { intros d w0.
    destruct (getAgentChannelsWithDetails_run d w0) as (w' & E & B).
    eexists _, w'. split; [exact E |]. split; [exact B |].
    split; [reflexivity | intros c; apply stored_channels_In]. }
  intros Hauth Hch Hne Hlisted.
  destruct (leaveChannel_run header (ch_id channel) w agent channel
              Hauth Hch Hne) as (wa & w1 & Ba & Ea & E1).
  set (channel' := with_participants channel _) in Ea.
  assert (Hout : ~ In (did agent) (ch_participants channel')).
  { subst channel'. simpl. rewrite filter_In.
    intros [_ H]. now rewrite String.eqb_refl in H. }
  destruct (saveChannel_lookups channel' wa) as (wb & Eb & Hlc & _).
  rewrite Ea in Eb. injection Eb as <-.
  destruct (saveChannel_frame channel' wa) as (wb & Eb & Hframe).
  rewrite Ea in Eb. injection Eb as <-.
  destruct (getAgentChannelsWithDetails_run (did agent) w1) as (w2 & E2 & B2).
  eexists w1, w2, _, channel'. split; [exact E1 |]. split; [exact E2 |].
  split; [exact B2 |].
  split; [| split; [reflexivity | split; [exact Hout |]]].
  - assert (Hidx : ids_at (bucket w1) (KEYS.agentChannels (did agent))
                   = ids_at (bucket w) (KEYS.agentChannels (did agent))).
    { rewrite <- Ba. apply ids_at_same. apply Hframe.
      - intros p Hp Hk. apply KEYS_agentChannels_inj in Hk. congruence.
      - intros Hk. symmetry in Hk.
        exact (proj1 (channel_key_not_agent _ _) Hk). }
    apply stored_channels_In.
    exists (ch_id channel). split; [now rewrite Hidx |].
    rewrite Hlc.
    change (ch_id channel') with (ch_id channel).
    now rewrite String.eqb_refl.
  - intros p Hp. subst channel'. simpl. rewrite filter_In.
    split; [tauto |]. intros H. split; [exact H |].
    destruct (String.eqb_spec p (did agent)); [contradiction | reflexivity].
Qed.

Lemma leave_keeps_channel_listed_witness :
  exists w1 w2 channels channel',
    leaveChannel (Some alice_did) "ch-test123" (world_of indexed_bucket)
    = (Ok success_empty, w1)
    /\ PrivacyStorage.getAgentChannelsWithDetails alice_did w1
       = (Ok channels, w2)
    /\ In channel' channels
    /\ ~ In alice_did (ch_participants channel').
Proof.
  destruct (leave_keeps_channel_listed (Some alice_did)
              (world_of indexed_bucket) alice_agent ttl_channel)
    as [_ Hleave].
  destruct Hleave
    as (w1 & w2 & channels & channel' & E & E2 & _ & Hin & _ & Hout & _).
  - reflexivity.
  - reflexivity.
  - simpl. discriminate.
  - simpl. now left.
  - exists w1, w2, channels, channel'.
    split; [exact E |]. split; [exact E2 |]. split; [exact Hin | exact Hout].
Defined.
